(** * DOC-AI: the ingestion-to-answer pipeline, embedded in Rocq

    A shallow embedding of the Python services of the backend
    ([app/services/chunking.py], [app/services/ingestion.py],
    [app/services/retrieval.py], [app/services/agent_service.py],
    [app/db/vector_store.py], and the delete handler of
    [app/api/documents.py]) together with the properties of the
    natural-language specification that were checked against them.

    Conventions.
    - A Python [str] is the list of its code points ([list N]); [lit]
      turns a Rocq string literal into one.
    - A Python [int] is a [Z]; indices follow Python's rules for
      negative and out-of-range values.
    - A Python [float] is a primitive binary64 float.
    - A [while] loop is a fuel-indexed function returning [None] when
      the fuel runs out before the loop condition turns false. *)

From Stdlib Require Import ZArith NArith Lia List String Ascii DecimalString.
From Stdlib Require Import Floats.
From stdpp Require Import base tactics option list gmap.

Local Open Scope Z_scope.
Set Warnings "-inexact-float".

(** ** Python strings *)

Module Py.

Definition lit (s : string) : list N :=
  map N_of_ascii (list_ascii_of_string s).

Definition len {A} (l : list A) : Z := Z.of_nat (length l).

(** [str.isspace] on one code point (CPython's [_PyUnicode_IsWhitespace]). *)
Definition isspace (c : N) : bool :=
  (((9 <=? c) && (c <=? 13)) || ((28 <=? c) && (c <=? 32))
   || (c =? 133) || (c =? 160) || (c =? 5760)
   || ((8192 <=? c) && (c <=? 8202))
   || (c =? 8232) || (c =? 8233) || (c =? 8239) || (c =? 8287)
   || (c =? 12288))%N.

Fixpoint lstrip (s : list N) : list N :=
  match s with
  | c :: s' => if isspace c then lstrip s' else s
  | [] => []
  end.

Definition rstrip (s : list N) : list N := rev (lstrip (rev s)).

(** [s.strip()] *)
Definition strip (s : list N) : list N := rstrip (lstrip s).

(** Index adjustment of a slice bound ([PySlice_AdjustIndices], step 1). *)
Definition adjust (n i : Z) : Z :=
  if i <? 0 then Z.max (i + n) 0 else Z.min i n.

(** [s[start:stop]] *)
Definition slice {A} (s : list A) (start stop : Z) : list A :=
  let a := adjust (len s) start in
  let b := adjust (len s) stop in
  take (Z.to_nat (b - a)) (drop (Z.to_nat a) s).

(** [s[-1]] of a list, [None] when the list is empty. *)
Definition last_item {A} (l : list A) : option A := last l.

Fixpoint starts_with (sub s : list N) : bool :=
  match sub, s with
  | [], _ => true
  | c :: sub', d :: s' => (c =? d)%N && starts_with sub' s'
  | _ :: _, [] => false
  end.

(** [sub] occurs in [s] at index [i] *)
Definition match_at (s sub : list N) (i : Z) : bool :=
  (0 <=? i) && starts_with sub (drop (Z.to_nat i) s).

(** Candidates [lo], ..., [lo + n - 1], the highest first. *)
Fixpoint rfind_scan (s sub : list N) (lo : Z) (n : nat) : Z :=
  match n with
  | O => -1
  | S m =>
      if match_at s sub (lo + Z.of_nat m) then lo + Z.of_nat m
      else rfind_scan s sub lo m
  end.

(** [s.rfind(sub, start, stop)]: the highest index [i] with
    [s[i:i+len(sub)] == sub] inside [s[start:stop]], or [-1]
    (CPython's [ADJUST_INDICES] followed by the backward search). *)
Definition rfind (s sub : list N) (start stop : Z) : Z :=
  let n := len s in
  let stop' :=
    if n <? stop then n
    else if stop <? 0 then Z.max (stop + n) 0 else stop in
  let start' := if start <? 0 then Z.max (start + n) 0 else start in
  rfind_scan s sub start' (Z.to_nat (stop' - len sub - start' + 1)).

(** Truthiness of a string or list: non-empty. *)
Definition truthy {A} (l : list A) : bool :=
  match l with [] => false | _ => true end.

(** Occurrences of a marker inside a window, as propositions. *)

(** [sub] occurs at index [i], wholly inside [start, stop). *)
Definition occurs_in (s sub : list N) (start stop i : Z) : Prop :=
  start <= i /\ i + len sub <= stop /\ match_at s sub i = true.

Definition absent (s : list N) (start stop : Z) (sub : list N) : Prop :=
  forall i, start <= i -> i + len sub <= stop -> match_at s sub i = false.

(** [p] is the last (rightmost) occurrence of [sub] inside the window. *)
Definition last_occurrence (s sub : list N) (start stop p : Z) : Prop :=
  occurs_in s sub start stop p /\
  forall i, occurs_in s sub start stop i -> i <= p.

End Py.

(** ** [app/services/chunking.py] *)

Module Chunking.
Import Py.

Record Chunk := mkChunk {
  text : list N;
  chunk_index : Z;
  start_char : Z;
  end_char : Z
}.

(** The markers of the [for boundary in [...]] loop, in its order. *)
Definition BOUNDARIES : list (list N) :=
  [lit ". "; lit "! "; lit "? "; [10; 10]; [10]]%N.

Definition SPACE : list N := lit " ".

(** The [for ... break] loop: the first marker of [bs] that [rfind]
    finds decides the cut; [None] is the loop's [else] branch. *)
Fixpoint boundary_cut (s : list N) (start stop : Z) (bs : list (list N))
  : option Z :=
  match bs with
  | [] => None
  | boundary :: bs' =>
      let boundary_pos := rfind s boundary start stop in
      if boundary_pos =? -1 then boundary_cut s start stop bs'
      else Some (boundary_pos + len boundary)
  end.

(** The value of [end] after the [if end < len(text): ... else: ...]
    block of one iteration. *)
Definition window_end (s : list N) (start chunk_size : Z) : Z :=
  let stop := start + chunk_size in
  if stop <? len s then
    match boundary_cut s start stop BOUNDARIES with
    | Some e => e
    | None =>
        let space_pos := rfind s SPACE start stop in
        if negb (space_pos =? -1) && (start <? space_pos)
        then space_pos + 1 else stop
    end
  else len s.

(** The variables the [while] loop updates. *)
Record cursor := mkCursor {
  cur_start : Z;
  cur_index : Z;
  cur_chunks : list Chunk
}.

(** One iteration of the [while] body. The progress test is
    [start <= chunks[-1].start_char if chunks else 0], which Python
    reads as [(start <= chunks[-1].start_char) if chunks else 0]. *)
Definition chunk_body (s : list N) (chunk_size chunk_overlap : Z)
    (st : cursor) : cursor :=
  let start := cur_start st in
  let stop := window_end s start chunk_size in
  let piece := strip (slice s start stop) in
  let chunks :=
    if truthy piece
    then cur_chunks st ++ [mkChunk piece (cur_index st) start stop]
    else cur_chunks st in
  let index := if truthy piece then cur_index st + 1 else cur_index st in
  let start' := stop - chunk_overlap in
  let stuck :=
    match last_item chunks with
    | Some c => start' <=? start_char c
    | None => false
    end in
  mkCursor (if stuck then stop else start') index chunks.

(** [while start < len(text): ...] *)
Fixpoint chunk_loop (fuel : nat) (s : list N) (chunk_size chunk_overlap : Z)
    (st : cursor) : option (list Chunk) :=
  if cur_start st <? len s then
    match fuel with
    | O => None
    | S fuel' =>
        chunk_loop fuel' s chunk_size chunk_overlap
          (chunk_body s chunk_size chunk_overlap st)
    end
  else Some (cur_chunks st).

(** [chunk_text(text, chunk_size, chunk_overlap)] *)
Definition chunk_text (fuel : nat) (s : list N)
    (chunk_size chunk_overlap : Z) : option (list Chunk) :=
  if negb (truthy s) || negb (truthy (strip s)) then Some []
  else chunk_loop fuel s chunk_size chunk_overlap (mkCursor 0 0 []).

(** *** Statements about the chunker *)

(** The order of the markers as the specification words it: paragraph
    break, newline, then the sentence terminators. *)
Definition SPEC_BOUNDARIES : list (list N) :=
  [[10; 10]; [10]; lit ". "; lit "! "; lit "? "]%N.

(** The cut point as the specification words it: the first marker of
    [SPEC_BOUNDARIES] found decides, else any space of the window, else
    the raw window boundary. *)
Definition window_end_spec (s : list N) (start chunk_size : Z) : Z :=
  let stop := start + chunk_size in
  if stop <? len s then
    match boundary_cut s start stop SPEC_BOUNDARIES with
    | Some e => e
    | None =>
        let space_pos := rfind s SPACE start stop in
        if space_pos =? -1 then stop else space_pos + 1
    end
  else len s.

(** The cut rule of the code for the window [start, start + chunk_size):
    the first marker of [bs] that occurs in the window cuts after its last
    occurrence; else the last space of the window, when it lies strictly
    after the window start, cuts after itself; else the window is cut at
    its raw boundary. [e] is the resulting end. *)
Definition cut_rule (bs : list (list N)) (s : list N)
    (start chunk_size e : Z) : Prop :=
  let stop := start + chunk_size in
  (exists pre m post p,
      bs = pre ++ m :: post /\
      Forall (absent s start stop) pre /\
      last_occurrence s m start stop p /\
      e = p + len m)
  \/ (Forall (absent s start stop) bs /\
      exists p, last_occurrence s SPACE start stop p /\ start < p /\
                e = p + 1)
  \/ (Forall (absent s start stop) bs /\
      (forall i, occurs_in s SPACE start stop i -> i <= start) /\
      e = stop).

(** Position [p] lies in the range of some chunk. *)
Definition covers (out : list Chunk) (p : Z) : Prop :=
  exists c, c ∈ out /\ start_char c <= p < end_char c.

(** The character at position [p] is whitespace. *)
Definition blank_at (s : list N) (p : Z) : Prop :=
  exists c, s !! Z.to_nat p = Some c /\ isspace c = true.

(** What holds of every list of chunks the chunker returns. *)
Definition chunks_wf (s : list N) (out : list Chunk) : Prop :=
  (forall c, c ∈ out ->
     0 <= start_char c /\ start_char c < end_char c /\
     end_char c <= len s /\
     text c = strip (slice s (start_char c) (end_char c)) /\
     text c <> [])
  /\ (forall i c, out !! i = Some c -> chunk_index c = Z.of_nat i)
  /\ (forall i j ci cj,
        out !! i = Some ci -> out !! j = Some cj -> (i < j)%nat ->
        start_char ci < start_char cj /\ end_char ci <= end_char cj)
  /\ (forall c0 p,
        head out = Some c0 -> start_char c0 <= p < len s ->
        covers out p \/ blank_at s p).

(** The invariant of the [while] loop. *)
Definition loop_inv (s : list N) (chunk_size : Z) (st : cursor) : Prop :=
  let out := cur_chunks st in
  cur_index st = len out
  /\ (forall i c, out !! i = Some c ->
        chunk_index c = Z.of_nat i /\
        0 <= start_char c /\ start_char c < end_char c /\
        end_char c <= len s /\
        end_char c = window_end s (start_char c) chunk_size /\
        text c = strip (slice s (start_char c) (end_char c)) /\
        text c <> [])
  /\ (forall i j ci cj,
        out !! i = Some ci -> out !! j = Some cj -> (i < j)%nat ->
        start_char ci < start_char cj)
  /\ (forall c, c ∈ out -> start_char c < cur_start st)
  /\ (out = [] ->
        cur_start st = 0 \/ (chunk_size < len s /\ 2 - chunk_size <= cur_start st))
  /\ (forall c0, head out = Some c0 ->
        exists F, cur_start st <= F /\ F <= len s /\
          forall p, start_char c0 <= p < F -> covers out p \/ blank_at s p).

End Chunking.


(** ** Exceptions and results *)

Module Exn.
Import Py.

(** The subclasses of [Exception] the services raise. *)
Inductive exn :=
| ValueError (msg : list N)
| HTTPException (status_code : Z) (detail : list N)
| Exception (msg : list N).

(** A call returns a value or raises. *)
Inductive outcome (A : Type) :=
| Return (a : A)
| Raise (e : exn).
Arguments Return {A} a.
Arguments Raise {A} e.

Definition bind {A B} (m : outcome A) (f : A -> outcome B) : outcome B :=
  match m with
  | Return a => f a
  | Raise e => Raise e
  end.

(** The value of a call that returned. *)
Definition returned {A} (m : outcome A) : option A :=
  match m with
  | Return a => Some a
  | Raise _ => None
  end.

(** [str(n)] for an integer. *)
Definition str_of_Z (n : Z) : list N :=
  lit (NilZero.string_of_int (Z.to_int n)).

(** [str(e)] *)
Definition str_of_exn (e : exn) : list N :=
  match e with
  | ValueError msg => msg
  | HTTPException status_code detail =>
      str_of_Z status_code ++ lit ": " ++ detail
  | Exception msg => msg
  end.

(** [sep.join(parts)] *)
Fixpoint join (sep : list N) (parts : list (list N)) : list N :=
  match parts with
  | [] => []
  | [p] => p
  | p :: rest => p ++ sep ++ join sep rest
  end.

Definition NL : list N := [10%N].
Definition QUOTE : list N := [34%N].

End Exn.

(** ** [app/db/vector_store.py] *)

Module VectorStore.
Import Py Exn.

Definition vector := list float.

(** A two-dimensional array: its second dimension and its rows. *)
Record ndarray := mkArray {
  shape1 : Z;
  rows : list vector
}.

(** The store object: the flat index holds the vectors in insertion
    order, slot [i] being the [i]-th vector added; [on_disk] is the
    snapshot written by [save]. *)
Record VectorStore := mkStore {
  dimension : Z;
  index : list vector;
  on_disk : option (list vector)
}.

Definition DEFAULT_DIMENSION : Z := 384.

(** [index.ntotal] *)
Definition total_vectors (vs : VectorStore) : Z := len (index vs).

Definition add_vectors (vs : VectorStore) (vectors : ndarray)
  : outcome VectorStore :=
  if negb (shape1 vectors =? dimension vs) then
    Raise (ValueError
             (lit "Vector dimension " ++ str_of_Z (shape1 vectors) ++
              lit " doesn't match index dimension " ++
              str_of_Z (dimension vs)))
  else
    Return (mkStore (dimension vs) (index vs ++ rows vectors) (on_disk vs)).

Definition save (vs : VectorStore) : VectorStore :=
  mkStore (dimension vs) (index vs) (Some (index vs)).

End VectorStore.

(** ** The external collaborators *)

Module Providers.
Import Py Exn VectorStore.

(** The embedding model, the nearest-neighbour primitive and the
    generation server are outside the repository: they are taken as
    given functions. [encode] is [SentenceTransformer.encode] on one
    text, [model_dimension] the width of its vectors, [faiss_search]
    the row of distances and the row of labels [IndexFlatL2.search]
    answers for one query, and [ollama] the [POST /api/generate] call
    (full prompt, temperature, token budget) with the [response] field
    of its reply, or the exception it raises. *)
Record Providers := mkProviders {
  encode : list N -> vector;
  model_dimension : Z;
  faiss_search : list vector -> vector -> Z -> list float * list Z;
  ollama : list N -> float -> Z -> outcome (list N)
}.

(** [embedding_service.embed_texts(texts)] *)
Definition embed_texts (P : Providers) (texts : list (list N)) : ndarray :=
  mkArray (model_dimension P) (map (encode P) texts).

(** [embedding_service.embed_single(text)] *)
Definition embed_single (P : Providers) (t : list N) : vector :=
  encode P t.

(** [vector_store.search(query_vector, k)] *)
Definition search (P : Providers) (vs : VectorStore) (query_vector : vector)
    (k : Z) : list float * list Z :=
  faiss_search P (index vs) query_vector k.

End Providers.

(** ** The metadata store *)

Module Mongo.
Import Py.

Module DocumentRecord.
Record t := mk {
  _id : N;
  filename : list N;
  user_email : list N;
  content_length : Z;
  chunk_count : Z;
  faiss_start_index : Z;
  faiss_end_index : Z
}.
End DocumentRecord.

(** A record of the [chunks] collection. The [_id] of a chunk record
    and the [created_at] stamps are never read by the services and are
    left out. [document_id] is the owning document's [_id] (its
    string form in the source). *)
Module ChunkRecord.
Record t := mk {
  document_id : N;
  user_email : list N;
  filename : list N;
  chunk_index : Z;
  faiss_index : Z;
  text : list N;
  start_char : Z;
  end_char : Z
}.
End ChunkRecord.

(** The two collections in insertion order, and the next fresh
    [ObjectId]. *)
Record db := mkDb {
  documents : list DocumentRecord.t;
  chunks : list ChunkRecord.t;
  next_id : N
}.

(** [db.documents.insert_one(record)]: the record is stored under a
    fresh [_id], which is returned. *)
Definition insert_document (d : db) (record : N -> DocumentRecord.t)
  : N * db :=
  (next_id d,
   mkDb (documents d ++ [record (next_id d)]) (chunks d) (N.succ (next_id d))).

(** [db.chunks.insert_many(records)] *)
Definition insert_chunks (d : db) (records : list ChunkRecord.t) : db :=
  mkDb (documents d) (chunks d ++ records) (next_id d).

(** [db.documents.delete_one({"_id": oid})]: the first match goes. *)
Fixpoint delete_one (oid : N) (docs : list DocumentRecord.t)
  : list DocumentRecord.t :=
  match docs with
  | [] => []
  | doc :: rest =>
      if bool_decide (DocumentRecord._id doc = oid) then rest
      else doc :: delete_one oid rest
  end.

(** [db.chunks.delete_many({"document_id": oid})] *)
Definition delete_many (oid : N) (cs : list ChunkRecord.t)
  : list ChunkRecord.t :=
  List.filter
    (fun c => negb (bool_decide (ChunkRecord.document_id c = oid))) cs.

(** The query filters the services build for the [chunks] collection:
    [{"faiss_index": {"$in": slots}}], with [{"user_email": owner}]
    added when [owner] is [Some]. *)
Record chunk_filter := mkFilter {
  faiss_index_in : list Z;
  user_email_is : option (list N)
}.

Definition matches (q : chunk_filter) (c : ChunkRecord.t) : bool :=
  bool_decide (ChunkRecord.faiss_index c ∈ faiss_index_in q)
  && match user_email_is q with
     | Some owner => bool_decide (ChunkRecord.user_email c = owner)
     | None => true
     end.

(** [db.chunks.find(query_filter)], in the collection's order. *)
Definition find_chunks (d : db) (q : chunk_filter) : list ChunkRecord.t :=
  List.filter (matches q) (chunks d).

End Mongo.

(** The two stores the services share. *)
Record World := mkWorld {
  vector_store : VectorStore.VectorStore;
  mongo : Mongo.db
}.

(** ** [app/services/ingestion.py] *)

Module Ingestion.
Import Py Exn VectorStore Providers Mongo.

(** [chunk_document]: the chunks of [chunk_text] as dictionaries with
    the same four keys. *)
Definition chunk_document (fuel : nat) (content : list N)
    (chunk_size chunk_overlap : Z) : option (list Chunking.Chunk) :=
  Chunking.chunk_text fuel content chunk_size chunk_overlap.

Record IngestResult := mkResult {
  document_id : N;
  filename : list N;
  chunks_processed : Z;
  faiss_start_index : Z;
  faiss_end_index : Z
}.

(** The records of step 7: chunk [i] gets slot [start_index + i]. *)
Definition chunk_records (document_id : N) (user_email filename : list N)
    (start_index : Z) (chunks : list Chunking.Chunk) : list ChunkRecord.t :=
  imap (fun i chunk =>
          ChunkRecord.mk document_id user_email filename
            (Chunking.chunk_index chunk)
            (start_index + Z.of_nat i)
            (Chunking.text chunk)
            (Chunking.start_char chunk)
            (Chunking.end_char chunk))
       chunks.

(** [ingest_document]. [None]: the chunker is still looping when the
    fuel runs out. A raised exception leaves the world as it was. *)
Definition ingest_document (P : Providers) (fuel : nat) (w : World)
    (filename content user_email : list N) (chunk_size chunk_overlap : Z)
  : option (outcome (IngestResult * World)) :=
  match chunk_document fuel content chunk_size chunk_overlap with
  | None => None
  | Some chunks =>
      Some
        (if negb (truthy chunks) then
           Raise (ValueError (lit "Document produced no chunks"))
         else
           let start_index := total_vectors (vector_store w) in
           let chunk_texts := map Chunking.text chunks in
           let embeddings := embed_texts P chunk_texts in
           bind (add_vectors (vector_store w) embeddings) (fun vs =>
           let vs := save vs in
           let document_record := fun oid =>
             DocumentRecord.mk oid filename user_email (len content)
               (len chunks) start_index (start_index + len chunks) in
           let '(document_id, d) :=
             insert_document (mongo w) document_record in
           let d :=
             insert_chunks d
               (chunk_records document_id user_email filename
                  start_index chunks) in
           Return
             (mkResult document_id filename (len chunks) start_index
                (start_index + len chunks),
              mkWorld vs d)))
  end.

(** [get_chunk_by_faiss_index]: [find_one] answers the first match. *)
Definition get_chunk_by_faiss_index (w : World) (faiss_index : Z)
  : option ChunkRecord.t :=
  head (List.filter
          (fun c => bool_decide (ChunkRecord.faiss_index c = faiss_index))
          (chunks (mongo w))).

(** [get_chunks_by_faiss_indices]: the owner condition joins the filter
    only when [user_email] is truthy. *)
Definition get_chunks_by_faiss_indices (w : World) (faiss_indices : list Z)
    (user_email : option (list N)) : list ChunkRecord.t :=
  let query_filter :=
    match user_email with
    | Some (c :: u) => mkFilter faiss_indices (Some (c :: u))
    | _ => mkFilter faiss_indices None
    end in
  find_chunks (mongo w) query_filter.

End Ingestion.

(** ** [app/api/documents.py]: deleting a document *)

Module Documents.
Import Py Exn Mongo.

Record DeleteResponse := mkDeleted {
  document_id : N;
  chunks_deleted : Z
}.

(** [delete_document]: the document must belong to the caller; its
    chunk records go first, then the document record. The vector store
    is not touched. *)
Definition delete_document (w : World) (document_id : N)
    (current_user_email : list N) : outcome (DeleteResponse * World) :=
  let d := mongo w in
  match
    List.filter
      (fun doc =>
         bool_decide (DocumentRecord._id doc = document_id) &&
         bool_decide (DocumentRecord.user_email doc = current_user_email))
      (documents d)
  with
  | [] =>
      Raise (HTTPException 404
               (lit "Document not found or you don't have permission to delete it"))
  | _ :: _ =>
      let kept := delete_many document_id (chunks d) in
      let deleted_count := len (chunks d) - len kept in
      let docs := delete_one document_id (documents d) in
      Return (mkDeleted document_id deleted_count,
              mkWorld (vector_store w) (mkDb docs kept (next_id d)))
  end.

End Documents.

(** ** [app/services/retrieval.py] *)

Module Retrieval.
Import Py Exn VectorStore Providers Mongo Ingestion.

(** One entry of the list [search_similar_chunks] returns. *)
Record Hit := mkHit {
  text : list N;
  filename : list N;
  document_id : N;
  chunk_index : Z;
  faiss_index : Z;
  start_char : Z;
  end_char : Z;
  distance : float
}.

Definition hit_of (chunk : ChunkRecord.t) (distance : float) : Hit :=
  mkHit (ChunkRecord.text chunk) (ChunkRecord.filename chunk)
    (ChunkRecord.document_id chunk) (ChunkRecord.chunk_index chunk)
    (ChunkRecord.faiss_index chunk) (ChunkRecord.start_char chunk)
    (ChunkRecord.end_char chunk) distance.

(** [{chunk["faiss_index"]: chunk for chunk in chunks}]: a later chunk
    with the same slot replaces an earlier one. *)
Definition chunk_map_of (chunks : list ChunkRecord.t) : gmap Z ChunkRecord.t :=
  foldl (fun m chunk => <[ChunkRecord.faiss_index chunk := chunk]> m) ∅ chunks.

Definition search_similar_chunks (P : Providers) (w : World)
    (query : list N) (k : Z) (user_email : option (list N)) : list Hit :=
  let query_embedding := embed_single P query in
  let '(distances, indices) := search P (vector_store w) query_embedding k in
  let valid_indices := List.filter (fun idx => negb (idx =? -1)) indices in
  let valid_distances :=
    map snd
      (List.filter (fun '(idx, _) => negb (idx =? -1))
         (combine indices distances)) in
  if negb (truthy valid_indices) then []
  else
    let chunks := get_chunks_by_faiss_indices w valid_indices user_email in
    let chunk_map := chunk_map_of chunks in
    omap (fun '(idx, distance) =>
            match chunk_map !! idx with
            | Some chunk => Some (hit_of chunk distance)
            | None => None
            end)
         (combine valid_indices valid_distances).

(** *** Statements about retrieval *)

(** The owner condition of a lookup: present only for a truthy owner. *)
Definition owner_passes (user_email : option (list N)) (c : ChunkRecord.t)
  : bool :=
  match user_email with
  | Some (x :: u) => bool_decide (ChunkRecord.user_email c = x :: u)
  | _ => true
  end.

(** The metadata record slot [slot] resolves to for this owner: the
    last stored record of that slot that passes the owner condition. *)
Definition resolve (w : World) (user_email : option (list N)) (slot : Z)
  : option ChunkRecord.t :=
  last (List.filter
          (fun c => bool_decide (ChunkRecord.faiss_index c = slot)
                    && owner_passes user_email c)
          (chunks (mongo w))).

(** The index's answer, entry by entry and in its order: an absent slot
    ([-1]) and a slot that does not resolve give nothing, any other slot
    gives its record with the distance the index reported. *)
Definition ranked_hits (w : World) (user_email : option (list N))
    (answer : list (Z * float)) : list Hit :=
  omap (fun '(slot, d) =>
          if slot =? -1 then None
          else match resolve w user_email slot with
               | Some c => Some (hit_of c d)
               | None => None
               end)
       answer.

End Retrieval.

(** ** [app/services/llm_service.py] *)

Module LLM.
Import Py Exn Providers.

Definition _build_prompt (question : list N)
    (context : option (list (list N))) : list N :=
  match context with
  | None | Some [] => question
  | Some context =>
      let context_text :=
        join (NL ++ NL)
          (imap (fun i t =>
                   lit "[Document " ++ str_of_Z (Z.of_nat i + 1) ++ lit "]:"
                   ++ NL ++ t)
                context) in
      lit "You are a helpful AI assistant. Answer the question based ONLY on the provided context from the user's documents."
      ++ NL ++ NL ++
      lit "Context from documents:" ++ NL ++
      context_text ++ NL ++ NL ++
      lit "Question: " ++ question ++ NL ++ NL ++
      lit "IMPORTANT RULES:" ++ NL ++
      lit "1. ONLY use information from the context above" ++ NL ++
      lit "2. If the context doesn't contain relevant information to answer the question, say: "
      ++ QUOTE ++
      lit "I don't have information about this in your uploaded documents."
      ++ QUOTE ++ NL ++
      lit "3. Do NOT use your general knowledge if it's not in the context"
      ++ NL ++
      lit "4. Always cite which document section you're using when answering"
      ++ NL ++
      lit "5. If the context seems unrelated to the question, explicitly say so"
      ++ NL ++ NL ++
      lit "Answer:"
  end.

(** [llm_service.generate]: the reply of the server, or the exception
    of the HTTP call. *)
Definition generate (P : Providers) (prompt : list N)
    (context : option (list (list N))) (temperature : float)
    (max_tokens : Z) : outcome (list N) :=
  let full_prompt := _build_prompt prompt context in
  ollama P full_prompt temperature max_tokens.

End LLM.

(** ** [app/services/agent_service.py] *)

Module Agent.
Import Py Exn Providers Retrieval.

Inductive BaseMessage :=
| HumanMessage (content : list N)
| AIMessage (content : list N).

Record AgentState := mkState {
  question : list N;
  retrieved_chunks : list Hit;
  reasoning : list N;
  answer : list N;
  messages : list BaseMessage;
  k : Z;
  user_email : option (list N)
}.

Definition RELEVANCE_THRESHOLD : float := 1.2%float.

Definition NO_DOCUMENTS : list N :=
  lit "No relevant documents found to answer the question.".

Definition REASONING_FALLBACK : list N :=
  lit "Retrieved context appears relevant based on semantic similarity.".

Definition NO_INFORMATION : list N :=
  lit "I couldn't find any relevant information in the uploaded documents to answer your question.".

(** [try: ... except Exception ...] *)
Definition try_except {A} (body : outcome A) (handler : exn -> outcome A)
  : outcome A :=
  match body with
  | Return a => Return a
  | Raise e => handler e
  end.

(** The trace entry [retrieve_node] writes. *)
Definition retrieve_notice (question : list N)
    (relevant_chunks chunks : list Hit) : BaseMessage :=
  if truthy relevant_chunks then
    HumanMessage
      (lit "Retrieved " ++ str_of_Z (len relevant_chunks) ++
       lit " relevant chunks (filtered from " ++ str_of_Z (len chunks) ++
       lit " total) for: " ++ question)
  else
    HumanMessage
      (lit "No relevant chunks found for: " ++ question ++
       lit ". All " ++ str_of_Z (len chunks) ++
       lit " retrieved chunks were below relevance threshold.").

(** [[c for c in chunks if c.get("distance", 999) < RELEVANCE_THRESHOLD]];
    every hit carries a distance. *)
Definition relevant (chunks : list Hit) : list Hit :=
  List.filter (fun c => PrimFloat.ltb (distance c) RELEVANCE_THRESHOLD) chunks.

Definition retrieve_node (P : Providers) (w : World) (state : AgentState)
  : outcome AgentState :=
  let chunks :=
    search_similar_chunks P w (question state) (k state) (user_email state) in
  let relevant_chunks := relevant chunks in
  Return
    (mkState (question state) relevant_chunks (reasoning state)
       (answer state)
       (messages state ++
          [retrieve_notice (question state) relevant_chunks chunks])
       (k state) (user_email state)).

Definition reasoning_prompt (question : list N) (chunks : list Hit)
  : list N :=
  let context_summary :=
    join NL
      (imap (fun i chunk =>
               lit "Chunk " ++ str_of_Z (Z.of_nat i + 1) ++ lit " (from "
               ++ filename chunk ++ lit "): "
               ++ slice (text chunk) 0 150 ++ lit "...")
            (slice chunks 0 3)) in
  lit "Analyze the following retrieved information to determine if it can answer the question."
  ++ NL ++ NL ++
  lit "Question: " ++ question ++ NL ++ NL ++
  lit "Retrieved Context:" ++ NL ++
  context_summary ++ NL ++ NL ++
  lit "Does this context contain relevant information to answer the question? Briefly explain.".

Definition reason_node (P : Providers) (state : AgentState)
  : outcome AgentState :=
  let chunks := retrieved_chunks state in
  if negb (truthy chunks) then
    Return
      (mkState (question state) chunks NO_DOCUMENTS (answer state)
         (messages state ++ [AIMessage NO_DOCUMENTS])
         (k state) (user_email state))
  else
    bind
      (try_except
         (LLM.generate P (reasoning_prompt (question state) chunks) None
            0.3%float 200)
         (fun _ => Return REASONING_FALLBACK))
      (fun reasoning =>
         Return
           (mkState (question state) chunks reasoning (answer state)
              (messages state ++ [AIMessage (lit "Reasoning: " ++ reasoning)])
              (k state) (user_email state))).

Definition enhanced_prompt (question reasoning : list N) : list N :=
  question ++ NL ++ NL ++ lit "Note: " ++ reasoning.

Definition answer_node (P : Providers) (state : AgentState)
  : outcome AgentState :=
  let chunks := retrieved_chunks state in
  if negb (truthy chunks) then
    Return
      (mkState (question state) chunks (reasoning state) NO_INFORMATION
         (messages state ++ [AIMessage NO_INFORMATION])
         (k state) (user_email state))
  else
    let context_texts := map text chunks in
    bind
      (try_except
         (LLM.generate P (enhanced_prompt (question state) (reasoning state))
            (Some context_texts) 0.7%float 512)
         (fun e => Return (lit "Error generating answer: " ++ str_of_exn e)))
      (fun answer =>
         Return
           (mkState (question state) chunks (reasoning state) answer
              (messages state ++ [AIMessage answer])
              (k state) (user_email state))).

(** The compiled graph. Every key of [AgentState] is a channel; a node
    is handed the channels' values and what it returns is written back
    key by key. [messages] is declared [Annotated[List[BaseMessage], add]]:
    a written value is added to the channel's value; the other keys
    keep the value written last. *)
Definition write_channels (channels update : AgentState) : AgentState :=
  mkState (question update) (retrieved_chunks update) (reasoning update)
    (answer update)
    (messages channels ++ messages update)
    (k update) (user_email update).

Definition run_node (node : AgentState -> outcome AgentState)
    (channels : AgentState) : outcome AgentState :=
  bind (node channels) (fun update => Return (write_channels channels update)).

Definition empty_channels : AgentState := mkState [] [] [] [] [] 0 None.

(** [agent_graph.ainvoke(initial_state)]: retrieve, reason, generate. *)
Definition ainvoke (P : Providers) (w : World) (initial_state : AgentState)
  : outcome AgentState :=
  let channels := write_channels empty_channels initial_state in
  bind (run_node (retrieve_node P w) channels) (fun channels =>
  bind (run_node (reason_node P) channels) (fun channels =>
  run_node (answer_node P) channels)).

Record AgentMessage := mkMessage {
  role : list N;
  content : list N
}.

Record AgentResponse := mkResponse {
  resp_question : list N;
  resp_answer : list N;
  resp_reasoning : list N;
  resp_sources : list Hit;
  resp_messages : list AgentMessage
}.

Definition message_dict (m : BaseMessage) : AgentMessage :=
  match m with
  | HumanMessage c => mkMessage (lit "human") c
  | AIMessage c => mkMessage (lit "ai") c
  end.

Definition run_agent (P : Providers) (w : World) (question : list N)
    (k : Z) (user_email : option (list N)) : outcome AgentResponse :=
  let initial_state := mkState question [] [] [] [] k user_email in
  bind (ainvoke P w initial_state) (fun final_state =>
  Return
    (mkResponse question (answer final_state) (reasoning final_state)
       (retrieved_chunks final_state)
       (map message_dict (messages final_state)))).

(** The three nodes applied one after the other to the same state,
    without the graph's channels in between. *)
Definition stages (P : Providers) (w : World) (state : AgentState)
  : outcome AgentState :=
  bind (retrieve_node P w state) (fun state =>
  bind (reason_node P state) (fun state =>
  answer_node P state)).

(** The three trace entries of a run in which nothing is relevant. *)
Definition no_context_trace (question : list N) (chunks : list Hit)
  : list BaseMessage :=
  [retrieve_notice question [] chunks;
   AIMessage NO_DOCUMENTS;
   AIMessage NO_INFORMATION].

End Agent.

(** ** Sample data used to instantiate the properties *)

Module Samples.
Import Py Exn VectorStore Providers Mongo Retrieval.

(** A window holding a paragraph break before a sentence end. *)
Definition two_markers : list N := lit "a" ++ NL ++ NL ++ lit "b. cdefgh".

(** A newline first, then text without any marker. *)
Definition newline_first : list N := NL ++ lit "xxxx".

(** A sentence, a run of 48 spaces closed by a newline, then 500
    characters without any marker. *)
Definition blank_run : list N :=
  lit "abc. " ++ repeat 32%N 48 ++ NL ++ repeat 121%N 500.

(** Two words separated by three newlines. *)
Definition blank_lines : list N := lit "ab" ++ NL ++ NL ++ NL ++ lit "cd".

(** A newline, one character, then text without any marker. *)
Definition skipped_start : list N := NL ++ lit "xxxxxxxxxx".

Definition three_sentences : list N := lit "A. B. C.".
Definition two_sentences : list N := lit "D. E.".

Definition alice : list N := lit "alice@example.com".
Definition bob : list N := lit "bob@example.com".

Definition note (oid : N) (owner : list N) (slot : Z) (t : list N)
  : ChunkRecord.t :=
  ChunkRecord.mk oid owner (lit "notes.txt") 0 slot t 0 (len t).

(** Slot 0 belongs to bob, slot 1 to alice; slot 2 has no record. *)
Definition library : World :=
  mkWorld
    (mkStore 1 [[0%float]; [1%float]; [2%float]] None)
    (mkDb [] [note 0 bob 0 (lit "bob's note");
              note 1 alice 1 (lit "alice's note")] 2).

Definition unreachable : list N -> float -> Z -> outcome (list N) :=
  fun _ _ _ => Raise (Exception (lit "connection refused")).

(** The index answers bob's slot first, then alice's, then the orphaned
    slot 2 and an absent entry. *)
Definition bob_nearest : Providers :=
  mkProviders (fun _ => [0%float]) 1
    (fun _ _ _ => ([0%float; 0.5%float; 0.75%float; 9%float], [0; 1; 2; -1]))
    unreachable.

(** The same answer with every distance at or above the threshold. *)
Definition all_far : Providers :=
  mkProviders (fun _ => [0%float]) 1
    (fun _ _ _ => ([2.5%float; 3%float], [0; 1]))
    unreachable.

Definition empty_world : World :=
  mkWorld (mkStore 1 [] None) (mkDb [] [] 0).

(** The result and the world of an ingestion that returned. *)
Definition ingested
    (o : option (outcome (Ingestion.IngestResult * World)))
  : Ingestion.IngestResult * World :=
  match o with
  | Some (Return x) => x
  | _ => (Ingestion.mkResult 0 [] 0 0 0, empty_world)
  end.

(** Alice's three-chunk document goes into the empty stores, then bob's
    two-chunk document. *)
Definition first_ingest : Ingestion.IngestResult * World :=
  ingested
    (Ingestion.ingest_document bob_nearest 10 empty_world (lit "d1.txt")
       three_sentences alice 4 0).

Definition second_ingest : Ingestion.IngestResult * World :=
  ingested
    (Ingestion.ingest_document bob_nearest 10 (snd first_ingest)
       (lit "d2.txt") two_sentences bob 4 0).

Definition alice_hit : Hit :=
  hit_of (note 1 alice 1 (lit "alice's note")) 0.5%float.

Definition bob_hit : Hit :=
  hit_of (note 0 bob 0 (lit "bob's note")) 0%float.

End Samples.

(** ** What the chunker's loop keeps without overlap *)

Module Sweep.
Import Py Chunking.

(** Everything before the cursor is in a chunk or is whitespace. *)
Definition swept (s : list N) (st : cursor) : Prop :=
  0 <= cur_start st /\
  forall p, 0 <= p < cur_start st -> covers (cur_chunks st) p \/ blank_at s p.

End Sweep.

(** ** [app/api/query.py]: the direct question-answering path *)

Module Query.
Import Py Exn Providers Retrieval.

(** [math.exp] and [round(x, 4)] belong to the Python runtime: they are
    taken as given. [math.exp] raises [OverflowError] on a large
    argument. *)
Record Numerics := mkNumerics {
  math_exp : float -> outcome float;
  round4 : float -> float
}.

(** The builtin [max(a, b)]: [b] when [b > a], else [a]. *)
Definition py_max (a b : float) : float :=
  if PrimFloat.ltb a b then b else a.

(** The builtin [min(a, b)]: [b] when [b < a], else [a]. *)
Definition py_min (a b : float) : float :=
  if PrimFloat.ltb b a then b else a.

(** [min(1.0, max(0.0, relevance_score))] *)
Definition clamp01 (x : float) : float := py_min 1%float (py_max 0%float x).

Record SourceChunk := mkSource {
  text : list N;
  filename : list N;
  document_id : N;
  chunk_index : Z;
  start_char : Z;
  end_char : Z;
  distance : float;
  relevance_score : float;
  citation : list N
}.

(** [f"[{rank}] {filename} (Chunk {chunk_index}, Chars {start}-{end})"] *)
Definition citation_of (rank : Z) (chunk : Hit) : list N :=
  lit "[" ++ str_of_Z rank ++ lit "] " ++ Retrieval.filename chunk ++
  lit " (Chunk " ++ str_of_Z (Retrieval.chunk_index chunk) ++
  lit ", Chars " ++ str_of_Z (Retrieval.start_char chunk) ++ lit "-" ++
  str_of_Z (Retrieval.end_char chunk) ++ lit ")".

(** [text[:200] + "..." if len(text) > 200 else text] *)
Definition display_text (t : list N) : list N :=
  if 200 <? len t then slice t 0 200 ++ lit "..." else t.

Definition build_citation (M : Numerics) (chunk : Hit) (rank : Z)
  : outcome SourceChunk :=
  bind (math_exp M
          (PrimFloat.div (PrimFloat.opp (Retrieval.distance chunk)) 10%float))
       (fun relevance_score =>
  let relevance_score := clamp01 relevance_score in
  let citation := citation_of rank chunk in
  let display_text := display_text (Retrieval.text chunk) in
  Return
    (mkSource display_text (Retrieval.filename chunk)
       (Retrieval.document_id chunk) (Retrieval.chunk_index chunk)
       (Retrieval.start_char chunk) (Retrieval.end_char chunk)
       (Retrieval.distance chunk) (round4 M relevance_score) citation)).

(** A list comprehension whose element expression may raise: the first
    exception ends it. *)
Fixpoint sequence {A} (l : list (outcome A)) : outcome (list A) :=
  match l with
  | [] => Return []
  | m :: rest =>
      bind m (fun x => bind (sequence rest) (fun xs => Return (x :: xs)))
  end.

Record QueryResponse := mkQuery {
  question : list N;
  answer : list N;
  sources : list SourceChunk
}.

Definition NOT_ABOUT (question : list N) : list N :=
  lit "I couldn't find relevant information about '" ++ question ++
  lit "' in your uploaded documents. Your documents appear to contain different topics. Please try asking about the actual content of your uploaded files.".

Definition LLM_UNAVAILABLE (e : exn) : exn :=
  HTTPException 503
    (lit "LLM service unavailable. Make sure Ollama is running. Error: " ++
     str_of_exn e).

(** [query_documents], for the authenticated user's email. *)
Definition query_documents (M : Numerics) (P : Providers) (w : World)
    (question : list N) (k : Z) (email : list N) : outcome QueryResponse :=
  let chunks := search_similar_chunks P w question k (Some email) in
  if negb (truthy chunks) then
    Return (mkQuery question Agent.NO_INFORMATION [])
  else
    let relevant_chunks := Agent.relevant chunks in
    if negb (truthy relevant_chunks) then
      Return (mkQuery question (NOT_ABOUT question) [])
    else
      let chunks := relevant_chunks in
      let context_texts := map Retrieval.text chunks in
      bind
        (Agent.try_except
           (LLM.generate P question (Some context_texts) 0.7%float 512)
           (fun e => Raise (LLM_UNAVAILABLE e)))
        (fun answer =>
      bind
        (sequence
           (imap (fun i chunk => build_citation M chunk (Z.of_nat i + 1))
                 chunks))
        (fun sources =>
      Return (mkQuery question answer sources))).

Record AgentQueryResponse := mkAgentQuery {
  aq_question : list N;
  aq_answer : list N;
  aq_reasoning : list N;
  aq_sources : list SourceChunk;
  aq_messages : list Agent.AgentMessage
}.

Definition AGENT_FAILED (e : exn) : exn :=
  HTTPException 500 (lit "Agent execution failed: " ++ str_of_exn e).

(** [query_documents_with_agent]: the whole body is under one
    [try ... except Exception]. *)
Definition query_documents_with_agent (M : Numerics) (P : Providers)
    (w : World) (question : list N) (k : Z) (email : list N)
  : outcome AgentQueryResponse :=
  Agent.try_except
    (bind (Agent.run_agent P w question k (Some email)) (fun result =>
     bind
       (sequence
          (imap (fun i chunk => build_citation M chunk (Z.of_nat i + 1))
                (Agent.resp_sources result)))
       (fun sources =>
     Return
       (mkAgentQuery (Agent.resp_question result) (Agent.resp_answer result)
          (Agent.resp_reasoning result) sources
          (Agent.resp_messages result)))))
    (fun e => Raise (AGENT_FAILED e)).

End Query.

(** ** [app/api/search.py] *)

Module Search.
Import Py Exn Providers Retrieval.

Record SearchResult := mkSearchResult {
  text : list N;
  filename : list N;
  document_id : N;
  chunk_index : Z;
  faiss_index : Z;
  start_char : Z;
  end_char : Z;
  distance : float;
  relevance_score : float;
  citation : list N
}.

Record SearchResponse := mkSearchResponse {
  query : list N;
  results : list SearchResult;
  total_results : Z
}.

(** The score and the citation are computed as in [query.py]; the text
    is handed on whole. *)
Definition build_search_result (M : Query.Numerics) (chunk : Hit) (rank : Z)
  : outcome SearchResult :=
  bind (Query.math_exp M
          (PrimFloat.div (PrimFloat.opp (Retrieval.distance chunk)) 10%float))
       (fun relevance_score =>
  let relevance_score := Query.clamp01 relevance_score in
  let citation := Query.citation_of rank chunk in
  Return
    (mkSearchResult (Retrieval.text chunk) (Retrieval.filename chunk)
       (Retrieval.document_id chunk) (Retrieval.chunk_index chunk)
       (Retrieval.faiss_index chunk)
       (Retrieval.start_char chunk) (Retrieval.end_char chunk)
       (Retrieval.distance chunk) (Query.round4 M relevance_score) citation)).

(** The body of [search], for the authenticated user's email. The
    framework has checked [1 <= k <= 20] before the body runs. *)
Definition search (M : Query.Numerics) (P : Providers) (w : World)
    (q : list N) (k : Z) (email : list N) : outcome SearchResponse :=
  let results := search_similar_chunks P w q k (Some email) in
  bind
    (Query.sequence
       (imap (fun i chunk => build_search_result M chunk (Z.of_nat i + 1))
             results))
    (fun enhanced_results =>
  Return (mkSearchResponse q enhanced_results (len results))).

End Search.

(** ** The relevance score of [query.py] and [search.py] *)

Module Score.
Import Py Exn Query.



End Score.

(** ** What the two stores keep between calls *)

Module Stores.
Import Py VectorStore Mongo.

(** Every chunk record points at a slot the index holds, and no two
    records share a slot. *)
Definition consistent (w : World) : Prop :=
  (forall c, c ∈ chunks (mongo w) ->
     0 <= ChunkRecord.faiss_index c < total_vectors (vector_store w)) /\
  NoDup (map ChunkRecord.faiss_index (chunks (mongo w))).

(** The next [ObjectId] is not in use. *)
Definition fresh_id (w : World) : Prop :=
  (forall d, d ∈ documents (mongo w) ->
     DocumentRecord._id d <> next_id (mongo w)) /\
  (forall c, c ∈ chunks (mongo w) ->
     ChunkRecord.document_id c <> next_id (mongo w)).

End Stores.

(** ** Further sample data *)

Module MoreSamples.
Import Py Exn VectorStore Providers Mongo Retrieval Samples.

(** Twelve characters. *)
Definition greeting : list N := lit "Hello world.".

(** Sixty-four characters without a blank tail. *)
Definition pangram : list N :=
  lit "The quick brown fox jumps over the lazy dog near the river bank.".

(** The greeting followed by fifty spaces. *)
Definition padded : list N := greeting ++ repeat 32%N 50.

(** Spaces and a newline only. *)
Definition blank_page : list N := lit "  " ++ NL ++ lit " ".

(** The library with its two records handed out in the other order. *)
Definition library_swapped : World :=
  mkWorld
    (mkStore 1 [[0%float]; [1%float]; [2%float]] None)
    (mkDb [] [note 1 alice 1 (lit "alice's note");
              note 0 bob 0 (lit "bob's note")] 2).

(** The index of [bob_nearest] with a generation server that answers. *)
Definition answering : Providers :=
  mkProviders (fun _ => [0%float]) 1
    (fun _ _ _ => ([0%float; 0.5%float; 0.75%float; 9%float], [0; 1; 2; -1]))
    (fun _ _ _ => Return (lit "It is a note.")).

(** An embedding model whose vectors have two components. *)
Definition wide : Providers :=
  mkProviders (fun _ => [0%float; 0%float]) 2
    (fun _ _ _ => ([], [])) unreachable.

(** An index that answers slot 0, then slot 3. *)
Definition mixed_nearest : Providers :=
  mkProviders (fun _ => [0%float]) 1
    (fun _ _ _ => ([0.25%float; 0.5%float], [0; 3]))
    unreachable.

(** [math.exp(-0.5 / 10.0)] and its rounding to four places. *)
Definition at_half : Query.Numerics :=
  Query.mkNumerics (fun _ => Return 0.951229424500714%float)
    (fun _ => 0.9512%float).

(** A runtime whose [math.exp] overflows. *)
Definition overflowing : Query.Numerics :=
  Query.mkNumerics (fun _ => Raise (Exception (lit "math range error")))
    (fun x => x).

Definition alice_source : Query.SourceChunk :=
  Query.mkSource (lit "alice's note") (lit "notes.txt") 1 0 0 12
    0.5%float 0.9512%float (lit "[1] notes.txt (Chunk 0, Chars 0-12)").

Definition alice_answer : Query.QueryResponse :=
  Query.mkQuery (lit "what?") (lit "It is a note.") [alice_source].




End MoreSamples.

(** * Properties *)

(** ** Facts about the string primitives *)

Module PyFacts.
Import Py.

Lemma len_nonneg {A} (l : list A) : 0 <= len l.
Proof. unfold len. lia. Qed.

Lemma starts_with_prefix sub s :
  starts_with sub s = true <-> sub `prefix_of` s.
Proof.
  revert s. induction sub as [|c sub IH]; intros s; simpl.
  - split; [intros _; apply prefix_nil | done].
  - destruct s as [|d s].
    + split; [done | intros H; by apply prefix_nil_not in H].
    + rewrite andb_true_iff, N.eqb_eq, IH. split.
      * intros [-> H]. by apply prefix_cons.
      * intros H. split; [by apply prefix_cons_inv_1 in H |
                          by apply prefix_cons_inv_2 in H].
Qed.

Lemma match_at_spec s sub i :
  match_at s sub i = true <->
  0 <= i /\ sub `prefix_of` drop (Z.to_nat i) s.
Proof.
  unfold match_at.
  rewrite andb_true_iff, Z.leb_le, starts_with_prefix. done.
Qed.

Lemma match_at_nonneg s sub i : match_at s sub i = true -> 0 <= i.
Proof. rewrite match_at_spec. tauto. Qed.

Lemma rfind_scan_none s sub lo n :
  rfind_scan s sub lo n = -1 ->
  forall i, lo <= i < lo + Z.of_nat n -> match_at s sub i = false.
Proof.
  induction n as [|m IH]; simpl; intros H i Hi; [lia|].
  destruct (match_at s sub (lo + Z.of_nat m)) eqn:E.
  - apply match_at_nonneg in E. lia.
  - destruct (decide (i = lo + Z.of_nat m)) as [->|Hne]; [done|].
    apply IH; [done | lia].
Qed.

Lemma rfind_scan_some s sub lo n p :
  rfind_scan s sub lo n = p -> p <> -1 ->
  lo <= p < lo + Z.of_nat n /\ match_at s sub p = true /\
  forall i, p < i < lo + Z.of_nat n -> match_at s sub i = false.
Proof.
  induction n as [|m IH]; simpl; intros H Hp; [lia|].
  destruct (match_at s sub (lo + Z.of_nat m)) eqn:E.
  - subst p. split; [lia|]. split; [done|]. intros i Hi. lia.
  - destruct (IH H Hp) as (Hr & Hm & Hlast).
    split; [lia|]. split; [done|]. intros i Hi.
    destruct (decide (i = lo + Z.of_nat m)) as [->|Hne]; [done|].
    apply Hlast. lia.
Qed.

Section Window.
Variables (s sub : list N) (start stop : Z).
Hypothesis Hstart : 0 <= start.
Hypothesis Hstop : 0 <= stop <= len s.

Lemma rfind_window :
  rfind s sub start stop =
  rfind_scan s sub start (Z.to_nat (stop - len sub - start + 1)).
Proof.
  unfold rfind.
  destruct (Z.ltb_spec (len s) stop); [lia|].
  destruct (Z.ltb_spec stop 0); [lia|].
  destruct (Z.ltb_spec start 0); [lia|]. done.
Qed.

Lemma rfind_absent :
  rfind s sub start stop = -1 -> absent s start stop sub.
Proof.
  rewrite rfind_window. intros H i Hi1 Hi2.
  eapply rfind_scan_none; [exact H|]. lia.
Qed.

Lemma rfind_found p :
  rfind s sub start stop = p -> p <> -1 ->
  last_occurrence s sub start stop p.
Proof.
  rewrite rfind_window. intros H Hp.
  destruct (rfind_scan_some _ _ _ _ _ H Hp) as (Hr & Hm & Hlast).
  split.
  - split; [lia|]. split; [lia | done].
  - intros i (Hi1 & Hi2 & Hi3).
    destruct (Z.le_gt_cases i p) as [|Hgt]; [done|].
    rewrite Hlast in Hi3; [done | lia].
Qed.

Lemma rfind_ge i :
  occurs_in s sub start stop i ->
  rfind s sub start stop <> -1 /\ i <= rfind s sub start stop.
Proof.
  intros Hocc.
  destruct (decide (rfind s sub start stop = -1)) as [E|E].
  - destruct Hocc as (H1 & H2 & H3).
    rewrite (rfind_absent E i H1 H2) in H3. done.
  - split; [done|].
    by apply (rfind_found _ eq_refl E).
Qed.
End Window.

(** A negative start far enough from the end leaves [rfind] an empty
    range: nothing is found. *)
Lemma rfind_negative_start s sub start stop :
  start < 0 -> 0 <= stop -> stop - start < len s ->
  rfind s sub start stop = -1.
Proof.
  intros H1 H2 H3. unfold rfind.
  destruct (Z.ltb_spec (len s) stop); [lia|].
  destruct (Z.ltb_spec stop 0); [lia|].
  destruct (Z.ltb_spec start 0); [|lia].
  pose proof (len_nonneg sub).
  replace (Z.to_nat _) with 0%nat by lia. done.
Qed.

Lemma slice_negative_start {A} (s : list A) start stop :
  start < 0 -> 0 <= stop -> stop - start < len s ->
  slice s start stop = [].
Proof.
  intros H1 H2 H3. unfold slice, adjust.
  destruct (Z.ltb_spec start 0); [|lia].
  destruct (Z.ltb_spec stop 0); [lia|].
  replace (Z.to_nat _) with 0%nat by lia. done.
Qed.

Lemma slice_in_range {A} (s : list A) a b :
  0 <= a -> a <= b -> b <= len s ->
  slice s a b = take (Z.to_nat (b - a)) (drop (Z.to_nat a) s).
Proof.
  intros H1 H2 H3. unfold slice, adjust.
  destruct (Z.ltb_spec a 0); [lia|].
  destruct (Z.ltb_spec b 0); [lia|].
  by rewrite !Z.min_l by lia.
Qed.

Lemma slice_all {A} (s : list A) : slice s 0 (len s) = s.
Proof.
  rewrite slice_in_range by (pose proof (len_nonneg s); lia).
  simpl. rewrite Z.sub_0_r. unfold len. rewrite Nat2Z.id.
  apply firstn_all.
Qed.

Lemma slice_lookup {A} (s : list A) a b p :
  0 <= a -> a <= b -> b <= len s -> a <= p < b ->
  slice s a b !! Z.to_nat (p - a) = s !! Z.to_nat p.
Proof.
  intros H1 H2 H3 H4. rewrite slice_in_range by done.
  rewrite lookup_take_lt by lia.
  rewrite lookup_drop. f_equal. lia.
Qed.

Lemma lstrip_nil l : lstrip l = [] <-> Forall (fun c => isspace c = true) l.
Proof.
  induction l as [|c l IH]; simpl; [done|].
  destruct (isspace c) eqn:E.
  - rewrite IH. split; [by constructor | by inversion 1].
  - split; [done|]. inversion 1; congruence.
Qed.

Lemma lstrip_head l c t : lstrip l = c :: t -> isspace c = false.
Proof.
  induction l as [|d l IH]; simpl; [done|].
  destruct (isspace d) eqn:E; [done|]. congruence.
Qed.

Lemma lstrip_blank_inv l :
  Forall (fun c => isspace c = true) (lstrip l) ->
  Forall (fun c => isspace c = true) l.
Proof.
  intros H. apply lstrip_nil.
  destruct (lstrip l) as [|c t] eqn:E; [done|].
  apply lstrip_head in E. inversion H; congruence.
Qed.

(** A segment trims to nothing exactly when it is all whitespace. *)
Lemma strip_nil l : strip l = [] <-> Forall (fun c => isspace c = true) l.
Proof.
  unfold strip, rstrip. split.
  - intros H. apply lstrip_blank_inv.
    apply (f_equal (@rev N)) in H. rewrite rev_involutive in H.
    simpl in H. apply lstrip_nil in H.
    apply Forall_rev in H. by rewrite rev_involutive in H.
  - intros H. apply lstrip_nil in H. rewrite H. done.
Qed.

Lemma truthy_false {A} (l : list A) : truthy l = false <-> l = [].
Proof. by destruct l. Qed.

Lemma truthy_true {A} (l : list A) : truthy l = true <-> l <> [].
Proof. by destruct l. Qed.

End PyFacts.


(** ** The cut point of one window *)

Module ChunkingFacts.
Import Py PyFacts Chunking.

Section Cut.
Variables (s : list N) (start stop : Z).
Hypothesis Hstart : 0 <= start.
Hypothesis Hstop : 0 <= stop <= len s.

Lemma boundary_cut_none bs :
  boundary_cut s start stop bs = None -> Forall (absent s start stop) bs.
Proof.
  induction bs as [|m bs IH]; simpl; intros H; [constructor|].
  destruct (Z.eqb_spec (rfind s m start stop) (-1)) as [E|E]; [|done].
  constructor; [by apply rfind_absent | by apply IH].
Qed.

Lemma boundary_cut_some bs e :
  boundary_cut s start stop bs = Some e ->
  exists pre m post p,
    bs = pre ++ m :: post /\ Forall (absent s start stop) pre /\
    last_occurrence s m start stop p /\ e = p + len m.
Proof.
  induction bs as [|m bs IH]; simpl; intros H; [done|].
  destruct (Z.eqb_spec (rfind s m start stop) (-1)) as [E|E].
  - destruct (IH H) as (pre & m' & post & p & -> & Hpre & Hp & ->).
    exists (m :: pre), m', post, p. split; [done|].
    split; [|done]. constructor; [by apply rfind_absent | done].
  - inversion H; subst e. exists [], m, bs, (rfind s m start stop).
    split; [done|]. split; [constructor|]. split; [|done].
    by apply rfind_found.
Qed.

Lemma boundary_cut_elem bs e :
  boundary_cut s start stop bs = Some e ->
  exists m p, m ∈ bs /\ occurs_in s m start stop p /\ e = p + len m.
Proof.
  intros H. destruct (boundary_cut_some _ _ H)
    as (pre & m & post & p & -> & _ & [Hp _] & ->).
  exists m, p. split; [|done].
  apply elem_of_app. right. apply elem_of_cons. by left.
Qed.

Lemma boundary_cut_upper bs e :
  boundary_cut s start stop bs = Some e -> e <= stop.
Proof.
  intros H. destruct (boundary_cut_elem _ _ H) as (m & p & _ & Hp & ->).
  destruct Hp as (_ & Hp & _). lia.
Qed.

Lemma boundary_cut_lower bs e :
  Forall (fun m => 1 <= len m <= 2) bs ->
  boundary_cut s start stop bs = Some e -> start + 1 <= e.
Proof.
  intros Hbs H. destruct (boundary_cut_elem _ _ H) as (m & p & Hm & Hp & ->).
  rewrite Forall_forall in Hbs. specialize (Hbs _ Hm).
  destruct Hp as (Hp & _). lia.
Qed.
End Cut.

(** Moving a window to the right never moves its marker cut to the left. *)
Lemma boundary_cut_mono s a b cs bs ea eb :
  0 <= a <= b -> 0 <= a + cs -> b + cs <= len s ->
  Forall (fun m => 1 <= len m <= 2) bs ->
  boundary_cut s a (a + cs) bs = Some ea ->
  boundary_cut s b (b + cs) bs = Some eb -> ea <= eb.
Proof.
  intros Hab Ha Hb Hbs. revert ea eb.
  induction bs as [|m bs IH]; simpl; intros ea eb Ea Eb; [done|].
  inversion Hbs as [|? ? Hm Hbs']; subst.
  assert (Hwa : 0 <= a + cs <= len s) by lia.
  assert (Hwb : 0 <= b + cs <= len s) by lia.
  assert (H0a : 0 <= a) by lia. assert (H0b : 0 <= b) by lia.
  destruct (Z.eqb_spec (rfind s m a (a + cs)) (-1)) as [Fa|Fa];
    destruct (Z.eqb_spec (rfind s m b (b + cs)) (-1)) as [Fb|Fb].
  - by apply IH.
  - pose proof (boundary_cut_upper s a (a + cs) H0a Hwa _ _ Ea) as Hup.
    inversion Eb; subst eb.
    destruct (rfind_found s m b (b + cs) H0b Hwb _ eq_refl Fb)
      as [(Hp1 & Hp2 & Hp3) _].
    destruct (Z.le_gt_cases (rfind s m b (b + cs) + len m) (a + cs))
      as [Hin|Hout]; [|lia].
    rewrite (rfind_absent s m a (a + cs) H0a Hwa Fa) in Hp3; [done|lia|lia].
  - pose proof (boundary_cut_lower s b (b + cs) H0b Hwb _ _ Hbs' Eb) as Hlo.
    inversion Ea; subst ea.
    destruct (rfind_found s m a (a + cs) H0a Hwa _ eq_refl Fa)
      as [(Hp1 & Hp2 & Hp3) _].
    destruct (Z.lt_ge_cases (rfind s m a (a + cs)) b) as [Hlt|Hge]; [lia|].
    rewrite (rfind_absent s m b (b + cs) H0b Hwb Fb) in Hp3; [done|lia|lia].
  - inversion Ea; inversion Eb; subst ea eb.
    destruct (rfind_found s m a (a + cs) H0a Hwa _ eq_refl Fa)
      as [(Hp1 & Hp2 & Hp3) _].
    destruct (rfind_found s m b (b + cs) H0b Hwb _ eq_refl Fb)
      as [(Hq1 & Hq2 & Hq3) Hlast].
    destruct (Z.lt_ge_cases (rfind s m a (a + cs)) b) as [Hlt|Hge]; [lia|].
    assert (rfind s m a (a + cs) <= rfind s m b (b + cs)); [|lia].
    apply Hlast. split; [lia|]. split; [lia|done].
Qed.

Lemma BOUNDARIES_len : Forall (fun m => 1 <= len m <= 2) BOUNDARIES.
Proof.
  unfold BOUNDARIES.
  repeat first [apply List.Forall_nil | apply List.Forall_cons; [vm_compute; split; discriminate|]].
Qed.

Lemma SPACE_len : len SPACE = 1.
Proof. reflexivity. Qed.

Lemma window_end_tail s a cs : len s <= a + cs -> window_end s a cs = len s.
Proof.
  intros H. unfold window_end.
  destruct (Z.ltb_spec (a + cs) (len s)); [lia|done].
Qed.

(** The three ways a window strictly before the end of the text is cut,
    read off the code. *)
Lemma window_end_cases s a cs :
  0 <= a -> 0 <= a + cs < len s ->
  (exists pre m post p,
      BOUNDARIES = pre ++ m :: post /\
      Forall (absent s a (a + cs)) pre /\
      last_occurrence s m a (a + cs) p /\
      window_end s a cs = p + len m)
  \/ (Forall (absent s a (a + cs)) BOUNDARIES /\
      exists p, last_occurrence s SPACE a (a + cs) p /\ a < p /\
                window_end s a cs = p + 1)
  \/ (Forall (absent s a (a + cs)) BOUNDARIES /\
      (forall i, occurs_in s SPACE a (a + cs) i -> i <= a) /\
      window_end s a cs = a + cs).
Proof.
  intros Ha Hw. unfold window_end.
  destruct (Z.ltb_spec (a + cs) (len s)); [|lia].
  assert (Hw' : 0 <= a + cs <= len s) by lia.
  destruct (boundary_cut s a (a + cs) BOUNDARIES) as [e|] eqn:E.
  - left. destruct (boundary_cut_some s a (a + cs) Ha Hw' _ _ E)
      as (pre & m & post & p & H1 & H2 & H3 & H4). by exists pre, m, post, p.
  - right. pose proof (boundary_cut_none s a (a + cs) Ha Hw' _ E) as Habs.
    destruct (Z.eqb_spec (rfind s SPACE a (a + cs)) (-1)) as [F|F]; simpl.
    + right. split; [done|]. split; [|done].
      intros i (H1 & H2 & H3).
      rewrite (rfind_absent s SPACE a (a + cs) Ha Hw' F) in H3; done.
    + pose proof (rfind_found s SPACE a (a + cs) Ha Hw' _ eq_refl F) as Hl.
      destruct (Z.ltb_spec a (rfind s SPACE a (a + cs))) as [G|G].
      * left. split; [done|]. by exists (rfind s SPACE a (a + cs)).
      * right. split; [done|]. split; [|done].
        intros i Hi. destruct Hl as [_ Hl]. specialize (Hl _ Hi). lia.
Qed.

Lemma window_end_le_stop s a cs :
  0 <= a -> 0 <= a + cs < len s -> window_end s a cs <= a + cs.
Proof.
  intros Ha Hw.
  destruct (window_end_cases s a cs Ha Hw)
    as [(pre & m & post & p & _ & _ & [(_ & Hp & _) _] & ->)
       |[(_ & p & [(_ & Hp & _) _] & _ & ->)|(_ & _ & ->)]].
  - lia.
  - rewrite SPACE_len in Hp. lia.
  - lia.
Qed.

Lemma window_end_le_len s a cs :
  0 <= a -> 0 < cs -> window_end s a cs <= len s.
Proof.
  intros Ha Hcs. destruct (Z.lt_ge_cases (a + cs) (len s)).
  - pose proof (window_end_le_stop s a cs). lia.
  - rewrite window_end_tail; lia.
Qed.

Lemma window_end_gt s a cs :
  0 <= a < len s -> 0 < cs -> a < window_end s a cs.
Proof.
  intros Ha Hcs. destruct (Z.lt_ge_cases (a + cs) (len s)) as [Hw|Hw].
  - destruct (window_end_cases s a cs)
      as [(pre & m & post & p & Hb & _ & [(Hp & _ & _) _] & ->)
         |[(_ & p & _ & Hp & ->)|(_ & _ & ->)]]; [lia|lia| |lia|lia].
    pose proof BOUNDARIES_len as Hl. rewrite Hb in Hl.
    apply Forall_app in Hl as [_ Hl]. inversion Hl; subst. lia.
  - rewrite window_end_tail; lia.
Qed.

(** A later window never ends before an earlier one. *)
Lemma window_end_mono s cs a b :
  0 < cs -> 0 <= a -> a <= b -> window_end s a cs <= window_end s b cs.
Proof.
  intros Hcs Ha Hab.
  destruct (Z.lt_ge_cases (b + cs) (len s)) as [Hb|Hb].
  2: { rewrite (window_end_tail s b) by lia. apply window_end_le_len; lia. }
  assert (Hwa : 0 <= a + cs <= len s) by lia.
  assert (Hwb : 0 <= b + cs <= len s) by lia.
  assert (H0b : 0 <= b) by lia.
  pose proof (window_end_le_stop s a cs Ha ltac:(lia)) as Hupa.
  unfold window_end in *.
  destruct (Z.ltb_spec (a + cs) (len s)); [|lia].
  destruct (Z.ltb_spec (b + cs) (len s)); [|lia].
  destruct (boundary_cut s a (a + cs) BOUNDARIES) as [ea|] eqn:Ea;
    destruct (boundary_cut s b (b + cs) BOUNDARIES) as [eb|] eqn:Eb.
  - apply (boundary_cut_mono s a b cs BOUNDARIES ea eb);
      [lia | lia | lia | apply BOUNDARIES_len | done | done].
  - (* a marker cuts the earlier window, none the later one *)
    destruct (boundary_cut_elem s a (a + cs) Ha Hwa _ _ Ea)
      as (m & p & Hm & (Hp1 & Hp2 & Hp3) & ->).
    pose proof (boundary_cut_none s b (b + cs) H0b Hwb _ Eb) as Habs.
    rewrite Forall_forall in Habs. specialize (Habs _ Hm).
    pose proof BOUNDARIES_len as Hl. rewrite Forall_forall in Hl.
    specialize (Hl _ Hm).
    assert (p < b).
    { destruct (Z.lt_ge_cases p b) as [|Hge]; [done|].
      rewrite Habs in Hp3; [done|lia|lia]. }
    destruct (Z.eqb_spec (rfind s SPACE b (b + cs)) (-1)); simpl; [lia|].
    destruct (Z.ltb_spec b (rfind s SPACE b (b + cs))); lia.
  - (* none cuts the earlier window, a marker the later one *)
    destruct (boundary_cut_elem s b (b + cs) H0b Hwb _ _ Eb)
      as (m & p & Hm & (Hp1 & Hp2 & Hp3) & ->).
    pose proof (boundary_cut_none s a (a + cs) Ha Hwa _ Ea) as Habs.
    rewrite Forall_forall in Habs. specialize (Habs _ Hm).
    destruct (Z.le_gt_cases (p + len m) (a + cs)) as [Hin|Hout]; [|lia].
    rewrite Habs in Hp3; [done|lia|lia].
  - (* both fall back to a space or to the raw boundary *)
    destruct (Z.eqb_spec (rfind s SPACE b (b + cs)) (-1)) as [Fb|Fb]; simpl.
    { lia. }
    destruct (Z.ltb_spec b (rfind s SPACE b (b + cs))) as [Gb|Gb]; [|lia].
    destruct (rfind_found s SPACE b (b + cs) H0b Hwb _ eq_refl Fb)
      as [(Hq1 & Hq2 & Hq3) Hlast].
    rewrite SPACE_len in Hq2.
    destruct (Z.le_gt_cases (rfind s SPACE b (b + cs) + 1) (a + cs))
      as [Hin|Hout].
    2: { lia. }
    assert (Hocc : occurs_in s SPACE a (a + cs) (rfind s SPACE b (b + cs))).
    { split; [lia|]. split; [rewrite SPACE_len; lia | done]. }
    destruct (rfind_ge s SPACE a (a + cs) Ha Hwa _ Hocc) as [Fa Hge].
    destruct (Z.eqb_spec (rfind s SPACE a (a + cs)) (-1)); [done|]. simpl.
    destruct (Z.ltb_spec a (rfind s SPACE a (a + cs))) as [Ga|Ga]; [|lia].
    destruct (rfind_found s SPACE a (a + cs) Ha Hwa _ eq_refl Fa)
      as [(Hr1 & Hr2 & Hr3) _].
    rewrite SPACE_len in Hr2.
    assert (rfind s SPACE a (a + cs) <= rfind s SPACE b (b + cs)); [|lia].
    apply Hlast. split; [lia|]. split; [rewrite SPACE_len; lia | done].
Qed.

(** ** The loop of [chunk_text] *)

Lemma dropped_blank s a b p :
  0 <= a -> a <= b -> b <= len s ->
  strip (slice s a b) = [] -> a <= p < b -> blank_at s p.
Proof.
  intros Ha Hab Hb Hstrip Hp. apply strip_nil in Hstrip.
  pose proof (slice_lookup s a b p Ha Hab Hb Hp) as Hl.
  destruct (s !! Z.to_nat p) as [c|] eqn:E.
  - exists c. split; [done|].
    rewrite Forall_lookup in Hstrip. by apply (Hstrip _ _ Hl).
  - apply lookup_ge_None in E. unfold len in Hb. lia.
Qed.

Lemma covers_app out c p : covers out p -> covers (out ++ [c]) p.
Proof.
  intros (c' & Hc' & Hp). exists c'. split; [|done].
  apply elem_of_app. by left.
Qed.

Lemma covers_last out c p :
  start_char c <= p < end_char c -> covers (out ++ [c]) p.
Proof.
  intros Hp. exists c. split; [|done].
  apply elem_of_app. right. by apply list_elem_of_singleton.
Qed.

Section Loop.
Variables (s : list N) (cs ov : Z).
Hypothesis Hcs : 0 < cs.
Hypothesis Hov : 0 <= ov < cs.
Hypothesis Hnonblank : strip s <> [].

(** A window that starts at a negative cursor is empty. *)
Lemma window_negative start :
  start < 0 -> 2 - cs <= start -> cs < len s ->
  window_end s start cs = start + cs /\ slice s start (start + cs) = [].
Proof.
  intros H1 H2 H3. split.
  - unfold window_end.
    destruct (Z.ltb_spec (start + cs) (len s)); [|lia].
    assert (Hb : forall bs, boundary_cut s start (start + cs) bs = None).
    { induction bs as [|m bs IH]; simpl; [done|].
      rewrite rfind_negative_start by lia. done. }
    rewrite Hb, rfind_negative_start by lia. done.
  - apply slice_negative_start; lia.
Qed.

Lemma last_is_max (out : list Chunk) cl c :
  (forall i j ci cj,
      out !! i = Some ci -> out !! j = Some cj -> (i < j)%nat ->
      start_char ci < start_char cj) ->
  last out = Some cl -> c ∈ out -> start_char c <= start_char cl.
Proof.
  intros Hsort Hl Hc. apply list_elem_of_lookup in Hc as [i Hi].
  rewrite last_lookup in Hl.
  pose proof (lookup_lt_Some _ _ _ Hi) as Hlen.
  destruct (decide (i = pred (length out))) as [->|Hne].
  - rewrite Hi in Hl. inversion Hl. lia.
  - pose proof (Hsort i (pred (length out)) c cl Hi Hl). lia.
Qed.

Lemma chunk_body_inv st :
  loop_inv s cs st -> cur_start st < len s ->
  loop_inv s cs (chunk_body s cs ov st).
Proof.
  destruct st as [start idx out]. unfold loop_inv. simpl.
  intros (Hidx & Hck & Hsort & Hlt & Hemp & Hcov) Hloop.
  unfold chunk_body. simpl.
  destruct (Z.lt_ge_cases start 0) as [Hneg|Hpos].
  { (* the cursor went negative: no chunk yet, and the window is empty *)
    destruct out as [|c0 out'].
    2: { assert (Hin : c0 ∈ c0 :: out') by apply list_elem_of_here.
         specialize (Hlt _ Hin). destruct (Hck 0%nat c0 eq_refl). lia. }
    destruct (Hemp eq_refl) as [?|[Hlen Hlow]]; [lia|].
    destruct (window_negative start Hneg Hlow Hlen) as [-> ->]. simpl.
    split; [done|]. split; [done|]. split; [intros i j ci cj H; done|].
    split; [intros c Hc; by apply elem_of_nil in Hc|].
    split; [intros _; right; lia | done]. }
  pose proof (window_end_gt s start cs ltac:(lia) Hcs) as Hgt.
  pose proof (window_end_le_len s start cs Hpos Hcs) as Hle.
  set (e := window_end s start cs) in *.
  destruct (strip (slice s start e)) as [|ch piece] eqn:Epiece; simpl.
  - (* the window trims to nothing and is dropped *)
    assert (Hns : forall c, c ∈ out ->
              start_char c <
              (if match last_item out with
                  | Some c' => e - ov <=? start_char c'
                  | None => false
                  end then e else e - ov)).
    { intros c Hc. unfold last_item.
      destruct (last out) as [cl|] eqn:El.
      - pose proof (last_is_max out cl c Hsort El Hc).
        specialize (Hlt _ Hc).
        destruct (Z.leb_spec (e - ov) (start_char cl)); lia.
      - apply last_None in El. subst out. by apply elem_of_nil in Hc. }
    split; [done|]. split; [done|]. split; [done|]. split; [done|]. split.
    + intros ->. simpl. right.
      assert (cs < len s).
      { destruct (Z.lt_ge_cases cs (len s)) as [|Hbig]; [done|].
        destruct (Hemp eq_refl) as [->|[? ?]]; [|lia].
        subst e. rewrite window_end_tail, slice_all in Epiece by lia. done. }
      lia.
    + intros c0 Hc0. destruct (Hcov c0 Hc0) as (F & HF1 & HF2 & HF3).
      exists (Z.max F e). split.
      { destruct (match last_item out with
                  | Some c' => e - ov <=? start_char c'
                  | None => false
                  end); lia. }
      split; [lia|]. intros p Hp.
      destruct (Z.lt_ge_cases p F) as [HpF|HpF]; [apply HF3; lia|].
      right. apply (dropped_blank s start e p); [lia|lia|lia|done|lia].
  - (* the window yields a chunk *)
    set (c := mkChunk (ch :: piece) idx start e).
    unfold last_item. rewrite last_snoc.
    assert (Hns : start <
              (if e - ov <=? start_char c then e else e - ov) /\
              (if e - ov <=? start_char c then e else e - ov) <= e).
    { simpl. destruct (Z.leb_spec (e - ov) start); lia. }
    set (ns := if e - ov <=? start_char c then e else e - ov) in *.
    destruct Hns as [Hns1 Hns2].
    split.
    { unfold len in *. rewrite length_app. simpl. lia. }
    split.
    { intros i c' Hi. apply lookup_app_Some in Hi as [Hi|[Hi1 Hi2]].
      - by apply Hck.
      - apply list_lookup_singleton_Some in Hi2 as [Hi2 <-]. simpl.
        split; [unfold len in Hidx; lia|]. split; [done|]. split; [done|].
        split; [done|]. split; [done|]. split; [by rewrite Epiece | done]. }
    split.
    { intros i j ci cj Hi Hj Hij.
      apply lookup_app_Some in Hj as [Hj|[Hj1 Hj2]].
      - apply lookup_app_Some in Hi as [Hi|[Hi1 Hi2]].
        + by apply (Hsort i j).
        + apply lookup_lt_Some in Hj. lia.
      - apply list_lookup_singleton_Some in Hj2 as [Hj2 <-]. simpl.
        apply lookup_app_Some in Hi as [Hi|[Hi1 Hi2]].
        + apply Hlt. by eapply list_elem_of_lookup_2.
        + apply list_lookup_singleton_Some in Hi2 as [Hi2 _]. lia. }
    split.
    { intros c' Hc'. apply elem_of_app in Hc' as [Hc'|Hc'].
      - specialize (Hlt _ Hc'). lia.
      - apply list_elem_of_singleton in Hc'. subst c'.
        change (start_char c) with start. lia. }
    split.
    { intros Hnil. by apply app_eq_nil in Hnil as [_ ?]. }
    intros c0 Hc0. destruct out as [|c1 out'].
    + simpl in Hc0. inversion Hc0; subst c0.
      exists e. split; [lia|]. split; [done|]. intros p Hp. left.
      apply covers_last. simpl. simpl in Hp. lia.
    + simpl in Hc0. inversion Hc0; subst c0.
      destruct (Hcov c1 eq_refl) as (F & HF1 & HF2 & HF3).
      exists (Z.max F e). split; [lia|]. split; [lia|]. intros p Hp.
      destruct (Z.lt_ge_cases p F) as [HpF|HpF].
      * destruct (HF3 p ltac:(lia)) as [Hc|Hb]; [left|by right].
        by apply (covers_app (c1 :: out')).
      * left. apply (covers_last (c1 :: out')). simpl. lia.
Qed.

Lemma chunk_loop_inv fuel : forall st out,
  loop_inv s cs st -> chunk_loop fuel s cs ov st = Some out ->
  exists st', loop_inv s cs st' /\ cur_chunks st' = out /\
              len s <= cur_start st'.
Proof.
  induction fuel as [|fuel IH]; intros st out Hinv; simpl;
    destruct (Z.ltb_spec (cur_start st) (len s)) as [Hlt|Hge]; intros H.
  - done.
  - inversion H. by exists st.
  - apply (IH _ _ (chunk_body_inv st Hinv Hlt) H).
  - inversion H. by exists st.
Qed.

Lemma loop_inv_init : loop_inv s cs (mkCursor 0 0 []).
Proof.
  unfold loop_inv. simpl. split; [done|]. split; [done|].
  split; [intros i j ci cj H; done|].
  split; [intros c Hc; by apply elem_of_nil in Hc|].
  split; [by left | done].
Qed.

Lemma loop_inv_exit st :
  loop_inv s cs st -> len s <= cur_start st -> chunks_wf s (cur_chunks st).
Proof.
  intros (Hidx & Hck & Hsort & Hlt & Hemp & Hcov) Hexit.
  split; [|split; [|split]].
  - intros c Hc. apply list_elem_of_lookup in Hc as [i Hi].
    destruct (Hck i c Hi) as (_ & H1 & H2 & H3 & _ & H4 & H5). done.
  - intros i c Hi. by destruct (Hck i c Hi).
  - intros i j ci cj Hi Hj Hij. split; [by apply (Hsort i j)|].
    destruct (Hck i ci Hi) as (_ & H1 & _ & _ & -> & _).
    destruct (Hck j cj Hj) as (_ & _ & _ & _ & -> & _).
    pose proof (Hsort i j ci cj Hi Hj Hij).
    apply window_end_mono; [done|done|lia].
  - intros c0 p Hc0 Hp. destruct (Hcov c0 Hc0) as (F & HF1 & HF2 & HF3).
    apply HF3. lia.
Qed.
End Loop.

Lemma chunks_wf_nil s : chunks_wf s [].
Proof.
  split; [intros c Hc; by apply elem_of_nil in Hc|].
  split; [done|]. split; [intros i j ci cj H; done | done].
Qed.

Lemma chunk_text_wf fuel s cs ov out :
  0 < cs -> 0 <= ov < cs ->
  chunk_text fuel s cs ov = Some out -> chunks_wf s out.
Proof.
  intros Hcs Hov. unfold chunk_text.
  destruct (truthy s) eqn:E1; simpl.
  2: { intros H. inversion H. apply chunks_wf_nil. }
  destruct (truthy (strip s)) eqn:E2; simpl.
  2: { intros H. inversion H. apply chunks_wf_nil. }
  apply truthy_true in E2. intros H.
  destruct (chunk_loop_inv s cs ov Hcs Hov E2 fuel _ _ (loop_inv_init s cs) H)
    as (st' & Hinv & <- & Hexit).
  by apply (loop_inv_exit s cs Hcs).
Qed.

(** A cursor that the loop body maps to itself, short of the end of the
    text, keeps the loop running whatever the fuel. *)
Lemma chunk_loop_stuck s cs ov st :
  cur_start st < len s -> chunk_body s cs ov st = st ->
  forall fuel, chunk_loop fuel s cs ov st = None.
Proof.
  intros Hlt Hfix fuel. induction fuel as [|fuel IH]; simpl;
    destruct (Z.ltb_spec (cur_start st) (len s)); try lia; [done|].
  by rewrite Hfix.
Qed.

Lemma chunk_loop_step fuel s cs ov st :
  cur_start st < len s ->
  chunk_loop (S fuel) s cs ov st =
  chunk_loop fuel s cs ov (chunk_body s cs ov st).
Proof.
  intros Hlt. simpl.
  by destruct (Z.ltb_spec (cur_start st) (len s)); [|lia].
Qed.

(** Without overlap the cursor moves to the end of each window, so the
    loop ends within [len s] iterations. *)
Lemma chunk_loop_ends_without_overlap s cs : forall fuel st,
  0 < cs -> 0 <= cur_start st -> len s - cur_start st <= Z.of_nat fuel ->
  exists out, chunk_loop fuel s cs 0 st = Some out.
Proof.
  induction fuel as [|fuel IH]; intros st Hcs Hpos Hfuel; simpl;
    destruct (Z.ltb_spec (cur_start st) (len s)) as [Hlt|Hge];
    try (by eexists); [lia|].
  pose proof (window_end_gt s (cur_start st) cs ltac:(lia) Hcs) as Hgt.
  apply IH; [done| |].
  - unfold chunk_body. simpl.
    destruct (match last_item _ with Some _ => _ | None => _ end); lia.
  - unfold chunk_body. simpl.
    destruct (match last_item _ with Some _ => _ | None => _ end); lia.
Qed.

Lemma chunk_text_ends_without_overlap s cs :
  0 < cs -> exists out, chunk_text (length s) s cs 0 = Some out.
Proof.
  intros Hcs. unfold chunk_text.
  destruct (negb (truthy s) || negb (truthy (strip s))); [by eexists|].
  apply chunk_loop_ends_without_overlap; [done | simpl; lia |].
  simpl. unfold len. lia.
Qed.

End ChunkingFacts.


(** ** Retrieval: joining the index's answer with the metadata *)

Module RetrievalFacts.
Import Py PyFacts Exn VectorStore Providers Mongo Ingestion Retrieval.

Lemma filter_snoc {A} (p : A -> bool) l x :
  List.filter p (l ++ [x]) =
  if p x then List.filter p l ++ [x] else List.filter p l.
Proof.
  rewrite List.filter_app. simpl. destruct (p x); [done|].
  by rewrite app_nil_r.
Qed.

Lemma filter_filter_and {A} (p q : A -> bool) l :
  List.filter p (List.filter q l) = List.filter (fun x => p x && q x) l.
Proof.
  induction l as [|x l IH]; simpl; [done|].
  destruct (q x); simpl.
  - rewrite andb_true_r. destruct (p x); simpl; by rewrite IH.
  - by rewrite andb_false_r.
Qed.

Lemma filter_ext_elem {A} (p q : A -> bool) l :
  (forall x, x ∈ l -> p x = q x) -> List.filter p l = List.filter q l.
Proof.
  intros H. apply List.filter_ext_in. intros x Hx. apply H.
  by apply list_elem_of_In.
Qed.

Lemma elem_of_filter_bool {A} (p : A -> bool) l x :
  x ∈ List.filter p l <-> x ∈ l /\ p x = true.
Proof. rewrite !list_elem_of_In. apply List.filter_In. Qed.

Lemma last_elem_of {A} (l : list A) x : last l = Some x -> x ∈ l.
Proof.
  rewrite last_lookup. apply list_elem_of_lookup_2.
Qed.

(** The dictionary holds, for every slot, the last chunk of that slot. *)
Lemma chunk_map_lookup chunks slot :
  chunk_map_of chunks !! slot =
  last (List.filter
          (fun c => bool_decide (ChunkRecord.faiss_index c = slot)) chunks).
Proof.
  unfold chunk_map_of.
  induction chunks as [|c chunks IH] using rev_ind; [done|].
  rewrite foldl_app, filter_snoc. simpl.
  destruct (decide (ChunkRecord.faiss_index c = slot)) as [E|E].
  - rewrite (bool_decide_eq_true_2 _ E), last_snoc, E.
    apply lookup_insert_eq.
  - rewrite (bool_decide_eq_false_2 _ E), lookup_insert_ne by done.
    apply IH.
Qed.

Lemma matches_owner idxs user_email c :
  matches
    match user_email with
    | Some (x :: u) => mkFilter idxs (Some (x :: u))
    | _ => mkFilter idxs None
    end c =
  bool_decide (ChunkRecord.faiss_index c ∈ idxs) && owner_passes user_email c.
Proof. unfold matches, owner_passes. by destruct user_email as [[|x u]|]. Qed.

(** For a slot that was asked for, the dictionary built from the
    lookup's answer holds what the slot resolves to. *)
Lemma chunk_map_resolve w idxs user_email slot :
  slot ∈ idxs ->
  chunk_map_of (get_chunks_by_faiss_indices w idxs user_email) !! slot =
  resolve w user_email slot.
Proof.
  intros Hin. rewrite chunk_map_lookup.
  unfold get_chunks_by_faiss_indices, find_chunks, resolve.
  rewrite filter_filter_and. f_equal. apply filter_ext_elem.
  intros c _. rewrite matches_owner.
  destruct (decide (ChunkRecord.faiss_index c = slot)) as [E|E].
  - rewrite (bool_decide_eq_true_2 _ E). simpl.
    rewrite bool_decide_eq_true_2; [done | by rewrite E].
  - by rewrite (bool_decide_eq_false_2 _ E).
Qed.

(** The two comprehensions of step 3 keep the same entries. *)
Lemma valid_pairs (indices : list Z) (distances : list float) :
  length indices = length distances ->
  combine (List.filter (fun idx => negb (idx =? -1)) indices)
    (map snd (List.filter (fun '(idx, _) => negb (idx =? -1))
                (combine indices distances))) =
  List.filter (fun '(idx, _) => negb (idx =? -1)) (combine indices distances).
Proof.
  revert distances.
  induction indices as [|i indices IH]; intros [|d distances] Hlen;
    simpl in *; try done.
  destruct (negb (i =? -1)); simpl; rewrite IH by lia; done.
Qed.

Lemma omap_filter_bool {A B} (f : A -> option B) (p : A -> bool) (l : list A) :
  omap f (List.filter p l) = omap (fun x => if p x then f x else None) l.
Proof.
  induction l as [|x l IH]; [done|].
  csimpl. destruct (p x); csimpl; by rewrite IH.
Qed.

Lemma omap_ext_elem {A B} (f g : A -> option B) (l : list A) :
  (forall x, x ∈ l -> f x = g x) -> omap f l = omap g l.
Proof.
  induction l as [|x l IH]; intros H; csimpl; [done|].
  rewrite (H x) by apply list_elem_of_here.
  rewrite IH; [done|]. intros y Hy. apply H. by apply list_elem_of_further.
Qed.

Lemma elem_of_combine_l {A B} (l : list A) (k : list B) x y :
  (x, y) ∈ combine l k -> x ∈ l.
Proof.
  rewrite !list_elem_of_In. apply List.in_combine_l.
Qed.

(** [search_similar_chunks] is the index's answer joined, in its order,
    with what each slot resolves to. *)
Lemma search_ranked P w query k user_email distances indices :
  search P (vector_store w) (embed_single P query) k = (distances, indices) ->
  length indices = length distances ->
  search_similar_chunks P w query k user_email =
  ranked_hits w user_email (combine indices distances).
Proof.
  intros Hs Hlen. unfold search_similar_chunks. rewrite Hs.
  pose proof (valid_pairs indices distances Hlen) as Hvp.
  set (valid := List.filter (fun idx => negb (idx =? -1)) indices) in *.
  rewrite Hvp.
  assert (Hgen :
    omap (fun '(idx, distance) =>
            match chunk_map_of
                    (get_chunks_by_faiss_indices w valid user_email) !! idx
            with
            | Some chunk => Some (hit_of chunk distance)
            | None => None
            end)
         (List.filter (fun '(idx, _) => negb (idx =? -1))
            (combine indices distances)) =
    ranked_hits w user_email (combine indices distances)).
  { rewrite omap_filter_bool. unfold ranked_hits.
    apply omap_ext_elem. intros [slot d] Hin.
    destruct (Z.eqb_spec slot (-1)) as [E|E]; simpl; [done|].
    rewrite chunk_map_resolve; [done|].
    apply elem_of_filter_bool. split.
    - by apply elem_of_combine_l in Hin.
    - by destruct (Z.eqb_spec slot (-1)). }
  destruct valid as [|i valid'] eqn:Ev; simpl negb; cbv iota.
  - rewrite <- Hgen, <- Hvp. done.
  - done.
Qed.

(** In the other direction: what the answer's entries become. *)
Lemma ranked_hits_keys w user_email answer :
  map (fun h => (faiss_index h, distance h)) (ranked_hits w user_email answer)
  = List.filter
      (fun '(slot, _) =>
         negb (slot =? -1) &&
         match resolve w user_email slot with Some _ => true | None => false end)
      answer.
Proof.
  unfold ranked_hits.
  induction answer as [|[slot d] answer IH]; [done|]. csimpl.
  destruct (Z.eqb_spec slot (-1)) as [E|E]; csimpl; [done|].
  destruct (resolve w user_email slot) as [c|] eqn:Er; csimpl; [|done].
  rewrite IH. f_equal. f_equal.
  apply last_elem_of, elem_of_filter_bool in Er as [_ Hc].
  apply andb_true_iff in Hc as [Hc _]. by apply bool_decide_eq_true_1 in Hc.
Qed.

(** Every hit comes from a stored record that passed the owner filter. *)
Lemma hit_origin P w query k user_email h :
  h ∈ search_similar_chunks P w query k user_email ->
  exists c, c ∈ chunks (mongo w) /\ owner_passes user_email c = true /\
            h = hit_of c (distance h).
Proof.
  unfold search_similar_chunks.
  destruct (search P (vector_store w) (embed_single P query) k)
    as [distances indices].
  set (valid := List.filter (fun idx => negb (idx =? -1)) indices).
  destruct (negb (truthy valid)).
  { intros H. by apply elem_of_nil in H. }
  intros H. apply list_elem_of_omap in H as ([slot d] & _ & Hf).
  rewrite chunk_map_lookup in Hf.
  destruct (last _) as [c|] eqn:El; [|done].
  inversion Hf; subst h. exists c.
  apply last_elem_of, elem_of_filter_bool in El as [Hc _].
  unfold get_chunks_by_faiss_indices, find_chunks in Hc.
  apply elem_of_filter_bool in Hc as [Hc Hm].
  rewrite matches_owner in Hm. apply andb_true_iff in Hm as [_ Hm].
  done.
Qed.

End RetrievalFacts.


(** ** Ingestion and deletion *)

Module IngestionFacts.
Import Py PyFacts Exn VectorStore Providers Mongo Ingestion Documents.
Import RetrievalFacts.

(** What a successful ingestion did to the two stores. *)
Lemma ingest_success P fuel w filename content user_email cs ov r w' :
  ingest_document P fuel w filename content user_email cs ov
  = Some (Return (r, w')) ->
  exists cks,
    chunk_document fuel content cs ov = Some cks /\ cks <> [] /\
    r = mkResult (next_id (mongo w)) filename (len cks)
          (total_vectors (vector_store w))
          (total_vectors (vector_store w) + len cks) /\
    index (vector_store w') =
      index (vector_store w) ++ map (encode P) (map Chunking.text cks) /\
    on_disk (vector_store w') = Some (index (vector_store w')) /\
    documents (mongo w') =
      documents (mongo w) ++
      [DocumentRecord.mk (next_id (mongo w)) filename user_email
         (len content) (len cks) (total_vectors (vector_store w))
         (total_vectors (vector_store w) + len cks)] /\
    chunks (mongo w') =
      chunks (mongo w) ++
      chunk_records (next_id (mongo w)) user_email filename
        (total_vectors (vector_store w)) cks /\
    next_id (mongo w') = N.succ (next_id (mongo w)).
Proof.
  unfold ingest_document.
  destruct (chunk_document fuel content cs ov) as [cks|]; [|done].
  destruct cks as [|c cks]; simpl; [done|].
  unfold add_vectors.
  destruct (negb _); simpl; [done|].
  intros H. inversion H; subst. exists (c :: cks). simpl.
  repeat split; done.
Qed.

Lemma chunk_records_lookup oid u f start chunks i c :
  chunks !! i = Some c ->
  chunk_records oid u f start chunks !! i =
  Some (ChunkRecord.mk oid u f (Chunking.chunk_index c)
          (start + Z.of_nat i) (Chunking.text c)
          (Chunking.start_char c) (Chunking.end_char c)).
Proof.
  intros H. unfold chunk_records. by rewrite list_lookup_imap, H.
Qed.

Lemma chunk_records_length oid u f start chunks :
  length (chunk_records oid u f start chunks) = length chunks.
Proof. unfold chunk_records. apply length_imap. Qed.

Lemma chunk_records_elem oid u f start chunks c :
  c ∈ chunk_records oid u f start chunks ->
  ChunkRecord.document_id c = oid /\ ChunkRecord.user_email c = u /\
  start <= ChunkRecord.faiss_index c < start + len chunks.
Proof.
  intros H. apply list_elem_of_lookup in H as [i Hi].
  pose proof (lookup_lt_Some _ _ _ Hi) as Hlt.
  rewrite chunk_records_length in Hlt.
  destruct (lookup_lt_is_Some_2 chunks i Hlt) as [ck Hck].
  rewrite (chunk_records_lookup _ _ _ _ _ _ _ Hck) in Hi.
  inversion Hi; subst c. simpl. unfold len.
  split; [done|]. split; [done|]. lia.
Qed.

Lemma filter_none {A} (p : A -> bool) l :
  (forall x, x ∈ l -> p x = false) -> List.filter p l = [].
Proof.
  induction l as [|x l IH]; intros H; simpl; [done|].
  rewrite (H x) by apply list_elem_of_here.
  apply IH. intros y Hy. apply H. by apply list_elem_of_further.
Qed.

Lemma filter_all {A} (p : A -> bool) l :
  (forall x, x ∈ l -> p x = true) -> List.filter p l = l.
Proof.
  induction l as [|x l IH]; intros H; simpl; [done|].
  rewrite (H x) by apply list_elem_of_here.
  f_equal. apply IH. intros y Hy. apply H. by apply list_elem_of_further.
Qed.

(** Deleting a document the caller owns removes its chunk records and
    leaves the vector store alone. *)
Lemma delete_document_found w oid u doc :
  doc ∈ documents (mongo w) ->
  DocumentRecord._id doc = oid -> DocumentRecord.user_email doc = u ->
  delete_document w oid u =
  Return (mkDeleted oid
            (len (chunks (mongo w)) - len (delete_many oid (chunks (mongo w)))),
          mkWorld (vector_store w)
            (mkDb (delete_one oid (documents (mongo w)))
               (delete_many oid (chunks (mongo w)))
               (next_id (mongo w)))).
Proof.
  intros Hin Hid Hu. unfold delete_document.
  destruct (List.filter _ (documents (mongo w))) as [|d ds] eqn:E; [|done].
  assert (Hd : doc ∈ @nil DocumentRecord.t); [|by apply elem_of_nil in Hd].
  rewrite <- E. apply elem_of_filter_bool. split; [done|].
  by rewrite !bool_decide_eq_true_2.
Qed.

Lemma lookup_map {A B} (f : A -> B) (l : list A) i :
  map f l !! i = f <$> (l !! i).
Proof.
  revert i. induction l as [|x l IH]; intros [|i]; simpl;
    first [done | apply IH].
Qed.

(** Slot alignment of one successful ingestion: chunk [i] has its
    vector at slot [start_slot + i] and its record, carrying that slot,
    at the [i]-th place after the records already stored. *)
Lemma ingest_alignment P fuel w filename content user_email cs ov r w' :
  ingest_document P fuel w filename content user_email cs ov
  = Some (Return (r, w')) ->
  exists cks,
    chunk_document fuel content cs ov = Some cks /\ 1 <= len cks /\
    (forall i c, cks !! i = Some c ->
       index (vector_store w')
         !! (Z.to_nat (total_vectors (vector_store w) + Z.of_nat i))
       = Some (encode P (Chunking.text c)) /\
       chunks (mongo w') !! (length (chunks (mongo w)) + i)%nat
       = Some (ChunkRecord.mk (Ingestion.document_id r) user_email filename
                 (Chunking.chunk_index c)
                 (total_vectors (vector_store w) + Z.of_nat i)
                 (Chunking.text c) (Chunking.start_char c)
                 (Chunking.end_char c))) /\
    length (chunks (mongo w')) = (length (chunks (mongo w)) + length cks)%nat /\
    total_vectors (vector_store w') =
      total_vectors (vector_store w) + len cks /\
    Ingestion.faiss_start_index r = total_vectors (vector_store w) /\
    Ingestion.faiss_end_index r = total_vectors (vector_store w) + len cks /\
    chunks_processed r = len cks.
Proof.
  intros H.
  destruct (ingest_success _ _ _ _ _ _ _ _ _ _ H)
    as (cks & Hc & Hne & -> & Hidx & _ & _ & Hchunks & _).
  exists cks. split; [done|]. split.
  { destruct cks; [done|]. unfold len. simpl. lia. }
  split.
  { intros i c Hi. split.
    - rewrite Hidx. unfold total_vectors, len.
      rewrite lookup_app_r by lia.
      replace (_ - _)%nat with i by lia.
      by rewrite !lookup_map, Hi.
    - rewrite Hchunks, lookup_app_r by lia.
      replace (_ - _)%nat with i by lia.
      by apply chunk_records_lookup. }
  split.
  { by rewrite Hchunks, length_app, chunk_records_length. }
  split.
  { unfold total_vectors, len. rewrite Hidx, length_app, !length_map. lia. }
  done.
Qed.

(** Two ingestions into empty stores, then the deletion of the first
    document. *)
Lemma two_ingests_then_delete P fuel1 fuel2 w0 f1 t1 u1 cs1 ov1
    f2 t2 u2 cs2 ov2 r1 w1 r2 w2 :
  index (vector_store w0) = [] ->
  documents (mongo w0) = [] -> chunks (mongo w0) = [] ->
  ingest_document P fuel1 w0 f1 t1 u1 cs1 ov1 = Some (Return (r1, w1)) ->
  chunks_processed r1 = 3 ->
  ingest_document P fuel2 w1 f2 t2 u2 cs2 ov2 = Some (Return (r2, w2)) ->
  chunks_processed r2 = 2 ->
  (Ingestion.faiss_start_index r1 = 0 /\ Ingestion.faiss_end_index r1 = 3) /\
  (Ingestion.faiss_start_index r2 = 3 /\ Ingestion.faiss_end_index r2 = 5) /\
  exists resp w3,
    delete_document w2 (Ingestion.document_id r1) u1 = Return (resp, w3) /\
    chunks_deleted resp = 3 /\
    vector_store w3 = vector_store w2 /\
    (forall c, c ∈ chunks (mongo w3) ->
       ChunkRecord.document_id c = Ingestion.document_id r2 /\
       3 <= ChunkRecord.faiss_index c < 5) /\
    (forall slot, 0 <= slot < 3 ->
       get_chunk_by_faiss_index w3 slot = None /\
       forall owner, Retrieval.resolve w3 owner slot = None) /\
    (forall P' query k owner h,
       h ∈ Retrieval.search_similar_chunks P' w3 query k owner ->
       3 <= Retrieval.faiss_index h < 5 /\
       Retrieval.document_id h = Ingestion.document_id r2).
Proof.
  intros Hi0 Hd0 Hc0 H1 Hn1 H2 Hn2.
  destruct (ingest_success _ _ _ _ _ _ _ _ _ _ H1)
    as (cks1 & _ & _ & -> & Hidx1 & _ & Hdocs1 & Hchunks1 & Hid1).
  destruct (ingest_success _ _ _ _ _ _ _ _ _ _ H2)
    as (cks2 & _ & _ & -> & Hidx2 & _ & Hdocs2 & Hchunks2 & Hid2).
  simpl in Hn1, Hn2. simpl.
  assert (Ht0 : total_vectors (vector_store w0) = 0).
  { unfold total_vectors. by rewrite Hi0. }
  assert (Ht1 : total_vectors (vector_store w1) = 3).
  { unfold total_vectors, len. rewrite Hidx1, Hi0. simpl.
    rewrite !length_map. unfold len in Hn1. lia. }
  rewrite Ht0, Ht1, Hn1, Hn2 in *.
  rewrite Hd0 in Hdocs1. rewrite Hc0 in Hchunks1. simpl in Hdocs1, Hchunks1.
  rewrite Hdocs1 in Hdocs2. rewrite Hchunks1 in Hchunks2.
  set (oid1 := next_id (mongo w0)) in *.
  assert (Hne : next_id (mongo w1) <> oid1) by (rewrite Hid1; lia).
  set (oid2 := next_id (mongo w1)) in *.
  set (recs1 := chunk_records oid1 u1 f1 0 cks1) in *.
  set (recs2 := chunk_records oid2 u2 f2 3 cks2) in *.
  split; [done|]. split; [done|].
  assert (Hdel : delete_many oid1 (chunks (mongo w2)) = recs2).
  { rewrite Hchunks2. unfold delete_many. rewrite List.filter_app.
    rewrite filter_none, filter_all; [done| |].
    - intros c Hc. apply chunk_records_elem in Hc as (Hc & _).
      rewrite bool_decide_eq_false_2; [done | congruence].
    - intros c Hc. apply chunk_records_elem in Hc as (Hc & _).
      rewrite bool_decide_eq_true_2; done. }
  eexists _, _. split.
  { eapply (delete_document_found w2 oid1 u1); [| |].
    - rewrite Hdocs2. apply elem_of_cons. left. reflexivity.
    - done.
    - done. }
  simpl. rewrite Hdel.
  assert (Hrecs2 : forall c, c ∈ recs2 ->
            ChunkRecord.document_id c = oid2 /\
            3 <= ChunkRecord.faiss_index c < 5).
  { intros c Hc. apply chunk_records_elem in Hc as (Hc & _ & Hs).
    rewrite Hn2 in Hs. split; [done | lia]. }
  split.
  { rewrite Hchunks2. unfold len. rewrite length_app.
    unfold recs1 at 1. rewrite chunk_records_length. unfold len in Hn1. lia. }
  split; [done|]. split; [done|]. split.
  { intros slot Hslot. split.
    - unfold get_chunk_by_faiss_index. simpl. rewrite filter_none; [done|].
      intros c Hc. apply Hrecs2 in Hc as [_ Hc].
      rewrite bool_decide_eq_false_2; [done | lia].
    - intros owner. unfold Retrieval.resolve. simpl.
      rewrite filter_none; [done|].
      intros c Hc. apply Hrecs2 in Hc as [_ Hc].
      rewrite bool_decide_eq_false_2; [done | lia]. }
  intros P' query k owner h Hh.
  apply hit_origin in Hh as (c & Hc & _ & ->). simpl in Hc.
  apply Hrecs2 in Hc as [Hc1 Hc2]. simpl. done.
Qed.

End IngestionFacts.

(** ** The agent's stages *)

Module AgentFacts.
Import Py PyFacts Exn VectorStore Providers Retrieval LLM Agent.

Lemma SFleb_not_ltb x y : SFleb x y = true -> SFltb y x = false.
Proof.
  unfold SFleb, SFltb.
  destruct x as [sx|sx| |sx mx ex], y as [sy|sy| |sy my ey]; simpl;
    try destruct sx; try destruct sy; simpl; try done.
  all: change (Pos.compare_cont Eq mx my) with (Pos.compare mx my);
    change (Pos.compare_cont Eq my mx) with (Pos.compare my mx);
    rewrite (Z.compare_antisym ex ey), (Pos.compare_antisym mx my);
    destruct (ex ?= ey)%Z; simpl; try done;
    destruct (mx ?= my)%positive; simpl; done.
Qed.

(** A distance at or above the threshold is not below it. *)
Lemma leb_not_ltb (x y : float) :
  PrimFloat.leb x y = true -> PrimFloat.ltb y x = false.
Proof. rewrite leb_spec, ltb_spec. apply SFleb_not_ltb. Qed.

Lemma relevant_none chunks :
  (forall h, h ∈ chunks ->
             PrimFloat.leb RELEVANCE_THRESHOLD (distance h) = true) ->
  relevant chunks = [].
Proof.
  intros H. unfold relevant. apply IngestionFacts.filter_none.
  intros h Hh. apply leb_not_ltb. by apply H.
Qed.

(** The nodes applied in a row when nothing is relevant. *)
Lemma stages_no_context P w state :
  relevant (search_similar_chunks P w (question state) (k state)
              (user_email state)) = [] ->
  stages P w state =
  Return (mkState (question state) [] NO_DOCUMENTS NO_INFORMATION
            (messages state ++
             no_context_trace (question state)
               (search_similar_chunks P w (question state) (k state)
                  (user_email state)))
            (k state) (user_email state)).
Proof.
  intros H. unfold stages, retrieve_node. rewrite H. simpl.
  unfold answer_node, no_context_trace. simpl.
  by rewrite <- !app_assoc.
Qed.

(** The graph's run when nothing is relevant: the [add] channel repeats
    the entries the nodes hand back. *)
Lemma run_agent_no_context P w question k user_email :
  relevant (search_similar_chunks P w question k user_email) = [] ->
  let m1 :=
    retrieve_notice question []
      (search_similar_chunks P w question k user_email) in
  let m2 := AIMessage NO_DOCUMENTS in
  let m3 := AIMessage NO_INFORMATION in
  run_agent P w question k user_email =
  Return (mkResponse question NO_INFORMATION NO_DOCUMENTS []
            (map message_dict [m1; m1; m2; m1; m1; m2; m3])).
Proof.
  intros H. unfold run_agent, ainvoke, run_node, retrieve_node. simpl.
  rewrite H. done.
Qed.

(** The graph's run when something is relevant, whatever the generation
    server does. *)
Lemma run_agent_with_context P w question k user_email :
  relevant (search_similar_chunks P w question k user_email) <> [] ->
  let chunks := search_similar_chunks P w question k user_email in
  let reasoning :=
    match generate P (reasoning_prompt question (relevant chunks)) None
            0.3%float 200 with
    | Return t => t
    | Raise _ => REASONING_FALLBACK
    end in
  let answer :=
    match generate P (enhanced_prompt question reasoning)
            (Some (map text (relevant chunks))) 0.7%float 512 with
    | Return t => t
    | Raise e => lit "Error generating answer: " ++ str_of_exn e
    end in
  exists trace,
    run_agent P w question k user_email =
    Return (mkResponse question answer reasoning (relevant chunks) trace).
Proof.
  intros H chunks reasoning answer.
  unfold run_agent, ainvoke, run_node, retrieve_node. simpl.
  fold chunks. fold chunks in H.
  destruct (relevant chunks) as [|h hs] eqn:Er; [done|].
  unfold reason_node. simpl.
  subst reasoning answer.
  destruct (generate P (reasoning_prompt question (h :: hs)) None _ 200)
    as [t|e]; simpl.
  - unfold answer_node. simpl.
    destruct (generate P (enhanced_prompt question t) _ _ 512)
      as [t'|e']; simpl; eexists; reflexivity.
  - unfold answer_node. simpl.
    destruct (generate P (enhanced_prompt question REASONING_FALLBACK) _ _ 512)
      as [t'|e']; simpl; eexists; reflexivity.
Qed.

End AgentFacts.


(** ** The chunker on particular shapes of text *)

Module ChunkerShapes.
Import Py PyFacts Chunking ChunkingFacts Sweep.

Lemma slice_prefix {A} (l : list A) n :
  0 <= n -> slice l 0 n = take (Z.to_nat n) l.
Proof.
  intros Hn. unfold slice, adjust. simpl.
  destruct (Z.ltb_spec n 0); [lia|].
  pose proof (len_nonneg l) as Hl.
  rewrite (Z.min_l 0) by lia. simpl. rewrite Z.sub_0_r.
  destruct (Z.le_gt_cases n (len l)).
  - by rewrite Z.min_l by lia.
  - rewrite Z.min_r by lia. unfold len in *. rewrite Nat2Z.id. simpl.
    rewrite (take_ge l (Z.to_nat n)) by lia. apply firstn_all.
Qed.

Lemma blank_text_all_blank s p :
  strip s = [] -> 0 <= p < len s -> blank_at s p.
Proof.
  intros Hs Hp. apply (dropped_blank s 0 (len s) p); [lia|lia|lia| |lia].
  by rewrite slice_all.
Qed.

(** One iteration on a window that reaches the end of the text. *)
Lemma chunk_body_tail s cs ov st :
  len s <= cur_start st + cs ->
  chunk_body s cs ov st =
  let piece := strip (slice s (cur_start st) (len s)) in
  let chunks :=
    if truthy piece
    then cur_chunks st ++ [mkChunk piece (cur_index st) (cur_start st) (len s)]
    else cur_chunks st in
  mkCursor
    (if match last_item chunks with
        | Some c => len s - ov <=? start_char c
        | None => false
        end then len s else len s - ov)
    (if truthy piece then cur_index st + 1 else cur_index st)
    chunks.
Proof.
  intros H. unfold chunk_body. by rewrite window_end_tail.
Qed.

Section NoOverlap.
Variables (s : list N) (cs : Z).
Hypothesis Hcs : 0 < cs.

Lemma chunk_body_swept st :
  swept s st -> cur_start st < len s ->
  swept s (chunk_body s cs 0 st) /\
  cur_start st < cur_start (chunk_body s cs 0 st).
Proof.
  intros [Hpos Hcov] Hlt.
  pose proof (window_end_gt s (cur_start st) cs ltac:(lia) Hcs) as Hgt.
  pose proof (window_end_le_len s (cur_start st) cs Hpos Hcs) as Hle.
  unfold chunk_body, swept. simpl.
  set (e := window_end s (cur_start st) cs) in *.
  rewrite Z.sub_0_r.
  assert (Hcur : forall b : bool, (if b then e else e) = e) by (by intros []).
  rewrite Hcur. split; [|lia]. split; [lia|].
  intros p Hp.
  destruct (strip (slice s (cur_start st) e)) as [|ch piece] eqn:E; simpl.
  - destruct (Z.lt_ge_cases p (cur_start st)) as [Hp1|Hp1].
    + apply Hcov. lia.
    + right. apply (dropped_blank s (cur_start st) e p); [lia|lia|lia|done|lia].
  - destruct (Z.lt_ge_cases p (cur_start st)) as [Hp1|Hp1].
    + destruct (Hcov p ltac:(lia)) as [Hc|Hb]; [left | by right].
      by apply covers_app.
    + left. apply covers_last. simpl. lia.
Qed.

Lemma chunk_loop_swept : forall fuel st,
  swept s st -> len s - cur_start st <= Z.of_nat fuel ->
  exists out,
    chunk_loop fuel s cs 0 st = Some out /\
    forall p, 0 <= p < len s -> covers out p \/ blank_at s p.
Proof.
  induction fuel as [|fuel IH]; intros st Hsw Hfuel; simpl;
    destruct (Z.ltb_spec (cur_start st) (len s)) as [Hlt|Hge]; try lia.
  - exists (cur_chunks st). split; [done|].
    intros p Hp. apply Hsw. lia.
  - destruct (chunk_body_swept st Hsw Hlt) as [Hsw' Hadv].
    apply IH; [done | lia].
  - exists (cur_chunks st). split; [done|].
    intros p Hp. apply Hsw. lia.
Qed.

End NoOverlap.

(** With no overlap the chunker returns within [len(text)] iterations,
    and every character of the text is in a chunk or is whitespace. *)
Lemma chunk_text_no_overlap s cs :
  0 < cs ->
  exists out,
    chunk_text (length s) s cs 0 = Some out /\
    chunks_wf s out /\
    forall p, 0 <= p < len s -> covers out p \/ blank_at s p.
Proof.
  intros Hcs.
  assert (Hwf : forall out, chunk_text (length s) s cs 0 = Some out ->
                            chunks_wf s out).
  { intros out. apply chunk_text_wf; lia. }
  unfold chunk_text in *.
  destruct (truthy s) eqn:E1; simpl in *.
  2: { exists []. split; [done|]. split; [by apply Hwf|].
       apply truthy_false in E1. subst s. intros p Hp. simpl in Hp.
       unfold len in Hp. simpl in Hp. lia. }
  destruct (truthy (strip s)) eqn:E2; simpl in *.
  2: { exists []. split; [done|]. split; [by apply Hwf|].
       apply truthy_false in E2. intros p Hp. right.
       by apply blank_text_all_blank. }
  destruct (chunk_loop_swept s cs Hcs (length s) (mkCursor 0 0 []))
    as (out & Hout & Hcov).
  - split; [simpl; lia|]. intros p Hp. simpl in Hp. lia.
  - simpl. unfold len. lia.
  - exists out. split; [done|]. split; [by apply Hwf | done].
Qed.

Section OneWindow.
Variables (s : list N) (cs ov : Z).
Hypothesis Hnonblank : strip s <> [].
Hypothesis Hfits : len s <= cs.

Lemma nonblank_nonempty : 0 < len s.
Proof.
  destruct s as [|c t] eqn:E; [by destruct Hnonblank|].
  unfold len. simpl. lia.
Qed.

Lemma chunk_text_enter fuel :
  chunk_text fuel s cs ov = chunk_loop fuel s cs ov (mkCursor 0 0 []).
Proof.
  unfold chunk_text.
  assert (H1 : truthy s = true).
  { apply truthy_true. intros ->. by apply Hnonblank. }
  assert (H2 : truthy (strip s) = true) by (by apply truthy_true).
  by rewrite H1, H2.
Qed.

(** The first iteration keeps the whole text as chunk 0. *)
Lemma first_window :
  chunk_body s cs ov (mkCursor 0 0 []) =
  mkCursor (if len s - ov <=? 0 then len s else len s - ov) 1
    [mkChunk (strip s) 0 0 (len s)].
Proof.
  rewrite chunk_body_tail by (simpl; lia). simpl.
  rewrite slice_all. by destruct (strip s).
Qed.

(** A text that fits into one window and is no longer than the overlap
    gives one chunk. *)
Lemma single_chunk fuel :
  len s <= ov ->
  chunk_text (S fuel) s cs ov = Some [mkChunk (strip s) 0 0 (len s)].
Proof.
  intros Hov. pose proof nonblank_nonempty as Hlen.
  rewrite chunk_text_enter, chunk_loop_step by (simpl; lia).
  rewrite first_window.
  destruct (Z.leb_spec (len s - ov) 0); [|lia].
  destruct fuel; simpl; by destruct (Z.ltb_spec (len s) (len s)); [lia|].
Qed.

(** The second iteration looks at the last [ov] characters again. *)
Lemma second_window :
  0 < ov < len s ->
  chunk_body s cs ov (mkCursor (len s - ov) 1 [mkChunk (strip s) 0 0 (len s)]) =
  if truthy (strip (slice s (len s - ov) (len s))) then
    mkCursor (len s) 2
      [mkChunk (strip s) 0 0 (len s);
       mkChunk (strip (slice s (len s - ov) (len s))) 1 (len s - ov) (len s)]
  else
    mkCursor (len s - ov) 1 [mkChunk (strip s) 0 0 (len s)].
Proof.
  intros Hov. rewrite chunk_body_tail by (simpl; lia). simpl.
  destruct (strip (slice s (len s - ov) (len s))) as [|c t]; simpl.
  - by destruct (Z.leb_spec (len s - ov) 0); [lia|].
  - by destruct (Z.leb_spec (len s - ov) (len s - ov)); [|lia].
Qed.

(** A longer text that still fits into one window gives a second chunk
    that repeats its last [ov] characters, when these are not blank. *)
Lemma tail_chunk fuel :
  0 < ov < len s ->
  strip (slice s (len s - ov) (len s)) <> [] ->
  chunk_text (S (S fuel)) s cs ov =
  Some [mkChunk (strip s) 0 0 (len s);
        mkChunk (strip (slice s (len s - ov) (len s))) 1 (len s - ov) (len s)].
Proof.
  intros Hov Htail.
  rewrite chunk_text_enter, chunk_loop_step by (simpl; lia).
  rewrite first_window.
  destruct (Z.leb_spec (len s - ov) 0); [lia|].
  rewrite chunk_loop_step by (simpl; lia).
  rewrite second_window by done.
  apply truthy_true in Htail. rewrite Htail.
  destruct fuel; simpl; by destruct (Z.ltb_spec (len s) (len s)); [lia|].
Qed.

(** When the last [ov] characters are blank the loop never ends. *)
Lemma blank_tail_loops fuel :
  0 < ov < len s ->
  strip (slice s (len s - ov) (len s)) = [] ->
  chunk_text fuel s cs ov = None.
Proof.
  intros Hov Htail. rewrite chunk_text_enter.
  assert (Hstuck : forall f,
            chunk_loop f s cs ov
              (mkCursor (len s - ov) 1 [mkChunk (strip s) 0 0 (len s)]) = None).
  { apply chunk_loop_stuck; [simpl; lia|].
    rewrite second_window by done. by rewrite Htail. }
  destruct fuel as [|fuel].
  - simpl. by destruct (Z.ltb_spec 0 (len s)); [|lia].
  - rewrite chunk_loop_step by (simpl; lia).
    rewrite first_window.
    destruct (Z.leb_spec (len s - ov) 0); [lia|]. apply Hstuck.
Qed.

End OneWindow.

Lemma blank_text_no_chunks fuel s cs ov :
  Forall (fun c => isspace c = true) s -> chunk_text fuel s cs ov = Some [].
Proof.
  intros H. apply strip_nil in H. unfold chunk_text. rewrite H. simpl.
  by rewrite orb_true_r.
Qed.

Lemma rfind_end s sub start stop :
  rfind s sub start stop <> -1 ->
  rfind s sub start stop + len sub <= len s.
Proof.
  unfold rfind. intros H.
  pose proof (len_nonneg s) as Hs.
  set (stop' := if len s <? stop then len s
                else if stop <? 0 then Z.max (stop + len s) 0 else stop) in *.
  set (start' := if start <? 0 then Z.max (start + len s) 0 else start) in *.
  assert (Hstop : stop' <= len s).
  { unfold stop'. destruct (Z.ltb_spec (len s) stop); [lia|].
    destruct (Z.ltb_spec stop 0); lia. }
  destruct (rfind_scan_some s sub start' _ _ eq_refl H) as ([Hlo Hp] & _).
  lia.
Qed.

Lemma boundary_cut_end s start stop bs e :
  boundary_cut s start stop bs = Some e -> e <= len s.
Proof.
  induction bs as [|m bs IH]; simpl; [done|].
  destruct (Z.eqb_spec (rfind s m start stop) (-1)) as [E|E]; [done|].
  intros [= <-]. by apply rfind_end.
Qed.

(** The end of a window never lies beyond the text, wherever the
    window starts. *)
Lemma window_end_bound s a cs : window_end s a cs <= len s.
Proof.
  unfold window_end.
  destruct (Z.ltb_spec (a + cs) (len s)) as [H|H]; [|lia].
  destruct (boundary_cut s a (a + cs) BOUNDARIES) as [e|] eqn:E.
  - by apply boundary_cut_end in E.
  - destruct (Z.eqb_spec (rfind s SPACE a (a + cs)) (-1)) as [E1|E1];
      simpl; [lia|].
    destruct (Z.ltb_spec a (rfind s SPACE a (a + cs))); [|lia].
    pose proof (rfind_end s SPACE a (a + cs) E1) as Hr.
    rewrite SPACE_len in Hr. lia.
Qed.

(** With a positive overlap the loop cannot end before its first
    chunk. *)
Lemma chunk_loop_first_chunk s cs ov : forall fuel st out,
  0 < ov ->
  (cur_chunks st = [] -> cur_start st < len s) ->
  chunk_loop fuel s cs ov st = Some out -> out <> [].
Proof.
  induction fuel as [|fuel IH]; intros st out Hov Hst; simpl;
    destruct (Z.ltb_spec (cur_start st) (len s)) as [Hlt|Hge];
    try done.
  - intros [= <-] E. specialize (Hst E). lia.
  - apply IH; [done|]. unfold chunk_body. simpl.
    destruct (strip (slice s (cur_start st) (window_end s (cur_start st) cs)))
      as [|c piece]; simpl.
    + intros E. rewrite E. simpl.
      pose proof (window_end_bound s (cur_start st) cs). lia.
    + intros E. by apply app_eq_nil in E as [_ E].
  - intros [= <-] E. specialize (Hst E). lia.
Qed.

Lemma chunk_loop_swept_out s cs : forall fuel st out,
  0 < cs -> swept s st ->
  chunk_loop fuel s cs 0 st = Some out ->
  forall p, 0 <= p < len s -> covers out p \/ blank_at s p.
Proof.
  induction fuel as [|fuel IH]; intros st out Hcs Hsw; simpl;
    destruct (Z.ltb_spec (cur_start st) (len s)) as [Hlt|Hge];
    try done.
  - intros [= <-] p Hp. apply Hsw. lia.
  - apply IH; [done|]. by apply chunk_body_swept.
  - intros [= <-] p Hp. apply Hsw. lia.
Qed.

Lemma all_blank_strip s :
  (forall p, 0 <= p < len s -> blank_at s p) -> strip s = [].
Proof.
  intros H. apply strip_nil, Forall_lookup. intros i c Hi.
  destruct (H (Z.of_nat i)) as (c' & Hc' & Hb).
  - apply lookup_lt_Some in Hi. unfold len. lia.
  - rewrite Nat2Z.id in Hc'. congruence.
Qed.

(** A text that is not blank never gives an empty list of chunks. *)
Lemma nonblank_text_some_chunk fuel s cs ov out :
  0 < cs -> 0 <= ov -> strip s <> [] ->
  chunk_text fuel s cs ov = Some out -> out <> [].
Proof.
  intros Hcs Hov Hne. unfold chunk_text.
  assert (Hs : s <> []) by (by intros ->).
  apply truthy_true in Hne as Hne', Hs as Hs'. rewrite Hne', Hs'. simpl.
  assert (Hlen : 0 < len s).
  { destruct s; [done|]. unfold len. simpl. lia. }
  destruct (decide (ov = 0)) as [->|Hpos].
  - intros H ->. apply Hne, all_blank_strip. intros p Hp.
    assert (Hsw : swept s (mkCursor 0 0 [])).
    { split; simpl; [lia | intros; lia]. }
    destruct (chunk_loop_swept_out s cs fuel _ _ Hcs Hsw H p Hp)
      as [(c & Hc & _)|Hb]; [|done].
    by apply elem_of_nil in Hc.
  - apply chunk_loop_first_chunk; [lia | done].
Qed.

End ChunkerShapes.

(** ** The two stores across ingestion, lookup and deletion *)

Module StoreFacts.
Import Py PyFacts Exn VectorStore Providers Mongo Ingestion Documents Stores.
Import RetrievalFacts IngestionFacts.

Lemma map_fmap {A B} (f : A -> B) (l : list A) : map f l = f <$> l.
Proof. reflexivity. Qed.

Lemma elem_of_map {A B} (f : A -> B) (l : list A) y :
  y ∈ map f l <-> exists x, y = f x /\ x ∈ l.
Proof. rewrite map_fmap. apply list_elem_of_fmap. Qed.

Lemma NoDup_map_filter {A B} (f : A -> B) (p : A -> bool) (l : list A) :
  NoDup (map f l) -> NoDup (map f (List.filter p l)).
Proof.
  induction l as [|x l IH]; simpl; [done|].
  rewrite NoDup_cons. intros [Hx Hl].
  destruct (p x); simpl; [|by apply IH].
  apply NoDup_cons. split; [|by apply IH].
  intros Hin. apply Hx. apply elem_of_map in Hin as (y & Hy & Hin).
  apply elem_of_filter_bool in Hin as [Hin _].
  apply elem_of_map. by exists y.
Qed.

Lemma chunk_records_slots oid u f start cks :
  map ChunkRecord.faiss_index (chunk_records oid u f start cks) =
  map (fun i => start + Z.of_nat i) (seq 0 (length cks)).
Proof.
  apply list_eq. intros i. rewrite !lookup_map.
  destruct (cks !! i) as [c|] eqn:E.
  - rewrite (chunk_records_lookup _ _ _ _ _ _ _ E). simpl.
    rewrite lookup_seq_lt by (by eapply lookup_lt_Some). done.
  - rewrite (proj2 (lookup_ge_None _ _)).
    2: { rewrite chunk_records_length. by apply lookup_ge_None. }
    rewrite lookup_seq_ge by (by apply lookup_ge_None). done.
Qed.

Lemma chunk_records_NoDup oid u f start cks :
  NoDup (map ChunkRecord.faiss_index (chunk_records oid u f start cks)).
Proof.
  rewrite chunk_records_slots, map_fmap.
  apply NoDup_fmap_2; [|apply NoDup_seq].
  intros i j H. lia.
Qed.

(** [ingest_document] raises exactly when chunking gives no chunk or the
    embedding width differs from the index's; otherwise it returns. *)
Lemma ingest_outcome P fuel w filename content user_email cs ov cks :
  chunk_document fuel content cs ov = Some cks ->
  (cks = [] ->
   ingest_document P fuel w filename content user_email cs ov
   = Some (Raise (ValueError (lit "Document produced no chunks")))) /\
  (cks <> [] -> model_dimension P <> dimension (vector_store w) ->
   ingest_document P fuel w filename content user_email cs ov
   = Some (Raise (ValueError
                    (lit "Vector dimension " ++
                     str_of_Z (model_dimension P) ++
                     lit " doesn't match index dimension " ++
                     str_of_Z (dimension (vector_store w)))))) /\
  (cks <> [] -> model_dimension P = dimension (vector_store w) ->
   exists r w',
     ingest_document P fuel w filename content user_email cs ov
     = Some (Return (r, w'))).
Proof.
  intros Hc. unfold ingest_document. rewrite Hc.
  split; [by intros ->|].
  split; intros Hne Hdim; destruct cks as [|c cks]; try done; simpl;
    unfold add_vectors; simpl.
  - by destruct (Z.eqb_spec (model_dimension P) (dimension (vector_store w))).
  - destruct (Z.eqb_spec (model_dimension P) (dimension (vector_store w)));
      [|done].
    simpl. by eexists _, _.
Qed.

Lemma ingest_blank P fuel w filename content user_email cs ov :
  Forall (fun c => isspace c = true) content ->
  ingest_document P fuel w filename content user_email cs ov
  = Some (Raise (ValueError (lit "Document produced no chunks"))).
Proof.
  intros H.
  apply (ingest_outcome P fuel w filename content user_email cs ov []);
    [|done].
  by apply ChunkerShapes.blank_text_no_chunks.
Qed.

(** A successful ingestion only appends. *)
Lemma ingest_appends P fuel w filename content user_email cs ov r w' :
  ingest_document P fuel w filename content user_email cs ov
  = Some (Return (r, w')) ->
  index (vector_store w) `prefix_of` index (vector_store w') /\
  documents (mongo w) `prefix_of` documents (mongo w') /\
  chunks (mongo w) `prefix_of` chunks (mongo w') /\
  length (documents (mongo w')) = S (length (documents (mongo w))) /\
  on_disk (vector_store w') = Some (index (vector_store w')).
Proof.
  intros H.
  destruct (ingest_success _ _ _ _ _ _ _ _ _ _ H)
    as (cks & _ & _ & _ & Hidx & Hdisk & Hdocs & Hchunks & _).
  rewrite Hidx, Hdocs, Hchunks. rewrite Hidx in Hdisk.
  split; [by eexists|]. split; [by eexists|]. split; [by eexists|].
  split; [|done]. rewrite length_app. simpl. lia.
Qed.

Lemma ingest_total P fuel w filename content user_email cs ov r w' :
  ingest_document P fuel w filename content user_email cs ov
  = Some (Return (r, w')) ->
  total_vectors (vector_store w') =
  total_vectors (vector_store w) + chunks_processed r /\
  0 < chunks_processed r.
Proof.
  intros H.
  destruct (ingest_alignment _ _ _ _ _ _ _ _ _ _ H)
    as (cks & _ & Hpos & _ & _ & Htotal & _ & _ & Hproc).
  rewrite Hproc. split; [done | lia].
Qed.

Lemma ingest_keeps_consistent P fuel w filename content user_email cs ov r w' :
  consistent w ->
  ingest_document P fuel w filename content user_email cs ov
  = Some (Return (r, w')) ->
  consistent w'.
Proof.
  intros [Hrange Hnodup] H.
  destruct (ingest_total _ _ _ _ _ _ _ _ _ _ H) as [Htotal _].
  destruct (ingest_success _ _ _ _ _ _ _ _ _ _ H)
    as (cks & _ & _ & -> & _ & _ & _ & Hchunks & _).
  simpl in Htotal.
  assert (Hn : 0 <= len cks) by apply len_nonneg.
  assert (Ht : 0 <= total_vectors (vector_store w)) by apply len_nonneg.
  split.
  - intros c Hc'. rewrite Hchunks in Hc'.
    apply elem_of_app in Hc' as [Hold|Hnew].
    + specialize (Hrange _ Hold). lia.
    + apply chunk_records_elem in Hnew as (_ & _ & Hs). lia.
  - rewrite Hchunks, map_app. apply NoDup_app.
    split; [done|]. split; [|apply chunk_records_NoDup].
    intros x Hx Hx'.
    apply elem_of_map in Hx as (c & -> & Hc1).
    apply elem_of_map in Hx' as (c' & Heq & Hc2).
    specialize (Hrange _ Hc1).
    apply chunk_records_elem in Hc2 as (_ & _ & Hs). lia.
Qed.

(** What a deletion that returned did. *)
Lemma delete_document_inv w oid u resp w' :
  delete_document w oid u = Return (resp, w') ->
  (exists doc, doc ∈ documents (mongo w) /\ DocumentRecord._id doc = oid /\
               DocumentRecord.user_email doc = u) /\
  resp = mkDeleted oid
           (len (chunks (mongo w)) - len (delete_many oid (chunks (mongo w)))) /\
  w' = mkWorld (vector_store w)
         (mkDb (delete_one oid (documents (mongo w)))
            (delete_many oid (chunks (mongo w))) (next_id (mongo w))).
Proof.
  unfold delete_document.
  destruct (List.filter _ (documents (mongo w))) as [|d ds] eqn:E; [done|].
  intros H. inversion H; subst. split; [|done].
  exists d. assert (Hd : d ∈ d :: ds) by apply list_elem_of_here.
  rewrite <- E in Hd. apply elem_of_filter_bool in Hd as [Hd Hp].
  apply andb_true_iff in Hp as [Hp1 Hp2].
  apply bool_decide_eq_true_1 in Hp1, Hp2. done.
Qed.

Lemma delete_many_count oid cs :
  len cs - len (delete_many oid cs) =
  len (List.filter
         (fun c => bool_decide (ChunkRecord.document_id c = oid)) cs).
Proof.
  unfold delete_many, len.
  pose proof (List.filter_length
                (fun c => bool_decide (ChunkRecord.document_id c = oid)) cs).
  lia.
Qed.

Lemma delete_many_elem oid cs c :
  c ∈ delete_many oid cs <-> c ∈ cs /\ ChunkRecord.document_id c <> oid.
Proof.
  unfold delete_many. rewrite elem_of_filter_bool, negb_true_iff.
  by rewrite bool_decide_eq_false.
Qed.

Lemma delete_keeps_consistent w oid u resp w' :
  consistent w -> delete_document w oid u = Return (resp, w') ->
  consistent w'.
Proof.
  intros [Hrange Hnodup] H.
  apply delete_document_inv in H as (_ & _ & ->). split; simpl.
  - intros c Hc. apply delete_many_elem in Hc as [Hc _]. by apply Hrange.
  - by apply NoDup_map_filter.
Qed.

Lemma delete_not_owned w oid u :
  (forall doc, doc ∈ documents (mongo w) -> DocumentRecord._id doc = oid ->
               DocumentRecord.user_email doc <> u) ->
  delete_document w oid u =
  Raise (HTTPException 404
           (lit "Document not found or you don't have permission to delete it")).
Proof.
  intros H. unfold delete_document. rewrite filter_none; [done|].
  intros doc Hdoc.
  destruct (decide (DocumentRecord._id doc = oid)) as [E|E].
  - rewrite (bool_decide_eq_false_2 (DocumentRecord.user_email doc = u)).
    + apply andb_false_r.
    + by apply H.
  - by rewrite (bool_decide_eq_false_2 _ E).
Qed.

Lemma head_filter_first {A} (p : A -> bool) (l : list A) i x :
  l !! i = Some x -> p x = true ->
  (forall j y, (j < i)%nat -> l !! j = Some y -> p y = false) ->
  head (List.filter p l) = Some x.
Proof.
  revert i. induction l as [|a l IH]; intros [|i] Hi Hp Hbefore; try done.
  - simpl in Hi. inversion Hi; subst. simpl. by rewrite Hp.
  - simpl. rewrite (Hbefore 0%nat a) by (done || lia).
    apply (IH i); [done|done|].
    intros j y Hj Hy. apply (Hbefore (S j) y); [lia|done].
Qed.

(** Insert, then look up. *)
Lemma ingest_then_lookup P fuel w filename content user_email cs ov r w' :
  consistent w ->
  ingest_document P fuel w filename content user_email cs ov
  = Some (Return (r, w')) ->
  exists cks,
    chunk_document fuel content cs ov = Some cks /\
    (forall i c, cks !! i = Some c ->
       get_chunk_by_faiss_index w'
         (Ingestion.faiss_start_index r + Z.of_nat i)
       = Some (ChunkRecord.mk (Ingestion.document_id r) user_email filename
                 (Chunking.chunk_index c)
                 (Ingestion.faiss_start_index r + Z.of_nat i)
                 (Chunking.text c) (Chunking.start_char c)
                 (Chunking.end_char c))) /\
    (forall slot, slot < Ingestion.faiss_start_index r ->
       get_chunk_by_faiss_index w' slot = get_chunk_by_faiss_index w slot).
Proof.
  intros [Hrange _] H.
  destruct (ingest_success _ _ _ _ _ _ _ _ _ _ H)
    as (cks & Hc & _ & -> & _ & _ & _ & Hchunks & _).
  exists cks. split; [done|]. simpl.
  set (start := total_vectors (vector_store w)) in *.
  set (recs := chunk_records (next_id (mongo w)) user_email filename start cks)
    in *.
  unfold get_chunk_by_faiss_index. rewrite Hchunks.
  split.
  - intros i c Hi. rewrite List.filter_app.
    rewrite filter_none.
    2: { intros c' Hc'. specialize (Hrange _ Hc').
         rewrite bool_decide_eq_false_2; [done | lia]. }
    simpl. apply (head_filter_first _ recs i).
    + by apply chunk_records_lookup.
    + by rewrite bool_decide_eq_true_2.
    + intros j y Hj Hy.
      pose proof (lookup_lt_Some _ _ _ Hy) as Hlt.
      unfold recs in Hlt. rewrite chunk_records_length in Hlt.
      destruct (lookup_lt_is_Some_2 cks j Hlt) as [cj Hcj].
      unfold recs in Hy.
      rewrite (chunk_records_lookup _ _ _ _ _ _ _ Hcj) in Hy.
      inversion Hy; subst y. simpl.
      rewrite bool_decide_eq_false_2; [done | lia].
  - intros slot Hslot. rewrite List.filter_app, (filter_none _ recs).
    + by rewrite app_nil_r.
    + intros c Hc'. apply chunk_records_elem in Hc' as (_ & _ & Hs).
      rewrite bool_decide_eq_false_2; [done | lia].
Qed.

Lemma delete_one_fresh oid docs doc :
  (forall d, d ∈ docs -> DocumentRecord._id d <> oid) ->
  DocumentRecord._id doc = oid ->
  delete_one oid (docs ++ [doc]) = docs.
Proof.
  intros Hfresh Hid. induction docs as [|d docs IH]; simpl.
  - by rewrite bool_decide_eq_true_2.
  - rewrite bool_decide_eq_false_2 by (apply Hfresh; apply list_elem_of_here).
    f_equal. apply IH. intros d' Hd'. apply Hfresh.
    by apply list_elem_of_further.
Qed.

(** Ingest, then delete: the metadata is as before, the vectors stay. *)
Lemma ingest_then_delete P fuel w filename content user_email cs ov r w' :
  fresh_id w ->
  ingest_document P fuel w filename content user_email cs ov
  = Some (Return (r, w')) ->
  exists resp w'',
    delete_document w' (Ingestion.document_id r) user_email
    = Return (resp, w'') /\
    chunks_deleted resp = chunks_processed r /\
    documents (mongo w'') = documents (mongo w) /\
    chunks (mongo w'') = chunks (mongo w) /\
    vector_store w'' = vector_store w' /\
    total_vectors (vector_store w'') =
      total_vectors (vector_store w) + chunks_processed r.
Proof.
  intros [Hfd Hfc] H.
  destruct (ingest_alignment _ _ _ _ _ _ _ _ _ _ H)
    as (cks' & Hc' & _ & _ & _ & Htotal & _ & _ & Hproc).
  destruct (ingest_success _ _ _ _ _ _ _ _ _ _ H)
    as (cks & Hc & _ & -> & _ & _ & Hdocs & Hchunks & _).
  assert (cks' = cks) by congruence. subst cks'. simpl in *.
  set (oid := next_id (mongo w)) in *.
  set (start := total_vectors (vector_store w)) in *.
  set (recs := chunk_records oid user_email filename start cks) in *.
  assert (Hdel : delete_many oid (chunks (mongo w')) = chunks (mongo w)).
  { rewrite Hchunks. unfold delete_many. rewrite List.filter_app.
    rewrite filter_all, filter_none; [by rewrite app_nil_r| |].
    - intros c Hin. apply chunk_records_elem in Hin as (Hin & _).
      by rewrite bool_decide_eq_true_2.
    - intros c Hin. rewrite bool_decide_eq_false_2; [done|]. by apply Hfc. }
  eexists _, _. split.
  { eapply (delete_document_found w' oid user_email).
    - rewrite Hdocs. apply elem_of_app. right. apply list_elem_of_here.
    - done.
    - done. }
  simpl. rewrite Hdel, Hdocs, Hchunks.
  split.
  { unfold len. rewrite length_app. unfold recs.
    rewrite chunk_records_length. lia. }
  split; [by apply delete_one_fresh|]. done.
Qed.

(** The chunks of a deleted document are never returned again. *)
Lemma deleted_never_returned w oid u resp w' P query k owner h :
  delete_document w oid u = Return (resp, w') ->
  h ∈ Retrieval.search_similar_chunks P w' query k owner ->
  Retrieval.document_id h <> oid.
Proof.
  intros H Hh. apply delete_document_inv in H as (_ & _ & ->).
  apply hit_origin in Hh as (c & Hc & _ & ->). simpl in Hc.
  apply delete_many_elem in Hc as [_ Hc]. done.
Qed.

Lemma delete_one_length oid docs doc :
  doc ∈ docs -> DocumentRecord._id doc = oid ->
  S (length (delete_one oid docs)) = length docs.
Proof.
  intros Hin Hid. induction docs as [|d docs IH]; simpl.
  - by apply elem_of_nil in Hin.
  - destruct (decide (DocumentRecord._id d = oid)) as [E|E].
    + by rewrite (bool_decide_eq_true_2 _ E).
    + rewrite (bool_decide_eq_false_2 _ E). simpl. f_equal. apply IH.
      apply elem_of_cons in Hin as [->|Hin]; [done|done].
Qed.

Lemma consistent_no_chunks w : chunks (mongo w) = [] -> consistent w.
Proof.
  intros H. split; rewrite H.
  - intros c Hc. by apply elem_of_nil in Hc.
  - constructor.
Qed.

(** The complaint about no chunks is raised for blank content and for
    nothing else. *)
Lemma ingest_no_chunks_iff P fuel w filename content user_email cs ov :
  0 < cs -> 0 <= ov ->
  ingest_document P fuel w filename content user_email cs ov
  = Some (Raise (ValueError (lit "Document produced no chunks"))) <->
  Forall (fun c => isspace c = true) content.
Proof.
  intros Hcs Hov. split; [|apply ingest_blank].
  intros H. apply strip_nil.
  destruct (decide (strip content = [])) as [E|E]; [done|]. exfalso.
  unfold ingest_document, chunk_document in H.
  destruct (Chunking.chunk_text fuel content cs ov) as [cks|] eqn:Ec;
    [|done].
  pose proof (ChunkerShapes.nonblank_text_some_chunk
                fuel content cs ov cks Hcs Hov E Ec) as Hne.
  destruct cks as [|c cks]; [done|]. simpl in H.
  unfold add_vectors in H. simpl in H.
  destruct (negb (model_dimension P =? dimension (vector_store w)));
    simpl in H; [|done].
  injection H as H. discriminate H.
Qed.

(** A content that is not blank and an embedding of the wrong width:
    the index refuses the vectors. *)
Lemma ingest_wrong_dimension P fuel w filename content user_email cs ov cks :
  0 < cs -> 0 <= ov -> strip content <> [] ->
  chunk_document fuel content cs ov = Some cks ->
  model_dimension P <> dimension (vector_store w) ->
  ingest_document P fuel w filename content user_email cs ov
  = Some (Raise (ValueError
                   (lit "Vector dimension " ++
                    str_of_Z (model_dimension P) ++
                    lit " doesn't match index dimension " ++
                    str_of_Z (dimension (vector_store w))))).
Proof.
  intros Hcs Hov Hne Hc Hdim.
  destruct (ingest_outcome P fuel w filename content user_email cs ov cks Hc)
    as (_ & Hwrong & _).
  apply Hwrong; [|done].
  by apply (ChunkerShapes.nonblank_text_some_chunk fuel content cs ov).
Qed.

End StoreFacts.

(** ** Retrieval against the stored metadata *)

Module SearchFacts.
Import Py PyFacts Exn VectorStore Providers Mongo Ingestion Documents Stores.
Import Retrieval RetrievalFacts IngestionFacts StoreFacts.

Lemma omap_then_filter {A B} (f1 f2 : A -> option B) (g : B -> bool)
    (l : list A) :
  (forall x, x ∈ l ->
     f2 x = match f1 x with
            | Some y => if g y then Some y else None
            | None => None
            end) ->
  omap f2 l = List.filter g (omap f1 l).
Proof.
  induction l as [|x l IH]; intros H; [done|]. csimpl.
  rewrite (H x) by apply list_elem_of_here.
  rewrite IH by (intros y Hy; apply H; by apply list_elem_of_further).
  destruct (f1 x) as [y|]; [|done]. simpl. by destruct (g y).
Qed.

(** Two worlds with the same index whose slots resolve alike, up to a
    condition [g] on the record, give the same hits up to [g]. *)
Lemma search_by_resolve P w1 w2 query k u (g : ChunkRecord.t -> bool) :
  vector_store w2 = vector_store w1 ->
  (forall slot,
     resolve w2 u slot =
     match resolve w1 u slot with
     | Some c => if g c then Some c else None
     | None => None
     end) ->
  forall g' : Hit -> bool,
  (forall c d, g' (hit_of c d) = g c) ->
  search_similar_chunks P w2 query k u =
  List.filter g' (search_similar_chunks P w1 query k u).
Proof.
  intros Hvs Hres g' Hg. unfold search_similar_chunks. rewrite Hvs.
  destruct (search P (vector_store w1) (embed_single P query) k)
    as [distances indices].
  set (valid := List.filter (fun idx => negb (idx =? -1)) indices).
  destruct (negb (truthy valid)); [done|].
  apply omap_then_filter. intros [slot d] Hin.
  apply elem_of_combine_l in Hin.
  rewrite !chunk_map_resolve by done. rewrite Hres.
  destruct (resolve w1 u slot) as [c|]; [|done].
  rewrite Hg. by destruct (g c).
Qed.

Lemma filter_Permutation_bool {A} (p : A -> bool) (l1 l2 : list A) :
  l1 ≡ₚ l2 -> List.filter p l1 ≡ₚ List.filter p l2.
Proof.
  induction 1 as [|x l1 l2 _ IH|x y l|l1 l2 l3 _ IH1 _ IH2]; simpl.
  - done.
  - destruct (p x); [by constructor | done].
  - destruct (p x), (p y); try done. apply perm_swap.
  - by etrans.
Qed.

(** With one record per slot, at most one record answers a slot. *)
Lemma one_per_slot (p : ChunkRecord.t -> bool) slot cs :
  NoDup (map ChunkRecord.faiss_index cs) ->
  (forall c, p c = true -> ChunkRecord.faiss_index c = slot) ->
  (length (List.filter p cs) <= 1)%nat.
Proof.
  intros Hnd Hp. induction cs as [|c cs IH]; simpl; [lia|].
  simpl in Hnd. apply NoDup_cons in Hnd as [Hc Hnd].
  destruct (p c) eqn:E; [|by apply IH].
  rewrite filter_none; [simpl; lia|].
  intros c' Hc'. destruct (p c') eqn:E'; [|done].
  exfalso. apply Hc. apply elem_of_map. exists c'.
  split; [|done]. by rewrite (Hp _ E), (Hp _ E').
Qed.

Lemma short_Permutation {A} (l1 l2 : list A) :
  (length l1 <= 1)%nat -> l1 ≡ₚ l2 -> l1 = l2.
Proof.
  intros Hlen Hp. destruct l1 as [|x [|y l1]]; simpl in Hlen; [| |lia].
  - by apply Permutation_nil_l.
  - by apply Permutation_singleton_l.
Qed.

Lemma resolve_slot u slot c :
  bool_decide (ChunkRecord.faiss_index c = slot) && owner_passes u c = true ->
  ChunkRecord.faiss_index c = slot.
Proof.
  intros H. apply andb_true_iff in H as [H _].
  by apply bool_decide_eq_true_1 in H.
Qed.

Lemma resolve_Permutation w1 w2 u slot :
  NoDup (map ChunkRecord.faiss_index (chunks (mongo w1))) ->
  chunks (mongo w1) ≡ₚ chunks (mongo w2) ->
  resolve w2 u slot = resolve w1 u slot.
Proof.
  intros Hnd Hp. unfold resolve. f_equal. symmetry.
  apply short_Permutation.
  - apply (one_per_slot _ slot); [done | apply resolve_slot].
  - by apply filter_Permutation_bool.
Qed.

(** The order in which the collection hands out the records does not
    matter once no two records share a slot. *)
Lemma search_Permutation P w1 w2 query k u :
  NoDup (map ChunkRecord.faiss_index (chunks (mongo w1))) ->
  vector_store w2 = vector_store w1 ->
  chunks (mongo w1) ≡ₚ chunks (mongo w2) ->
  search_similar_chunks P w2 query k u = search_similar_chunks P w1 query k u.
Proof.
  intros Hnd Hvs Hp.
  rewrite (search_by_resolve P w1 w2 query k u (fun _ => true) Hvs)
    with (g' := fun _ => true).
  - apply filter_all. done.
  - intros slot. rewrite (resolve_Permutation w1 w2) by done.
    by destruct (resolve w1 u slot).
  - done.
Qed.

Lemma last_filter_keep {A} (p q : A -> bool) (l : list A) x :
  last (List.filter p l) = Some x -> q x = true ->
  last (List.filter p (List.filter q l)) = Some x.
Proof.
  induction l as [|a l IH] using rev_ind; [done|].
  rewrite !filter_snoc.
  destruct (p a) eqn:Ep.
  - rewrite last_snoc. intros [= ->] Hq. rewrite Hq, filter_snoc, Ep.
    apply last_snoc.
  - intros Hl Hq. destruct (q a).
    + rewrite filter_snoc, Ep. by apply IH.
    + by apply IH.
Qed.

(** What a slot resolves to once a document is gone. *)
Lemma resolve_after_delete w oid owner resp w' u slot :
  NoDup (map ChunkRecord.faiss_index (chunks (mongo w))) ->
  delete_document w oid owner = Return (resp, w') ->
  resolve w' u slot =
  match resolve w u slot with
  | Some c =>
      if negb (bool_decide (ChunkRecord.document_id c = oid))
      then Some c else None
  | None => None
  end.
Proof.
  intros Hnd H. apply delete_document_inv in H as (_ & _ & ->).
  unfold resolve. simpl. unfold delete_many.
  set (p := fun c => bool_decide (ChunkRecord.faiss_index c = slot)
                     && owner_passes u c).
  set (q := fun c => negb (bool_decide (ChunkRecord.document_id c = oid))).
  pose proof (one_per_slot p slot _ Hnd (resolve_slot u slot)) as Hlen.
  destruct (last (List.filter p (chunks (mongo w)))) as [c|] eqn:El.
  - fold (q c). destruct (q c) eqn:Eq.
    + by apply last_filter_keep.
    + rewrite filter_filter_and.
      rewrite filter_none; [done|].
      intros c' Hc'. destruct (p c') eqn:Ep; [|done]. simpl.
      assert (Hin : c' ∈ List.filter p (chunks (mongo w))).
      { apply elem_of_filter_bool. done. }
      apply last_elem_of in El.
      destruct (List.filter p (chunks (mongo w))) as [|a [|b l]];
        simpl in Hlen; [by apply elem_of_nil in Hin| |lia].
      apply list_elem_of_singleton in Hin, El. congruence.
  - rewrite filter_filter_and. rewrite filter_none; [done|].
    intros c' Hc'. destruct (p c') eqn:Ep; [|done]. exfalso.
    assert (Hin : c' ∈ List.filter p (chunks (mongo w))).
    { apply elem_of_filter_bool. done. }
    apply last_None in El. rewrite El in Hin.
    by apply elem_of_nil in Hin.
Qed.

(** Deleting a document takes exactly its hits out of every search. *)
Lemma search_after_delete P w oid owner resp w' query k u :
  NoDup (map ChunkRecord.faiss_index (chunks (mongo w))) ->
  delete_document w oid owner = Return (resp, w') ->
  search_similar_chunks P w' query k u =
  List.filter (fun h => negb (bool_decide (Retrieval.document_id h = oid)))
    (search_similar_chunks P w query k u).
Proof.
  intros Hnd H.
  apply (search_by_resolve P w w' query k u
           (fun c => negb (bool_decide (ChunkRecord.document_id c = oid)))).
  - by apply delete_document_inv in H as (_ & _ & ->).
  - intros slot. by apply (resolve_after_delete w oid owner resp).
  - done.
Qed.

End SearchFacts.

(** ** The endpoints over retrieval and generation *)

Module EndpointFacts.
Import Py PyFacts Exn VectorStore Providers Mongo Retrieval LLM Agent.
Import RetrievalFacts IngestionFacts AgentFacts.

Lemma SFltb_leb x y : SFltb x y = true -> SFleb x y = true.
Proof.
  unfold SFltb, SFleb. by destruct (SFcompare x y) as [[| |]|].
Qed.

Lemma ltb_leb (x y : float) :
  PrimFloat.ltb x y = true -> PrimFloat.leb x y = true.
Proof. rewrite ltb_spec, leb_spec. apply SFltb_leb. Qed.

(** The clamp ends in the unit interval on every float, [nan] included. *)
Lemma clamp01_range (x : float) :
  PrimFloat.leb 0 (Query.clamp01 x) = true /\
  PrimFloat.leb (Query.clamp01 x) 1 = true.
Proof.
  unfold Query.clamp01, Query.py_max.
  destruct (PrimFloat.ltb 0 x) eqn:E0.
  - unfold Query.py_min. destruct (PrimFloat.ltb x 1) eqn:E1.
    + split; by apply ltb_leb.
    + split; reflexivity.
  - split; reflexivity.
Qed.

Lemma sequence_inv {A} (l : list (outcome A)) xs :
  Query.sequence l = Return xs -> l = map Return xs.
Proof.
  revert xs. induction l as [|m l IH]; intros xs; simpl.
  - by intros [= <-].
  - destruct m as [x|e]; simpl; [|done].
    destruct (Query.sequence l) as [ys|e]; simpl; [|done].
    intros [= <-]. simpl. f_equal. by apply IH.
Qed.

Lemma sequence_imap_inv {A B} (f : nat -> A -> outcome B) (l : list A) xs :
  Query.sequence (imap f l) = Return xs ->
  length xs = length l /\
  forall i x, xs !! i = Some x ->
    exists a, l !! i = Some a /\ f i a = Return x.
Proof.
  intros H. apply sequence_inv in H.
  split.
  - apply (f_equal (@length _)) in H.
    by rewrite length_imap, length_map in H.
  - intros i x Hx.
    apply (f_equal (fun l => l !! i)) in H.
    rewrite list_lookup_imap, lookup_map, Hx in H.
    destruct (l !! i) as [a|]; [|done]. simpl in H.
    exists a. split; [done|]. congruence.
Qed.

Lemma sequence_raise {A} (l : list (outcome A)) e :
  Query.sequence l = Raise e -> Raise e ∈ l.
Proof.
  induction l as [|m l IH]; simpl; [done|].
  destruct m as [x|e']; simpl.
  - destruct (Query.sequence l) as [ys|e']; simpl; [done|].
    intros [= ->]. apply list_elem_of_further. by apply IH.
  - intros [= ->]. apply list_elem_of_here.
Qed.

Lemma elem_of_imap_inv {A B} (f : nat -> A -> B) (l : list A) y :
  y ∈ imap f l -> exists i a, l !! i = Some a /\ y = f i a.
Proof.
  intros H. apply list_elem_of_lookup in H as [i Hi].
  rewrite list_lookup_imap in Hi.
  destruct (l !! i) as [a|] eqn:E; [|done].
  exists i, a. split; [done|]. simpl in Hi. congruence.
Qed.

Lemma display_text_len (t : list N) : len (Query.display_text t) <= 203.
Proof.
  unfold Query.display_text.
  destruct (Z.ltb_spec 200 (len t)) as [H|H]; [|lia].
  rewrite ChunkerShapes.slice_prefix by lia.
  unfold len in *. rewrite length_app, length_take.
  change (length (lit "...")) with 3%nat. lia.
Qed.

Lemma build_citation_inv M h rank s :
  Query.build_citation M h rank = Return s ->
  Query.text s = Query.display_text (text h) /\
  Query.filename s = filename h /\
  Query.document_id s = document_id h /\
  Query.chunk_index s = chunk_index h /\
  Query.start_char s = start_char h /\
  Query.end_char s = end_char h /\
  Query.distance s = distance h /\
  Query.citation s = Query.citation_of rank h /\
  exists y,
    Query.relevance_score s = Query.round4 M y /\
    PrimFloat.leb 0 y = true /\ PrimFloat.leb y 1 = true.
Proof.
  unfold Query.build_citation.
  destruct (Query.math_exp M _) as [y|e]; simpl; [|done].
  intros [= <-]. simpl. repeat split.
  exists (Query.clamp01 y). split; [done|]. apply clamp01_range.
Qed.

Lemma relevant_elem chunks h :
  h ∈ relevant chunks <->
  h ∈ chunks /\ PrimFloat.ltb (distance h) RELEVANCE_THRESHOLD = true.
Proof. unfold relevant. by rewrite elem_of_filter_bool. Qed.

(** The agent's run returns, whatever the providers do. *)
Lemma run_agent_returns P w question k user_email :
  exists resp,
    run_agent P w question k user_email = Return resp /\
    resp_question resp = question /\
    resp_sources resp =
      relevant (search_similar_chunks P w question k user_email) /\
    last (resp_messages resp) = Some (mkMessage (lit "ai") (resp_answer resp)).
Proof.
  unfold run_agent, ainvoke, run_node, retrieve_node. simpl.
  destruct (relevant (search_similar_chunks P w question k user_email))
    as [|h hs] eqn:Er.
  - simpl. eexists. split; [reflexivity|]. done.
  - unfold reason_node. simpl.
    destruct (generate P (reasoning_prompt question (h :: hs)) None _ 200)
      as [t|e]; simpl; unfold answer_node; simpl.
    + destruct (generate P (enhanced_prompt question t) _ _ 512)
        as [t'|e']; simpl; (eexists; split; [reflexivity|]);
        simpl; done.
    + destruct (generate P (enhanced_prompt question REASONING_FALLBACK)
                  _ _ 512)
        as [t'|e']; simpl; (eexists; split; [reflexivity|]);
        simpl; done.
Qed.

Lemma imap_map {A B C} (f : nat -> B -> C) (g : A -> B) (l : list A) :
  imap f (map g l) = imap (fun i a => f i (g a)) l.
Proof.
  revert f. induction l as [|a l IH]; intros f; [done|].
  simpl. f_equal. apply IH.
Qed.

(** The reasoning prompt is made of the first three chunks' file names
    and the first 150 characters of their texts. *)
Lemma reasoning_prompt_preview question cs1 cs2 :
  map (fun c => (filename c, take 150 (text c))) (take 3 cs1) =
  map (fun c => (filename c, take 150 (text c))) (take 3 cs2) ->
  reasoning_prompt question cs1 = reasoning_prompt question cs2.
Proof.
  intros H. unfold reasoning_prompt.
  rewrite !(ChunkerShapes.slice_prefix _ 3) by lia.
  change (Z.to_nat 3) with 3%nat.
  assert (Hi : forall cs : list Hit,
    imap (fun i chunk =>
            lit "Chunk " ++ str_of_Z (Z.of_nat i + 1) ++ lit " (from "
            ++ filename chunk ++ lit "): "
            ++ slice (text chunk) 0 150 ++ lit "...") cs =
    imap (fun i (p : list N * list N) =>
            lit "Chunk " ++ str_of_Z (Z.of_nat i + 1) ++ lit " (from "
            ++ p.1 ++ lit "): " ++ p.2 ++ lit "...")
         (map (fun c => (filename c, take 150 (text c))) cs)).
  { intros cs. rewrite imap_map. apply imap_ext. intros i c _. simpl.
    by rewrite (ChunkerShapes.slice_prefix _ 150) by lia. }
  by rewrite !Hi, H.
Qed.

(** With a truthy owner, every hit is a stored record of that owner. *)
Lemma hit_owned P w query k email h :
  email <> [] ->
  h ∈ search_similar_chunks P w query k (Some email) ->
  exists c, c ∈ chunks (mongo w) /\ ChunkRecord.user_email c = email /\
            h = hit_of c (distance h).
Proof.
  intros Hne Hh. apply hit_origin in Hh as (c & Hc & Ho & Hh).
  exists c. split; [done|]. split; [|done].
  destruct email as [|x u]; [done|]. simpl in Ho.
  by apply bool_decide_eq_true_1 in Ho.
Qed.

(** Without a relevant chunk the direct path answers without the
    generation server and without any arithmetic. *)
Lemma query_documents_without_context P w question k email :
  relevant (search_similar_chunks P w question k (Some email)) = [] ->
  exists answer,
    (answer = NO_INFORMATION \/ answer = Query.NOT_ABOUT question) /\
    forall M' ollama',
      Query.query_documents M'
        (mkProviders (encode P) (model_dimension P) (faiss_search P) ollama')
        w question k email
      = Return (Query.mkQuery question answer []).
Proof.
  intros H.
  exists (if negb (truthy (search_similar_chunks P w question k (Some email)))
          then NO_INFORMATION else Query.NOT_ABOUT question).
  split; [destruct (negb _); [by left | by right]|].
  intros M' o'. unfold Query.query_documents.
  change (search_similar_chunks
            (mkProviders (encode P) (model_dimension P) (faiss_search P) o')
            w question k (Some email))
    with (search_similar_chunks P w question k (Some email)).
  cbv zeta. rewrite H.
  by destruct (search_similar_chunks P w question k (Some email)).
Qed.

(** The direct path once something is relevant. *)
Lemma query_documents_with_context M P w question k email :
  relevant (search_similar_chunks P w question k (Some email)) <> [] ->
  Query.query_documents M P w question k email =
  bind
    (try_except
       (generate P question
          (Some (map text
                   (relevant
                      (search_similar_chunks P w question k (Some email)))))
          0.7%float 512)
       (fun e => Raise (Query.LLM_UNAVAILABLE e)))
    (fun answer =>
  bind
    (Query.sequence
       (imap (fun i chunk => Query.build_citation M chunk (Z.of_nat i + 1))
          (relevant (search_similar_chunks P w question k (Some email)))))
    (fun sources => Return (Query.mkQuery question answer sources))).
Proof.
  intros Hne. unfold Query.query_documents. cbv zeta.
  remember (search_similar_chunks P w question k (Some email)) as cs.
  destruct cs as [|h hs]; [done|].
  change (negb (truthy (h :: hs))) with false. cbv iota.
  remember (relevant (h :: hs)) as rel.
  destruct rel as [|h' hs']; [done|]. done.
Qed.

(** With a relevant chunk, a failure of the generation call leaves the
    direct path as a 503. *)
Lemma query_documents_unavailable M P w question k email e :
  relevant (search_similar_chunks P w question k (Some email)) <> [] ->
  generate P question
    (Some (map text
             (relevant (search_similar_chunks P w question k (Some email)))))
    0.7%float 512 = Raise e ->
  Query.query_documents M P w question k email =
  Raise (Query.LLM_UNAVAILABLE e).
Proof.
  intros Hne Hg. rewrite query_documents_with_context by done.
  by rewrite Hg.
Qed.

(** The sources of an answer follow the relevant hits one by one. *)
Lemma query_documents_sources M P w question k email r :
  Query.query_documents M P w question k email = Return r ->
  Query.question r = question /\
  length (Query.sources r) =
    length (relevant (search_similar_chunks P w question k (Some email))) /\
  forall i s, Query.sources r !! i = Some s ->
    exists h,
      relevant (search_similar_chunks P w question k (Some email)) !! i
        = Some h /\
      Query.build_citation M h (Z.of_nat i + 1) = Return s.
Proof.
  destruct (relevant (search_similar_chunks P w question k (Some email)))
    as [|h hs] eqn:Er.
  - destruct (query_documents_without_context P w question k email Er)
      as (answer & _ & Hq).
    specialize (Hq M (ollama P)). destruct P. simpl in Hq. rewrite Hq.
    intros [= <-]. simpl. repeat split. done.
  - rewrite query_documents_with_context by (by rewrite Er).
    rewrite <- Er.
    set (rel := relevant (search_similar_chunks P w question k (Some email))).
    destruct (try_except _ _) as [answer|e]; cbn [bind]; [|done].
    destruct (Query.sequence _) as [sources|e] eqn:Eq; cbn [bind]; [|done].
    intros [= <-]. simpl. split; [done|].
    apply sequence_imap_inv in Eq as [Hlen Hs]. split; [done|].
    intros i s Hi. by apply Hs.
Qed.

(** Every source of an answer is a stored chunk of the caller, nearer
    than the threshold, shown with at most 203 characters. *)
Lemma query_documents_source_owned M P w question k email r s :
  email <> [] ->
  Query.query_documents M P w question k email = Return r ->
  s ∈ Query.sources r ->
  exists c,
    c ∈ chunks (mongo w) /\ ChunkRecord.user_email c = email /\
    Query.document_id s = ChunkRecord.document_id c /\
    Query.filename s = ChunkRecord.filename c /\
    Query.text s = Query.display_text (ChunkRecord.text c) /\
    len (Query.text s) <= 203 /\
    PrimFloat.ltb (Query.distance s) RELEVANCE_THRESHOLD = true.
Proof.
  intros Hne Hq Hs.
  apply query_documents_sources in Hq as (_ & _ & Hsrc).
  apply list_elem_of_lookup in Hs as [i Hi].
  destruct (Hsrc i s Hi) as (h & Hh & Hb).
  apply list_elem_of_lookup_2, relevant_elem in Hh as [Hh Hd].
  apply hit_owned in Hh as (c & Hc & Hu & Hhc); [|done].
  apply build_citation_inv in Hb
    as (Ht & Hf & Hid & _ & _ & _ & Hdist & _).
  exists c. rewrite Ht, Hf, Hid, Hdist, Hhc. simpl.
  repeat split; try done. apply display_text_len.
Qed.


(** The agent endpoint fails only when the score cannot be computed. *)
Lemma query_documents_with_agent_outcome M P w question k email :
  (exists r,
     Query.query_documents_with_agent M P w question k email = Return r /\
     Query.aq_question r = question /\
     length (Query.aq_sources r) =
       length (relevant (search_similar_chunks P w question k (Some email))))
  \/
  (exists e h,
     Query.query_documents_with_agent M P w question k email
       = Raise (Query.AGENT_FAILED e) /\
     h ∈ relevant (search_similar_chunks P w question k (Some email)) /\
     Query.math_exp M (PrimFloat.div (PrimFloat.opp (distance h)) 10%float)
       = Raise e).
Proof.
  unfold Query.query_documents_with_agent.
  destruct (run_agent_returns P w question k (Some email))
    as (resp & -> & Hq & Hsrc & _).
  simpl bind. rewrite Hsrc.
  destruct (Query.sequence _) as [sources|e] eqn:Eq; simpl.
  - left. eexists. split; [done|]. simpl.
    apply sequence_imap_inv in Eq as [Hlen _]. done.
  - right. apply sequence_raise, elem_of_imap_inv in Eq
      as (i & h & Hh & Hb).
    exists e, h. split; [done|].
    split; [by apply list_elem_of_lookup_2 in Hh|].
    unfold Query.build_citation in Hb.
    destruct (Query.math_exp M _) as [y|e']; simpl in Hb; congruence.
Qed.

Lemma join_lookup sep (parts : list (list N)) i x :
  parts !! i = Some x -> exists pre post, join sep parts = pre ++ x ++ post.
Proof.
  revert i. induction parts as [|p parts IH]; intros i Hi; [done|].
  destruct i as [|i]; simpl in Hi.
  - injection Hi as ->. destruct parts as [|q parts].
    + exists [], []. simpl. by rewrite app_nil_r.
    + exists [], (sep ++ join sep (q :: parts)). done.
  - destruct (IH i Hi) as (pre & post & Hj).
    destruct parts as [|q parts]; [done|].
    exists (p ++ sep ++ pre), post.
    change (join sep (p :: q :: parts))
      with (p ++ sep ++ join sep (q :: parts)).
    rewrite Hj. by rewrite <- !app_assoc.
Qed.

(** The prompt names every context text under its number, and ends with
    the question and the rules. *)
Lemma build_prompt_context question (context : list (list N)) i t :
  context !! i = Some t ->
  exists pre post,
    _build_prompt question (Some context) =
    pre ++ (lit "[Document " ++ str_of_Z (Z.of_nat i + 1) ++ lit "]:" ++ NL
            ++ t) ++ post ++ lit "Question: " ++ question ++ NL ++ NL ++
    lit "IMPORTANT RULES:" ++ NL ++
    lit "1. ONLY use information from the context above" ++ NL ++
    lit "2. If the context doesn't contain relevant information to answer the question, say: "
    ++ QUOTE ++
    lit "I don't have information about this in your uploaded documents."
    ++ QUOTE ++ NL ++
    lit "3. Do NOT use your general knowledge if it's not in the context"
    ++ NL ++
    lit "4. Always cite which document section you're using when answering"
    ++ NL ++
    lit "5. If the context seems unrelated to the question, explicitly say so"
    ++ NL ++ NL ++
    lit "Answer:".
Proof.
  intros Hi. unfold _build_prompt.
  destruct context as [|c context]; [done|].
  set (parts := imap (fun i t => lit "[Document " ++ str_of_Z (Z.of_nat i + 1)
                                 ++ lit "]:" ++ NL ++ t) (c :: context)).
  assert (Hp : parts !! i =
               Some (lit "[Document " ++ str_of_Z (Z.of_nat i + 1) ++ lit "]:"
                     ++ NL ++ t)).
  { unfold parts. by rewrite list_lookup_imap, Hi. }
  destruct (join_lookup (NL ++ NL) parts i _ Hp) as (pre & post & Hj).
  cbv zeta. fold parts. rewrite Hj.
  exists (lit "You are a helpful AI assistant. Answer the question based ONLY on the provided context from the user's documents."
          ++ NL ++ NL ++ lit "Context from documents:" ++ NL ++ pre),
    (post ++ NL ++ NL).
  by rewrite <- !app_assoc.
Qed.

End EndpointFacts.


(** ** The relevance score *)

Module ScoreFacts.
Import Py Exn Retrieval Query Score EndpointFacts.



















End ScoreFacts.


(** * The specification's claims *)

Import Py PyFacts Exn Samples.

(** ** The chunker *)

Section ChunkerClaims.
Import Chunking ChunkingFacts.

(** C4, as the code has it. For every window that starts at an offset
    that is not negative and whose tentative end, not negative either,
    lies strictly before the end of the text, the cut is chosen in the
    order of the loop's list. A window that starts at a negative offset
    is read by [rfind] from the end of the text ([window_negative]) and
    is left out here. In that order: sentence terminators [". "],
    ["! "], ["? "] first, then the paragraph break, then the newline;
    the first of these that occurs in the window cuts right after its
    last occurrence there. When none occurs, the last space of the
    window cuts right after itself, provided it lies strictly after the
    window start; otherwise the window is cut at its raw boundary. *)
Theorem window_end_priority (s : list N) (start chunk_size : Z) :
  0 <= start -> 0 <= start + chunk_size < len s ->
  BOUNDARIES = [lit ". "; lit "! "; lit "? "; [10; 10]; [10]]%N /\
  cut_rule BOUNDARIES s start chunk_size (window_end s start chunk_size).
Proof.
  intros Hstart Hstop. split; [reflexivity|].
  exact (window_end_cases s start chunk_size Hstart Hstop).
Qed.

Lemma window_end_priority_witness :
  0 <= 0 /\ 0 <= 0 + 8 < len two_markers /\
  BOUNDARIES = [lit ". "; lit "! "; lit "? "; [10; 10]; [10]]%N /\
  cut_rule BOUNDARIES two_markers 0 8 (window_end two_markers 0 8).
Proof.
  assert (H1 : 0 <= 0) by lia.
  assert (H2 : 0 <= 0 + 8 < len two_markers) by (vm_compute; split; congruence).
  exact (conj H1 (conj H2 (window_end_priority two_markers 0 8 H1 H2))).
Defined.

(** C4, as the specification words it, fails: in the window [0, 8) of
    ["a\n\nb. cdefgh"] the paragraph break occurs (last at index 1), so the
    specification's order cuts at 3, while the code cuts at 6, after the
    sentence terminator. *)
Lemma window_end_not_paragraph_first :
  last_occurrence two_markers [10; 10]%N 0 8 1 /\
  window_end_spec two_markers 0 8 = 3 /\
  window_end two_markers 0 8 = 6.
Proof.
  split; [|split; reflexivity].
  assert (H : rfind two_markers [10; 10]%N 0 8 = 1) by reflexivity.
  assert (Hw : 0 <= 8 <= len two_markers) by (vm_compute; split; congruence).
  pose proof (rfind_found two_markers [10; 10]%N 0 8 ltac:(lia) Hw _ eq_refl)
    as Hf.
  rewrite H in Hf. apply Hf. lia.
Qed.

(** A window that starts at a negative offset is not cut by this rule.
    After the first window of ["\nxxxxxxxxxx"] with [chunk_size = 5] and
    [chunk_overlap = 2] the cursor is at [-1]; [rfind] reads [-1] as the
    last index of the text and finds no marker, so the window is cut at
    its raw boundary 4 although a newline lies at offset 0. *)
Remark window_end_from_negative_start :
  cur_start (chunk_body skipped_start 5 2 (mkCursor 0 0 [])) = -1 /\
  match_at skipped_start [10]%N 0 = true /\
  window_end skipped_start (-1) 5 = 4.
Proof. repeat split; reflexivity. Qed.

(** C5 fails on the code. The progress test compares the next start with
    the start of the last chunk kept, not with the current start: after
    a window that trims to nothing the cursor can return to where it
    was. On ["\nxxxx"] with [chunk_size = 2], [chunk_overlap = 1], and
    on a sentence followed by 48 spaces, a newline and marker-free text
    with the defaults 500 and 50, the loop never ends, whatever the
    fuel. *)
Theorem chunk_text_loops_forever :
  (forall fuel, chunk_text fuel newline_first 2 1 = None) /\
  (forall fuel, chunk_text fuel blank_run 500 50 = None).
Proof.
  split; intros fuel.
  - change (chunk_loop fuel newline_first 2 1 (mkCursor 0 0 []) = None).
    apply chunk_loop_stuck; [by vm_compute | by vm_compute].
  - change (chunk_loop fuel blank_run 500 50 (mkCursor 0 0 []) = None).
    set (st1 := chunk_body blank_run 500 50 (mkCursor 0 0 [])).
    set (st2 := chunk_body blank_run 500 50 st1).
    assert (H2 : forall f, chunk_loop f blank_run 500 50 st2 = None).
    { apply chunk_loop_stuck; [by vm_compute | by vm_compute]. }
    assert (H1 : forall f, chunk_loop f blank_run 500 50 st1 = None).
    { intros [|f]; [by vm_compute|].
      rewrite chunk_loop_step by (by vm_compute). apply H2. }
    destruct fuel as [|f]; [by vm_compute|].
    rewrite chunk_loop_step by (by vm_compute). apply H1.
Qed.

(** C6, as the code has it. Whenever [chunk_text] returns, for
    [chunk_size > 0] and [0 <= chunk_overlap < chunk_size]: every chunk
    has [0 <= start_char < end_char <= len(text)], its text is the
    trimmed, non-empty segment of the original text between the two
    offsets, and its [chunk_index] is its position in the list; the
    starts increase strictly and the ends never decrease along the list;
    and every position from the first chunk's start to the end of the
    text lies in some chunk's range or holds a whitespace character (of
    a window that trimmed to nothing and was dropped). *)
Theorem chunk_text_invariants (fuel : nat) (s : list N)
    (chunk_size chunk_overlap : Z) (out : list Chunk) :
  0 < chunk_size -> 0 <= chunk_overlap < chunk_size ->
  chunk_text fuel s chunk_size chunk_overlap = Some out ->
  chunks_wf s out.
Proof.
  intros Hcs Hov Hout.
  exact (chunk_text_wf fuel s chunk_size chunk_overlap out Hcs Hov Hout).
Qed.

Lemma chunk_text_invariants_witness :
  0 < 4 /\ 0 <= 0 < 4 /\
  chunk_text 10 three_sentences 4 0 =
    Some [mkChunk (lit "A.") 0 0 3; mkChunk (lit "B.") 1 3 6;
          mkChunk (lit "C.") 2 6 8] /\
  chunks_wf three_sentences
    [mkChunk (lit "A.") 0 0 3; mkChunk (lit "B.") 1 3 6;
     mkChunk (lit "C.") 2 6 8].
Proof.
  assert (H1 : 0 < 4) by lia.
  assert (H2 : 0 <= 0 < 4) by lia.
  assert (H3 : chunk_text 10 three_sentences 4 0 =
               Some [mkChunk (lit "A.") 0 0 3; mkChunk (lit "B.") 1 3 6;
                     mkChunk (lit "C.") 2 6 8]) by reflexivity.
  exact (conj H1 (conj H2 (conj H3
           (chunk_text_invariants 10 three_sentences 4 0 _ H1 H2 H3)))).
Defined.

(** C6, as the specification words it, fails: the ranges need not cover
    the text. ["ab\n\n\ncd"] with [chunk_size = 3] and no overlap gives
    the ranges [0, 3) and [5, 7): positions 3 and 4 lie in a window that
    trimmed to nothing. ["\nxxxxxxxxxx"] with [chunk_size = 5] and
    [chunk_overlap = 2] gives a first chunk that starts at 2: the
    character at position 1 is in no range. *)
Lemma chunk_text_leaves_gaps :
  (chunk_text 10 blank_lines 3 0 =
     Some [mkChunk (lit "ab") 0 0 3; mkChunk (lit "cd") 1 5 7] /\
   0 <= 3 < len blank_lines /\
   ~ covers [mkChunk (lit "ab") 0 0 3; mkChunk (lit "cd") 1 5 7] 3) /\
  (chunk_text 10 skipped_start 5 2 =
     Some [mkChunk (lit "xxxxx") 0 2 7; mkChunk (lit "xxxxx") 1 5 10;
           mkChunk (lit "xxx") 2 8 11; mkChunk (lit "xx") 3 9 11] /\
   skipped_start !! 1%nat = Some 120%N /\ isspace 120 = false /\
   ~ covers [mkChunk (lit "xxxxx") 0 2 7; mkChunk (lit "xxxxx") 1 5 10;
             mkChunk (lit "xxx") 2 8 11; mkChunk (lit "xx") 3 9 11] 1).
Proof.
  split.
  - split; [reflexivity|]. split; [by vm_compute|].
    intros (c & Hc & Hp).
    repeat (apply elem_of_cons in Hc as [->|Hc]; [simpl in Hp; lia|]).
    by apply elem_of_nil in Hc.
  - split; [reflexivity|]. split; [reflexivity|]. split; [reflexivity|].
    intros (c & Hc & Hp).
    repeat (apply elem_of_cons in Hc as [->|Hc]; [simpl in Hp; lia|]).
    by apply elem_of_nil in Hc.
Qed.

End ChunkerClaims.


(** ** Ingestion *)

Section IngestionClaims.
Import VectorStore Providers Mongo Ingestion IngestionFacts.

(** C1. A successful ingestion of a document with [n >= 1] chunks,
    [start_slot] being the index's count before the append, puts the
    vector of chunk [i] at slot [start_slot + i], writes the chunk
    records in the same order with [faiss_index = start_slot + i], and
    returns the range [start_slot, start_slot + n). Hence a three-chunk
    document ingested into empty stores gets [0, 3), a two-chunk document
    ingested next gets [3, 5), and once the first document is deleted no
    slot of [0, 3) resolves to any record: every record left, and every
    hit of any later search, belongs to the second document and carries a
    slot of [3, 5). *)
Theorem ingest_slot_alignment :
  (forall P fuel w filename content user_email chunk_size chunk_overlap r w',
     ingest_document P fuel w filename content user_email
       chunk_size chunk_overlap = Some (Return (r, w')) ->
     exists cks,
       chunk_document fuel content chunk_size chunk_overlap = Some cks /\
       1 <= len cks /\
       (forall i c, cks !! i = Some c ->
          index (vector_store w')
            !! (Z.to_nat (total_vectors (vector_store w) + Z.of_nat i))
          = Some (encode P (Chunking.text c)) /\
          chunks (mongo w') !! (length (chunks (mongo w)) + i)%nat
          = Some (ChunkRecord.mk (Ingestion.document_id r) user_email
                    filename (Chunking.chunk_index c)
                    (total_vectors (vector_store w) + Z.of_nat i)
                    (Chunking.text c) (Chunking.start_char c)
                    (Chunking.end_char c))) /\
       length (chunks (mongo w')) =
         (length (chunks (mongo w)) + length cks)%nat /\
       total_vectors (vector_store w') =
         total_vectors (vector_store w) + len cks /\
       Ingestion.faiss_start_index r = total_vectors (vector_store w) /\
       Ingestion.faiss_end_index r =
         total_vectors (vector_store w) + len cks /\
       chunks_processed r = len cks)
  /\
  (forall P fuel1 fuel2 w0 f1 t1 u1 cs1 ov1 f2 t2 u2 cs2 ov2 r1 w1 r2 w2,
     index (vector_store w0) = [] ->
     documents (mongo w0) = [] -> chunks (mongo w0) = [] ->
     ingest_document P fuel1 w0 f1 t1 u1 cs1 ov1 = Some (Return (r1, w1)) ->
     chunks_processed r1 = 3 ->
     ingest_document P fuel2 w1 f2 t2 u2 cs2 ov2 = Some (Return (r2, w2)) ->
     chunks_processed r2 = 2 ->
     (Ingestion.faiss_start_index r1 = 0 /\
      Ingestion.faiss_end_index r1 = 3) /\
     (Ingestion.faiss_start_index r2 = 3 /\
      Ingestion.faiss_end_index r2 = 5) /\
     exists resp w3,
       Documents.delete_document w2 (Ingestion.document_id r1) u1
       = Return (resp, w3) /\
       Documents.chunks_deleted resp = 3 /\
       vector_store w3 = vector_store w2 /\
       (forall c, c ∈ chunks (mongo w3) ->
          ChunkRecord.document_id c = Ingestion.document_id r2 /\
          3 <= ChunkRecord.faiss_index c < 5) /\
       (forall slot, 0 <= slot < 3 ->
          get_chunk_by_faiss_index w3 slot = None /\
          forall owner, Retrieval.resolve w3 owner slot = None) /\
       (forall P' query k owner h,
          h ∈ Retrieval.search_similar_chunks P' w3 query k owner ->
          3 <= Retrieval.faiss_index h < 5 /\
          Retrieval.document_id h = Ingestion.document_id r2)).
Proof.
  split.
  - intros P fuel w filename content user_email cs ov r w' H.
    exact (ingest_alignment P fuel w filename content user_email cs ov r w' H).
  - intros P fuel1 fuel2 w0 f1 t1 u1 cs1 ov1 f2 t2 u2 cs2 ov2 r1 w1 r2 w2.
    apply two_ingests_then_delete.
Qed.

Lemma ingest_slot_alignment_witness :
  ingest_document bob_nearest 10 empty_world (lit "d1.txt")
    three_sentences alice 4 0
  = Some (Return (fst first_ingest, snd first_ingest)) /\
  chunks_processed (fst first_ingest) = 3 /\
  ingest_document bob_nearest 10 (snd first_ingest) (lit "d2.txt")
    two_sentences bob 4 0
  = Some (Return (fst second_ingest, snd second_ingest)) /\
  chunks_processed (fst second_ingest) = 2 /\
  (Ingestion.faiss_start_index (fst first_ingest) = 0 /\
   Ingestion.faiss_end_index (fst first_ingest) = 3) /\
  (Ingestion.faiss_start_index (fst second_ingest) = 3 /\
   Ingestion.faiss_end_index (fst second_ingest) = 5).
Proof.
  assert (H1 : ingest_document bob_nearest 10 empty_world (lit "d1.txt")
                 three_sentences alice 4 0
               = Some (Return (fst first_ingest, snd first_ingest)))
    by (vm_compute; reflexivity).
  assert (N1 : chunks_processed (fst first_ingest) = 3)
    by (vm_compute; reflexivity).
  assert (H2 : ingest_document bob_nearest 10 (snd first_ingest)
                 (lit "d2.txt") two_sentences bob 4 0
               = Some (Return (fst second_ingest, snd second_ingest)))
    by (vm_compute; reflexivity).
  assert (N2 : chunks_processed (fst second_ingest) = 2)
    by (vm_compute; reflexivity).
  pose proof (proj2 ingest_slot_alignment bob_nearest 10%nat 10%nat
                empty_world _ _ _ _ _ _ _ _ _ _ _ _ _ _
                eq_refl eq_refl eq_refl H1 N1 H2 N2) as (R1 & R2 & _).
  exact (conj H1 (conj N1 (conj H2 (conj N2 (conj R1 R2))))).
Defined.

End IngestionClaims.

(** ** Retrieval *)

Section RetrievalClaims.
Import VectorStore Providers Mongo Ingestion Retrieval RetrievalFacts.

(** C2. For a query with a non-empty owner, every hit returned is built
    from a stored chunk record whose owner is that owner, whatever the
    index answered and in whatever order. *)
Theorem retrieval_owner_is_hard_filter (P : Providers) (w : World)
    (query : list N) (k : Z) (owner : list N) (h : Hit) :
  owner <> [] ->
  h ∈ search_similar_chunks P w query k (Some owner) ->
  exists c, c ∈ chunks (mongo w) /\ ChunkRecord.user_email c = owner /\
            h = hit_of c (distance h).
Proof.
  intros Hne Hh. apply hit_origin in Hh as (c & Hc & Hown & Hhit).
  exists c. split; [done|]. split; [|done].
  destruct owner as [|x u]; [done|]. simpl in Hown.
  by apply bool_decide_eq_true_1 in Hown.
Qed.

Lemma retrieval_owner_is_hard_filter_witness :
  alice <> [] /\
  search_similar_chunks bob_nearest library (lit "q") 4 (Some alice)
    = [alice_hit] /\
  exists c, c ∈ chunks (mongo library) /\
            ChunkRecord.user_email c = alice /\
            alice_hit = hit_of c (distance alice_hit).
Proof.
  assert (H1 : alice <> []) by (vm_compute; congruence).
  assert (H2 : search_similar_chunks bob_nearest library (lit "q") 4
                 (Some alice) = [alice_hit]) by (vm_compute; reflexivity).
  assert (H3 : alice_hit ∈ search_similar_chunks bob_nearest library
                 (lit "q") 4 (Some alice))
    by (rewrite H2; apply list_elem_of_here).
  exact (conj H1 (conj H2
           (retrieval_owner_is_hard_filter bob_nearest library (lit "q") 4
              alice alice_hit H1 H3))).
Defined.

(** C7. For an answer of the index with as many labels as distances,
    the result is the answer joined with the metadata entry by entry, in
    the answer's order: an entry marked absent ([-1]) or whose slot does
    not resolve to a record passing the owner condition gives nothing
    (no error), any other entry gives its record with the reported
    distance. The (slot, distance) pairs of the result are exactly the
    answer's pairs whose slot is present and resolves, in the same
    order; no distance is compared with any threshold. *)
Theorem retrieval_keeps_index_order (P : Providers) (w : World)
    (query : list N) (k : Z) (user_email : option (list N))
    (distances : list float) (indices : list Z) :
  search P (vector_store w) (embed_single P query) k = (distances, indices) ->
  length indices = length distances ->
  search_similar_chunks P w query k user_email
    = ranked_hits w user_email (combine indices distances) /\
  map (fun h => (faiss_index h, distance h))
      (search_similar_chunks P w query k user_email)
    = List.filter
        (fun '(slot, _) =>
           negb (slot =? -1) &&
           match resolve w user_email slot with
           | Some _ => true
           | None => false
           end)
        (combine indices distances).
Proof.
  intros Hs Hlen.
  rewrite (search_ranked P w query k user_email distances indices Hs Hlen).
  split; [done | apply ranked_hits_keys].
Qed.

Lemma retrieval_keeps_index_order_witness :
  search bob_nearest (vector_store library)
    (embed_single bob_nearest (lit "q")) 4
  = ([0%float; 0.5%float; 0.75%float; 9%float], [0; 1; 2; -1]) /\
  search_similar_chunks bob_nearest library (lit "q") 4 None
    = [bob_hit; alice_hit] /\
  map (fun h => (faiss_index h, distance h))
      (search_similar_chunks bob_nearest library (lit "q") 4 None)
    = [(0, 0%float); (1, 0.5%float)].
Proof.
  assert (H1 : search bob_nearest (vector_store library)
                 (embed_single bob_nearest (lit "q")) 4
               = ([0%float; 0.5%float; 0.75%float; 9%float], [0; 1; 2; -1]))
    by reflexivity.
  assert (H2 : length [0; 1; 2; -1] =
               length [0%float; 0.5%float; 0.75%float; 9%float])
    by reflexivity.
  destruct (retrieval_keeps_index_order bob_nearest library (lit "q") 4 None
              _ _ H1 H2) as [R1 R2].
  split; [exact H1|]. split.
  - rewrite R1. vm_compute. reflexivity.
  - rewrite R2. vm_compute. reflexivity.
Defined.

(** C10. When [user_email] is [None] or the empty string the lookup
    carries no owner condition: it answers every record whose slot was
    asked for, and a search returns, for every present slot of the
    index's answer, the last record stored for that slot, whoever owns
    it. *)
Theorem retrieval_without_owner_is_unscoped (P : Providers) (w : World)
    (query : list N) (k : Z) (user_email : option (list N)) :
  user_email = None \/ user_email = Some [] ->
  (forall idxs,
     get_chunks_by_faiss_indices w idxs user_email =
     List.filter (fun c => bool_decide (ChunkRecord.faiss_index c ∈ idxs))
       (chunks (mongo w))) /\
  (forall distances indices,
     search P (vector_store w) (embed_single P query) k
       = (distances, indices) ->
     length indices = length distances ->
     search_similar_chunks P w query k user_email
       = ranked_hits w None (combine indices distances) /\
     forall slot d c,
       (slot, d) ∈ combine indices distances -> slot <> -1 ->
       last (List.filter
               (fun c => bool_decide (ChunkRecord.faiss_index c = slot))
               (chunks (mongo w))) = Some c ->
       hit_of c d ∈ search_similar_chunks P w query k user_email).
Proof.
  intros Hfalsy.
  assert (Hown : forall c, owner_passes user_email c = true).
  { intros c. by destruct Hfalsy as [-> | ->]. }
  split.
  - intros idxs. unfold get_chunks_by_faiss_indices, find_chunks.
    apply filter_ext_elem. intros c _.
    rewrite matches_owner, Hown. apply andb_true_r.
  - intros distances indices Hs Hlen.
    rewrite (search_ranked P w query k user_email distances indices Hs Hlen).
    assert (Hres : forall u, (forall c, owner_passes u c = true) ->
              forall slot,
              resolve w u slot =
              last (List.filter
                      (fun c => bool_decide (ChunkRecord.faiss_index c = slot))
                      (chunks (mongo w)))).
    { intros u Hu slot. unfold resolve. f_equal. apply filter_ext_elem.
      intros c _. rewrite Hu. apply andb_true_r. }
    split.
    + unfold ranked_hits. apply omap_ext_elem. intros [slot d] _.
      by rewrite (Hres user_email Hown), (Hres None (fun _ => eq_refl)).
    + intros slot d c Hin Hslot Hlast.
      unfold ranked_hits. apply list_elem_of_omap.
      exists (slot, d). split; [done|]. simpl.
      destruct (Z.eqb_spec slot (-1)); [done|].
      by rewrite (Hres user_email Hown), Hlast.
Qed.

Lemma retrieval_without_owner_is_unscoped_witness :
  (@None (list N) = None \/ @None (list N) = Some []) /\
  search_similar_chunks bob_nearest library (lit "q") 4 None
    = [bob_hit; alice_hit] /\
  search_similar_chunks bob_nearest library (lit "q") 4 (Some [])
    = [bob_hit; alice_hit] /\
  get_chunks_by_faiss_indices library [0; 1; 2] None
    = chunks (mongo library).
Proof.
  assert (H0 : @None (list N) = None \/ @None (list N) = Some [])
    by (left; reflexivity).
  destruct (retrieval_without_owner_is_unscoped bob_nearest library
              (lit "q") 4 None H0) as [R1 R2].
  destruct (R2 _ _ eq_refl eq_refl) as [R3 _].
  split; [exact H0|]. split; [|split].
  - rewrite R3. vm_compute. reflexivity.
  - vm_compute. reflexivity.
  - rewrite R1. vm_compute. reflexivity.
Defined.

End RetrievalClaims.

(** ** The agent *)

Section AgentClaims.
Import VectorStore Providers Retrieval LLM Agent AgentFacts.

(** C3, as the code has it. When every retrieved chunk has a distance
    of at least 1.2, all three stages run and each adds one entry to
    the trace it is handed: the retrieve notice, the fixed "no relevant
    documents" reasoning and the fixed "couldn't find any relevant
    information" answer. The three nodes applied in a row leave exactly
    these three entries; the run returns that answer, that reasoning and
    no sources, and its trace holds these three entries and no other
    (three at least, not two). *)
Theorem agent_no_context_trace (P : Providers) (w : World)
    (question : list N) (k : Z) (user_email : option (list N)) :
  (forall h, h ∈ search_similar_chunks P w question k user_email ->
             PrimFloat.leb RELEVANCE_THRESHOLD (distance h) = true) ->
  stages P w (mkState question [] [] [] [] k user_email)
    = Return (mkState question [] NO_DOCUMENTS NO_INFORMATION
                (no_context_trace question
                   (search_similar_chunks P w question k user_email))
                k user_email) /\
  exists r,
    run_agent P w question k user_email = Return r /\
    resp_answer r = NO_INFORMATION /\
    resp_reasoning r = NO_DOCUMENTS /\
    resp_sources r = [] /\
    (forall m, m ∈ resp_messages r <->
               m ∈ map message_dict
                     (no_context_trace question
                        (search_similar_chunks P w question k user_email))) /\
    (3 <= length (resp_messages r))%nat.
Proof.
  intros Hfar. apply relevant_none in Hfar. split.
  - exact (stages_no_context P w (mkState question [] [] [] [] k user_email)
             Hfar).
  - pose proof (run_agent_no_context P w question k user_email Hfar) as Hrun.
    simpl in Hrun. eexists. split; [exact Hrun|]. simpl.
    split; [done|]. split; [done|]. split; [done|]. split; [|lia].
    intros m. unfold no_context_trace. simpl.
    rewrite !elem_of_cons, !elem_of_nil. tauto.
Qed.

Lemma agent_no_context_trace_witness :
  search_similar_chunks all_far library (lit "q") 5 (Some alice)
    = [hit_of (note 1 alice 1 (lit "alice's note")) 3%float] /\
  stages all_far library (mkState (lit "q") [] [] [] [] 5 (Some alice))
    = Return (mkState (lit "q") [] NO_DOCUMENTS NO_INFORMATION
                (no_context_trace (lit "q")
                   (search_similar_chunks all_far library (lit "q") 5
                      (Some alice)))
                5 (Some alice)).
Proof.
  assert (H1 : search_similar_chunks all_far library (lit "q") 5 (Some alice)
               = [hit_of (note 1 alice 1 (lit "alice's note")) 3%float])
    by (vm_compute; reflexivity).
  assert (H2 : forall h,
            h ∈ search_similar_chunks all_far library (lit "q") 5 (Some alice)
            -> PrimFloat.leb RELEVANCE_THRESHOLD (distance h) = true).
  { rewrite H1. intros h Hh. apply list_elem_of_singleton in Hh.
    subst h. reflexivity. }
  exact (conj H1
           (proj1 (agent_no_context_trace all_far library (lit "q") 5
                     (Some alice) H2))).
Defined.

(** C3, as the specification words it, fails: in a run where the one
    retrieved chunk has distance 3.0 the three nodes leave three trace
    entries, and the run returns a trace of seven entries (the [add]
    channel repeats the entries each node hands back), not two. *)
Lemma agent_trace_is_not_two_entries :
  map distance
      (search_similar_chunks all_far library (lit "q") 5 (Some alice))
    = [3%float] /\
  (fun s => length (messages s)) <$>
    returned (stages all_far library
                (mkState (lit "q") [] [] [] [] 5 (Some alice)))
    = Some 3%nat /\
  (fun r => (resp_answer r, length (resp_messages r))) <$>
    returned (run_agent all_far library (lit "q") 5 (Some alice))
    = Some (NO_INFORMATION, 7%nat).
Proof.
  split; [vm_compute; reflexivity|].
  split; vm_compute; reflexivity.
Qed.

(** C8. When at least one retrieved chunk is below the threshold, a run
    returns a response whatever the generation provider does: if the
    reasoning call raises, the reasoning is the fixed fallback string;
    if the answer call raises [e], the answer is ["Error generating
    answer: "] followed by [str(e)]; a call that returns supplies the
    text. The sources are the chunks that passed the threshold. *)
Theorem agent_contains_generation_failure (P : Providers) (w : World)
    (question : list N) (k : Z) (user_email : option (list N)) :
  relevant (search_similar_chunks P w question k user_email) <> [] ->
  exists r,
    run_agent P w question k user_email = Return r /\
    resp_sources r =
      relevant (search_similar_chunks P w question k user_email) /\
    (forall e,
       generate P (reasoning_prompt question (resp_sources r)) None
         0.3%float 200 = Raise e ->
       resp_reasoning r = REASONING_FALLBACK) /\
    (forall t,
       generate P (reasoning_prompt question (resp_sources r)) None
         0.3%float 200 = Return t ->
       resp_reasoning r = t) /\
    (forall e,
       generate P (enhanced_prompt question (resp_reasoning r))
         (Some (map text (resp_sources r))) 0.7%float 512 = Raise e ->
       resp_answer r = lit "Error generating answer: " ++ str_of_exn e) /\
    (forall t,
       generate P (enhanced_prompt question (resp_reasoning r))
         (Some (map text (resp_sources r))) 0.7%float 512 = Return t ->
       resp_answer r = t).
Proof.
  intros Hrel.
  destruct (run_agent_with_context P w question k user_email Hrel)
    as (trace & Hrun).
  eexists. split; [exact Hrun|]. simpl. split; [done|].
  split; [intros e He; by rewrite He|].
  split; [intros t Ht; by rewrite Ht|].
  split; [intros e He; by rewrite He|].
  intros t Ht; by rewrite Ht.
Qed.

Lemma agent_contains_generation_failure_witness :
  relevant (search_similar_chunks bob_nearest library (lit "q") 5 (Some alice))
    = [alice_hit] /\
  (fun r => (resp_reasoning r, resp_answer r)) <$>
    returned (run_agent bob_nearest library (lit "q") 5 (Some alice))
    = Some (REASONING_FALLBACK,
            lit "Error generating answer: connection refused").
Proof.
  assert (H1 : relevant (search_similar_chunks bob_nearest library (lit "q") 5
                           (Some alice)) = [alice_hit])
    by (vm_compute; reflexivity).
  assert (H2 : relevant (search_similar_chunks bob_nearest library (lit "q") 5
                           (Some alice)) <> [])
    by (rewrite H1; congruence).
  destruct (agent_contains_generation_failure bob_nearest library (lit "q") 5
              (Some alice) H2) as (r & Hrun & _ & Hreason & _ & Hanswer & _).
  assert (Hr : resp_reasoning r = REASONING_FALLBACK).
  { apply (Hreason (Exception (lit "connection refused"))). reflexivity. }
  assert (Ha : resp_answer r =
               lit "Error generating answer: " ++
               str_of_exn (Exception (lit "connection refused"))).
  { apply Hanswer. reflexivity. }
  split; [exact H1|]. rewrite Hrun. simpl. rewrite Hr, Ha. reflexivity.
Defined.

End AgentClaims.

(** ** The relevance score *)

Section ScoreClaims.
Import Retrieval Query Score ScoreFacts EndpointFacts MoreSamples.




End ScoreClaims.


(** * Further properties of the code *)

Import MoreSamples.

(** ** The chunker beyond the claims *)

Section ChunkerShapesOfResults.
Import Chunking ChunkingFacts ChunkerShapes.

(** X1. With [chunk_overlap = 0] and a positive [chunk_size],
    [chunk_text] returns within [len(text)] iterations of its loop, the
    chunks it returns are well formed, and every character of the text
    lies in the range of a chunk or is whitespace. *)
Theorem chunker_covers_text_without_overlap (s : list N) (chunk_size : Z) :
  0 < chunk_size ->
  exists out,
    chunk_text (length s) s chunk_size 0 = Some out /\
    chunks_wf s out /\
    forall p, 0 <= p < len s -> covers out p \/ blank_at s p.
Proof. exact (chunk_text_no_overlap s chunk_size). Qed.

Lemma chunker_covers_text_without_overlap_witness :
  0 < 4 /\
  exists out,
    chunk_text (length three_sentences) three_sentences 4 0 = Some out /\
    chunks_wf three_sentences out /\
    forall p, 0 <= p < len three_sentences ->
              covers out p \/ blank_at three_sentences p.
Proof.
  assert (H : 0 < 4) by lia.
  exact (conj H (chunker_covers_text_without_overlap three_sentences 4 H)).
Defined.

(** X2. A text that is not blank, fits into one window and is no longer
    than the overlap gives exactly one chunk: the trimmed text with the
    offsets of the whole text. *)
Theorem chunker_short_text_one_chunk (fuel : nat) (s : list N)
    (chunk_size chunk_overlap : Z) :
  strip s <> [] -> len s <= chunk_size -> len s <= chunk_overlap ->
  chunk_text (S fuel) s chunk_size chunk_overlap =
  Some [mkChunk (strip s) 0 0 (len s)].
Proof.
  intros Hne Hfits Hov.
  exact (single_chunk s chunk_size chunk_overlap Hne Hfits fuel Hov).
Qed.

Lemma chunker_short_text_one_chunk_witness :
  strip greeting <> [] /\ len greeting <= 500 /\ len greeting <= 50 /\
  chunk_text 1 greeting 500 50 = Some [mkChunk greeting 0 0 12].
Proof.
  assert (H1 : strip greeting <> []) by (vm_compute; congruence).
  assert (H2 : len greeting <= 500) by (vm_compute; congruence).
  assert (H3 : len greeting <= 50) by (vm_compute; congruence).
  exact (conj H1 (conj H2 (conj H3
           (chunker_short_text_one_chunk 0 greeting 500 50 H1 H2 H3)))).
Defined.

(** X3. A text that is not blank, fits into one window and is longer
    than the overlap gives two chunks when its last [chunk_overlap]
    characters are not blank: the whole text, and those last characters
    once more. *)
Theorem chunker_repeats_tail (fuel : nat) (s : list N)
    (chunk_size chunk_overlap : Z) :
  strip s <> [] -> len s <= chunk_size -> 0 < chunk_overlap < len s ->
  strip (slice s (len s - chunk_overlap) (len s)) <> [] ->
  chunk_text (S (S fuel)) s chunk_size chunk_overlap =
  Some [mkChunk (strip s) 0 0 (len s);
        mkChunk (strip (slice s (len s - chunk_overlap) (len s))) 1
          (len s - chunk_overlap) (len s)].
Proof.
  intros Hne Hfits Hov Htail.
  exact (tail_chunk s chunk_size chunk_overlap Hne Hfits fuel Hov Htail).
Qed.

Lemma chunker_repeats_tail_witness :
  strip pangram <> [] /\ len pangram <= 500 /\ 0 < 50 < len pangram /\
  strip (slice pangram (len pangram - 50) (len pangram)) <> [] /\
  chunk_text 2 pangram 500 50 =
  Some [mkChunk pangram 0 0 64;
        mkChunk (lit "n fox jumps over the lazy dog near the river bank.") 1 14 64].
Proof.
  assert (H1 : strip pangram <> []) by (vm_compute; congruence).
  assert (H2 : len pangram <= 500) by (vm_compute; congruence).
  assert (H3 : 0 < 50 < len pangram) by (vm_compute; split; congruence).
  assert (H4 : strip (slice pangram (len pangram - 50) (len pangram)) <> [])
    by (vm_compute; congruence).
  exact (conj H1 (conj H2 (conj H3 (conj H4
           (chunker_repeats_tail 0 pangram 500 50 H1 H2 H3 H4))))).
Defined.

(** X4. A text that is not blank, fits into one window and is longer
    than the overlap makes the loop run forever when its last
    [chunk_overlap] characters are blank: no amount of fuel gives a
    result. *)
Theorem chunker_blank_tail_never_returns (s : list N)
    (chunk_size chunk_overlap : Z) :
  strip s <> [] -> len s <= chunk_size -> 0 < chunk_overlap < len s ->
  strip (slice s (len s - chunk_overlap) (len s)) = [] ->
  forall fuel, chunk_text fuel s chunk_size chunk_overlap = None.
Proof.
  intros Hne Hfits Hov Htail fuel.
  exact (blank_tail_loops s chunk_size chunk_overlap Hne Hfits fuel Hov Htail).
Qed.

Lemma chunker_blank_tail_never_returns_witness :
  strip padded <> [] /\ len padded <= 500 /\ 0 < 50 < len padded /\
  strip (slice padded (len padded - 50) (len padded)) = [] /\
  forall fuel, chunk_text fuel padded 500 50 = None.
Proof.
  assert (H1 : strip padded <> []) by (vm_compute; congruence).
  assert (H2 : len padded <= 500) by (vm_compute; congruence).
  assert (H3 : 0 < 50 < len padded) by (vm_compute; split; congruence).
  assert (H4 : strip (slice padded (len padded - 50) (len padded)) = [])
    by (vm_compute; reflexivity).
  exact (conj H1 (conj H2 (conj H3 (conj H4
           (chunker_blank_tail_never_returns padded 500 50 H1 H2 H3 H4))))).
Defined.

(** X5. For a positive [chunk_size] and an overlap that is not
    negative, a text that is not blank never gives an empty list: when
    [chunk_text] returns, it returns at least one chunk. *)
Theorem chunker_nonblank_text_gives_chunk (fuel : nat) (s : list N)
    (chunk_size chunk_overlap : Z) (out : list Chunk) :
  0 < chunk_size -> 0 <= chunk_overlap -> strip s <> [] ->
  chunk_text fuel s chunk_size chunk_overlap = Some out ->
  exists c rest, out = c :: rest.
Proof.
  intros Hcs Hov Hne Hout.
  pose proof (nonblank_text_some_chunk fuel s chunk_size chunk_overlap out
                Hcs Hov Hne Hout) as H.
  destruct out as [|c rest]; [done|]. by exists c, rest.
Qed.

Lemma chunker_nonblank_text_gives_chunk_witness :
  0 < 4 /\ 0 <= 0 /\ strip three_sentences <> [] /\
  chunk_text 10 three_sentences 4 0 =
    Some [mkChunk (lit "A.") 0 0 3; mkChunk (lit "B.") 1 3 6;
          mkChunk (lit "C.") 2 6 8] /\
  exists c rest,
    [mkChunk (lit "A.") 0 0 3; mkChunk (lit "B.") 1 3 6;
     mkChunk (lit "C.") 2 6 8] = c :: rest.
Proof.
  assert (H1 : 0 < 4) by lia.
  assert (H2 : 0 <= 0) by lia.
  assert (H3 : strip three_sentences <> []) by (vm_compute; congruence).
  assert (H4 : chunk_text 10 three_sentences 4 0 =
               Some [mkChunk (lit "A.") 0 0 3; mkChunk (lit "B.") 1 3 6;
                     mkChunk (lit "C.") 2 6 8]) by reflexivity.
  exact (conj H1 (conj H2 (conj H3 (conj H4
           (chunker_nonblank_text_gives_chunk 10 three_sentences 4 0 _
              H1 H2 H3 H4))))).
Defined.

End ChunkerShapesOfResults.

(** ** The two stores *)

Section StoreProperties.
Import VectorStore Providers Mongo Ingestion Documents Stores Retrieval.
Import IngestionFacts StoreFacts SearchFacts.

(** X6. For a positive [chunk_size] and an overlap that is not negative,
    [ingest_document] raises [ValueError("Document produced no chunks")]
    exactly when the content is empty or all whitespace. *)
Theorem ingest_no_chunks_exactly_when_blank (P : Providers) (fuel : nat)
    (w : World) (filename content user_email : list N)
    (chunk_size chunk_overlap : Z) :
  0 < chunk_size -> 0 <= chunk_overlap ->
  ingest_document P fuel w filename content user_email
    chunk_size chunk_overlap
  = Some (Raise (ValueError (lit "Document produced no chunks"))) <->
  Forall (fun c => isspace c = true) content.
Proof.
  exact (ingest_no_chunks_iff P fuel w filename content user_email
           chunk_size chunk_overlap).
Qed.

Lemma ingest_no_chunks_exactly_when_blank_witness :
  0 < 500 /\ 0 <= 50 /\
  (ingest_document bob_nearest 0 library (lit "blank.txt") blank_page alice
     500 50
   = Some (Raise (ValueError (lit "Document produced no chunks"))) <->
   Forall (fun c => isspace c = true) blank_page).
Proof.
  assert (H1 : 0 < 500) by lia.
  assert (H2 : 0 <= 50) by lia.
  exact (conj H1 (conj H2
           (ingest_no_chunks_exactly_when_blank bob_nearest 0 library
              (lit "blank.txt") blank_page alice 500 50 H1 H2))).
Defined.

(** X7. An ingestion that returns only appends: the vectors, the
    document records and the chunk records that were stored are still
    there, in their places; one document record is added; and the index
    written to disk is the index in memory. *)
Theorem ingest_only_appends (P : Providers) (fuel : nat) (w w' : World)
    (filename content user_email : list N) (chunk_size chunk_overlap : Z)
    (r : IngestResult) :
  ingest_document P fuel w filename content user_email
    chunk_size chunk_overlap = Some (Return (r, w')) ->
  index (vector_store w) `prefix_of` index (vector_store w') /\
  documents (mongo w) `prefix_of` documents (mongo w') /\
  chunks (mongo w) `prefix_of` chunks (mongo w') /\
  length (documents (mongo w')) = S (length (documents (mongo w))) /\
  on_disk (vector_store w') = Some (index (vector_store w')).
Proof.
  exact (ingest_appends P fuel w filename content user_email
           chunk_size chunk_overlap r w').
Qed.

Lemma ingest_only_appends_witness :
  ingest_document bob_nearest 10 (snd first_ingest) (lit "d2.txt")
    two_sentences bob 4 0
  = Some (Return (fst second_ingest, snd second_ingest)) /\
  index (vector_store (snd first_ingest))
    `prefix_of` index (vector_store (snd second_ingest)) /\
  documents (mongo (snd first_ingest))
    `prefix_of` documents (mongo (snd second_ingest)) /\
  chunks (mongo (snd first_ingest))
    `prefix_of` chunks (mongo (snd second_ingest)) /\
  length (documents (mongo (snd second_ingest))) =
    S (length (documents (mongo (snd first_ingest)))) /\
  on_disk (vector_store (snd second_ingest)) =
    Some (index (vector_store (snd second_ingest))).
Proof.
  assert (H : ingest_document bob_nearest 10 (snd first_ingest)
                (lit "d2.txt") two_sentences bob 4 0
              = Some (Return (fst second_ingest, snd second_ingest)))
    by (vm_compute; reflexivity).
  exact (conj H (ingest_only_appends _ _ _ _ _ _ _ _ _ _ H)).
Defined.

(** X8. Ingestion keeps the two stores consistent: when every chunk
    record points at a slot the index holds and no two records share a
    slot, the same is true after an ingestion that returns. *)
Theorem ingest_keeps_stores_consistent (P : Providers) (fuel : nat)
    (w w' : World) (filename content user_email : list N)
    (chunk_size chunk_overlap : Z) (r : IngestResult) :
  consistent w ->
  ingest_document P fuel w filename content user_email
    chunk_size chunk_overlap = Some (Return (r, w')) ->
  consistent w'.
Proof.
  exact (ingest_keeps_consistent P fuel w filename content user_email
           chunk_size chunk_overlap r w').
Qed.

Lemma ingest_keeps_stores_consistent_witness :
  consistent empty_world /\
  ingest_document bob_nearest 10 empty_world (lit "d1.txt")
    three_sentences alice 4 0
  = Some (Return (fst first_ingest, snd first_ingest)) /\
  consistent (snd first_ingest).
Proof.
  assert (H0 : consistent empty_world)
    by (apply consistent_no_chunks; reflexivity).
  assert (H1 : ingest_document bob_nearest 10 empty_world (lit "d1.txt")
                 three_sentences alice 4 0
               = Some (Return (fst first_ingest, snd first_ingest)))
    by (vm_compute; reflexivity).
  exact (conj H0 (conj H1
           (ingest_keeps_stores_consistent _ _ _ _ _ _ _ _ _ _ H0 H1))).
Defined.

(** X9. Deletion keeps the two stores consistent as well, although it
    leaves the index alone. *)
Theorem delete_keeps_stores_consistent (w w' : World) (document_id : N)
    (current_user_email : list N) (resp : DeleteResponse) :
  consistent w ->
  delete_document w document_id current_user_email = Return (resp, w') ->
  consistent w'.
Proof.
  exact (delete_keeps_consistent w document_id current_user_email resp w').
Qed.

Lemma delete_keeps_stores_consistent_witness :
  consistent (snd first_ingest) /\
  delete_document (snd first_ingest) 0 alice =
    Return (mkDeleted 0 3, mkWorld (vector_store (snd first_ingest))
                             (mkDb [] [] 1)) /\
  consistent (mkWorld (vector_store (snd first_ingest)) (mkDb [] [] 1)).
Proof.
  assert (H0 : consistent empty_world)
    by (apply consistent_no_chunks; reflexivity).
  assert (H1 : ingest_document bob_nearest 10 empty_world (lit "d1.txt")
                 three_sentences alice 4 0
               = Some (Return (fst first_ingest, snd first_ingest)))
    by (vm_compute; reflexivity).
  pose proof (ingest_keeps_consistent _ _ _ _ _ _ _ _ _ _ H0 H1) as H2.
  assert (H3 : delete_document (snd first_ingest) 0 alice =
               Return (mkDeleted 0 3,
                       mkWorld (vector_store (snd first_ingest))
                         (mkDb [] [] 1)))
    by (vm_compute; reflexivity).
  exact (conj H2 (conj H3
           (delete_keeps_stores_consistent _ _ _ _ _ H2 H3))).
Defined.

(** X10. Insert, then look up. In consistent stores, after an ingestion
    that returns, [get_chunk_by_faiss_index] at slot
    [faiss_start_index + i] answers the record of the [i]-th chunk of
    the new document, and at every slot below [faiss_start_index] it
    answers what it answered before. *)
Theorem ingest_then_lookup_round_trip (P : Providers) (fuel : nat)
    (w w' : World) (filename content user_email : list N)
    (chunk_size chunk_overlap : Z) (r : IngestResult) :
  consistent w ->
  ingest_document P fuel w filename content user_email
    chunk_size chunk_overlap = Some (Return (r, w')) ->
  exists cks,
    chunk_document fuel content chunk_size chunk_overlap = Some cks /\
    (forall i c, cks !! i = Some c ->
       get_chunk_by_faiss_index w'
         (Ingestion.faiss_start_index r + Z.of_nat i)
       = Some (ChunkRecord.mk (Ingestion.document_id r) user_email filename
                 (Chunking.chunk_index c)
                 (Ingestion.faiss_start_index r + Z.of_nat i)
                 (Chunking.text c) (Chunking.start_char c)
                 (Chunking.end_char c))) /\
    (forall slot, slot < Ingestion.faiss_start_index r ->
       get_chunk_by_faiss_index w' slot = get_chunk_by_faiss_index w slot).
Proof.
  exact (ingest_then_lookup P fuel w filename content user_email
           chunk_size chunk_overlap r w').
Qed.

Lemma ingest_then_lookup_round_trip_witness :
  consistent (snd first_ingest) /\
  ingest_document bob_nearest 10 (snd first_ingest) (lit "d2.txt")
    two_sentences bob 4 0
  = Some (Return (fst second_ingest, snd second_ingest)) /\
  get_chunk_by_faiss_index (snd second_ingest) 4 =
    Some (ChunkRecord.mk 1 bob (lit "d2.txt") 1 4 (lit "E.") 3 5) /\
  get_chunk_by_faiss_index (snd second_ingest) 2 =
    get_chunk_by_faiss_index (snd first_ingest) 2.
Proof.
  assert (H0 : consistent empty_world)
    by (apply consistent_no_chunks; reflexivity).
  assert (H1 : ingest_document bob_nearest 10 empty_world (lit "d1.txt")
                 three_sentences alice 4 0
               = Some (Return (fst first_ingest, snd first_ingest)))
    by (vm_compute; reflexivity).
  pose proof (ingest_keeps_consistent _ _ _ _ _ _ _ _ _ _ H0 H1) as H2.
  assert (H3 : ingest_document bob_nearest 10 (snd first_ingest)
                 (lit "d2.txt") two_sentences bob 4 0
               = Some (Return (fst second_ingest, snd second_ingest)))
    by (vm_compute; reflexivity).
  destruct (ingest_then_lookup_round_trip _ _ _ _ _ _ _ _ _ _ H2 H3)
    as (cks & Hc & Hnew & Hold).
  assert (Hcks : cks = [Chunking.mkChunk (lit "D.") 0 0 3;
                        Chunking.mkChunk (lit "E.") 1 3 5]).
  { vm_compute in Hc. by injection Hc as <-. }
  split; [exact H2|]. split; [exact H3|]. split.
  - exact (Hnew 1%nat (Chunking.mkChunk (lit "E.") 1 3 5)
             (eq_ind_r (fun l => l !! 1%nat = Some _) eq_refl Hcks)).
  - apply Hold. vm_compute. reflexivity.
Defined.

(** X11. A deletion that returned was asked by the owner of the
    document. It leaves the index as it was, keeps exactly the chunk
    records of the other documents, reports the number of chunk records
    it removed, and removes one document record. *)
Theorem delete_removes_exactly_the_document (w w' : World) (document_id : N)
    (current_user_email : list N) (resp : DeleteResponse) :
  delete_document w document_id current_user_email = Return (resp, w') ->
  (exists doc, doc ∈ documents (mongo w) /\
               DocumentRecord._id doc = document_id /\
               DocumentRecord.user_email doc = current_user_email) /\
  vector_store w' = vector_store w /\
  (forall c, c ∈ chunks (mongo w') <->
             c ∈ chunks (mongo w) /\
             ChunkRecord.document_id c <> document_id) /\
  chunks_deleted resp =
    len (List.filter
           (fun c => bool_decide (ChunkRecord.document_id c = document_id))
           (chunks (mongo w))) /\
  S (length (documents (mongo w'))) = length (documents (mongo w)).
Proof.
  intros H.
  apply delete_document_inv in H as ((doc & Hdoc & Hid & Hu) & -> & ->).
  simpl. split; [by exists doc|]. split; [done|].
  split; [intros c; apply delete_many_elem|].
  split; [apply delete_many_count|].
  by apply (delete_one_length document_id _ doc).
Qed.

Lemma delete_removes_exactly_the_document_witness :
  delete_document (snd second_ingest) 0 alice =
    Return (mkDeleted 0 3,
            mkWorld (vector_store (snd second_ingest))
              (mkDb (delete_one 0 (documents (mongo (snd second_ingest))))
                 (delete_many 0 (chunks (mongo (snd second_ingest)))) 2)) /\
  total_vectors (vector_store (snd second_ingest)) = 5 /\
  length (delete_many 0 (chunks (mongo (snd second_ingest)))) = 2%nat /\
  S (length (delete_one 0 (documents (mongo (snd second_ingest))))) =
    length (documents (mongo (snd second_ingest))).
Proof.
  assert (H : delete_document (snd second_ingest) 0 alice =
              Return (mkDeleted 0 3,
                      mkWorld (vector_store (snd second_ingest))
                        (mkDb
                           (delete_one 0
                              (documents (mongo (snd second_ingest))))
                           (delete_many 0
                              (chunks (mongo (snd second_ingest)))) 2)))
    by (vm_compute; reflexivity).
  destruct (delete_removes_exactly_the_document _ _ _ _ _ H)
    as (_ & _ & _ & _ & Hdocs).
  split; [exact H|]. split; [vm_compute; reflexivity|].
  split; [vm_compute; reflexivity|]. exact Hdocs.
Defined.

(** X12. A caller who owns no document of that id gets a 404 and
    nothing is deleted. *)
Theorem delete_refuses_other_owner (w : World) (document_id : N)
    (current_user_email : list N) :
  (forall doc, doc ∈ documents (mongo w) ->
               DocumentRecord._id doc = document_id ->
               DocumentRecord.user_email doc <> current_user_email) ->
  delete_document w document_id current_user_email =
  Raise (HTTPException 404
           (lit "Document not found or you don't have permission to delete it")).
Proof. exact (delete_not_owned w document_id current_user_email). Qed.

Lemma delete_refuses_other_owner_witness :
  Forall (fun doc => DocumentRecord._id doc = 0%N ->
                     DocumentRecord.user_email doc <> bob)
    (documents (mongo (snd second_ingest))) /\
  delete_document (snd second_ingest) 0 bob =
  Raise (HTTPException 404
           (lit "Document not found or you don't have permission to delete it")).
Proof.
  assert (H : Forall (fun doc => DocumentRecord._id doc = 0%N ->
                                 DocumentRecord.user_email doc <> bob)
                (documents (mongo (snd second_ingest)))).
  { apply (bool_decide_unpack _). vm_compute. exact I. }
  split; [exact H|].
  apply delete_refuses_other_owner.
  intros doc Hdoc. rewrite Forall_forall in H. by apply H.
Defined.

(** X13. Once a document is deleted, no search returns a chunk of it.
    When no two chunk records share a slot, every search after the
    deletion returns what it returned before without the hits of that
    document, in the same order and with the same distances. *)
Theorem deleted_document_leaves_search (P : Providers) (w w' : World)
    (document_id : N) (current_user_email : list N) (resp : DeleteResponse)
    (query : list N) (k : Z) (user_email : option (list N)) :
  delete_document w document_id current_user_email = Return (resp, w') ->
  Forall (fun h => Retrieval.document_id h <> document_id)
    (search_similar_chunks P w' query k user_email) /\
  (NoDup (map ChunkRecord.faiss_index (chunks (mongo w))) ->
   search_similar_chunks P w' query k user_email =
   List.filter
     (fun h => negb (bool_decide (Retrieval.document_id h = document_id)))
     (search_similar_chunks P w query k user_email)).
Proof.
  intros H. split.
  - apply Forall_forall. intros h Hh.
    by apply (deleted_never_returned w document_id current_user_email
                resp w' P query k user_email h).
  - intros Hnd.
    by apply (search_after_delete P w document_id current_user_email resp).
Qed.

Lemma deleted_document_leaves_search_witness :
  delete_document (snd second_ingest) 0 alice =
    Return (mkDeleted 0 3,
            mkWorld (vector_store (snd second_ingest))
              (mkDb (delete_one 0 (documents (mongo (snd second_ingest))))
                 (delete_many 0 (chunks (mongo (snd second_ingest)))) 2)) /\
  map Retrieval.faiss_index
    (search_similar_chunks mixed_nearest (snd second_ingest) (lit "D") 2 None)
    = [0; 3] /\
  search_similar_chunks mixed_nearest
    (mkWorld (vector_store (snd second_ingest))
       (mkDb (delete_one 0 (documents (mongo (snd second_ingest))))
          (delete_many 0 (chunks (mongo (snd second_ingest)))) 2))
    (lit "D") 2 None =
  List.filter (fun h => negb (bool_decide (Retrieval.document_id h = 0%N)))
    (search_similar_chunks mixed_nearest (snd second_ingest) (lit "D") 2 None).
Proof.
  assert (H : delete_document (snd second_ingest) 0 alice =
              Return (mkDeleted 0 3,
                      mkWorld (vector_store (snd second_ingest))
                        (mkDb
                           (delete_one 0
                              (documents (mongo (snd second_ingest))))
                           (delete_many 0
                              (chunks (mongo (snd second_ingest)))) 2)))
    by (vm_compute; reflexivity).
  assert (Hnd : NoDup (map ChunkRecord.faiss_index
                         (chunks (mongo (snd second_ingest)))))
    by (apply (bool_decide_unpack _); vm_compute; exact I).
  destruct (deleted_document_leaves_search mixed_nearest _ _ _ _ _
              (lit "D") 2 None H) as [_ Hsame].
  split; [exact H|]. split; [vm_compute; reflexivity|]. exact (Hsame Hnd).
Defined.

(** X14. Ingest, then delete. When the next document id is not in use,
    deleting the document an ingestion has just stored gives back the
    document records and the chunk records as they were before the
    ingestion, while the index keeps the vectors the ingestion added. *)
Theorem ingest_then_delete_leaves_vectors (P : Providers) (fuel : nat)
    (w w' : World) (filename content user_email : list N)
    (chunk_size chunk_overlap : Z) (r : IngestResult) :
  fresh_id w ->
  ingest_document P fuel w filename content user_email
    chunk_size chunk_overlap = Some (Return (r, w')) ->
  exists resp w'',
    delete_document w' (Ingestion.document_id r) user_email
    = Return (resp, w'') /\
    chunks_deleted resp = chunks_processed r /\
    documents (mongo w'') = documents (mongo w) /\
    chunks (mongo w'') = chunks (mongo w) /\
    vector_store w'' = vector_store w' /\
    total_vectors (vector_store w'') =
      total_vectors (vector_store w) + chunks_processed r /\
    0 < chunks_processed r.
Proof.
  intros Hfresh H.
  destruct (ingest_then_delete P fuel w filename content user_email
              chunk_size chunk_overlap r w' Hfresh H)
    as (resp & w'' & Hd & Hn & Hdocs & Hchunks & Hvs & Htotal).
  destruct (ingest_total _ _ _ _ _ _ _ _ _ _ H) as [_ Hpos].
  exists resp, w''. repeat split; try done; lia.
Qed.

Lemma ingest_then_delete_leaves_vectors_witness :
  fresh_id empty_world /\
  ingest_document bob_nearest 10 empty_world (lit "d1.txt")
    three_sentences alice 4 0
  = Some (Return (fst first_ingest, snd first_ingest)) /\
  exists resp w'',
    delete_document (snd first_ingest)
      (Ingestion.document_id (fst first_ingest)) alice
    = Return (resp, w'') /\
    chunks_deleted resp = chunks_processed (fst first_ingest) /\
    documents (mongo w'') = documents (mongo empty_world) /\
    chunks (mongo w'') = chunks (mongo empty_world) /\
    vector_store w'' = vector_store (snd first_ingest) /\
    total_vectors (vector_store w'') =
      total_vectors (vector_store empty_world) +
      chunks_processed (fst first_ingest) /\
    0 < chunks_processed (fst first_ingest).
Proof.
  assert (H0 : fresh_id empty_world).
  { split; intros x Hx; vm_compute in Hx; by apply elem_of_nil in Hx. }
  assert (H1 : ingest_document bob_nearest 10 empty_world (lit "d1.txt")
                 three_sentences alice 4 0
               = Some (Return (fst first_ingest, snd first_ingest)))
    by (vm_compute; reflexivity).
  exact (conj H0 (conj H1
           (ingest_then_delete_leaves_vectors _ _ _ _ _ _ _ _ _ _ H0 H1))).
Defined.

(** X15. When no two chunk records share a slot, the answer of a search
    does not depend on the order in which the collection hands out its
    records. *)
Theorem search_ignores_collection_order (P : Providers) (w1 w2 : World)
    (query : list N) (k : Z) (user_email : option (list N)) :
  NoDup (map ChunkRecord.faiss_index (chunks (mongo w1))) ->
  vector_store w2 = vector_store w1 ->
  chunks (mongo w1) ≡ₚ chunks (mongo w2) ->
  search_similar_chunks P w2 query k user_email =
  search_similar_chunks P w1 query k user_email.
Proof. exact (search_Permutation P w1 w2 query k user_email). Qed.

Lemma search_ignores_collection_order_witness :
  NoDup (map ChunkRecord.faiss_index (chunks (mongo library))) /\
  vector_store library_swapped = vector_store library /\
  chunks (mongo library) ≡ₚ chunks (mongo library_swapped) /\
  search_similar_chunks bob_nearest library_swapped (lit "note") 4 None =
  search_similar_chunks bob_nearest library (lit "note") 4 None.
Proof.
  assert (H1 : NoDup (map ChunkRecord.faiss_index (chunks (mongo library))))
    by (apply (bool_decide_unpack _); vm_compute; exact I).
  assert (H2 : vector_store library_swapped = vector_store library)
    by reflexivity.
  assert (H3 : chunks (mongo library) ≡ₚ chunks (mongo library_swapped))
    by apply perm_swap.
  exact (conj H1 (conj H2 (conj H3
           (search_ignores_collection_order bob_nearest _ _ (lit "note") 4
              None H1 H2 H3)))).
Defined.

(** X25. For a content that is not blank on which the chunker returns,
    an embedding model whose width differs from the index's makes
    [ingest_document] raise the [ValueError] of [add_vectors], with both
    widths in its message. *)
Theorem ingest_refuses_wrong_dimension (P : Providers) (fuel : nat)
    (w : World) (filename content user_email : list N)
    (chunk_size chunk_overlap : Z) (cks : list Chunking.Chunk) :
  0 < chunk_size -> 0 <= chunk_overlap -> strip content <> [] ->
  chunk_document fuel content chunk_size chunk_overlap = Some cks ->
  model_dimension P <> dimension (vector_store w) ->
  ingest_document P fuel w filename content user_email
    chunk_size chunk_overlap
  = Some (Raise (ValueError
                   (lit "Vector dimension " ++
                    str_of_Z (model_dimension P) ++
                    lit " doesn't match index dimension " ++
                    str_of_Z (dimension (vector_store w))))).
Proof.
  exact (ingest_wrong_dimension P fuel w filename content user_email
           chunk_size chunk_overlap cks).
Qed.

Lemma ingest_refuses_wrong_dimension_witness :
  0 < 500 /\ 0 <= 50 /\ strip greeting <> [] /\
  chunk_document 1 greeting 500 50 = Some [Chunking.mkChunk greeting 0 0 12] /\
  model_dimension wide <> dimension (vector_store library) /\
  ingest_document wide 1 library (lit "hello.txt") greeting alice 500 50
  = Some (Raise (ValueError
                   (lit "Vector dimension 2 doesn't match index dimension 1"))).
Proof.
  assert (H1 : 0 < 500) by lia.
  assert (H2 : 0 <= 50) by lia.
  assert (H3 : strip greeting <> []) by (vm_compute; congruence).
  assert (H4 : chunk_document 1 greeting 500 50 =
               Some [Chunking.mkChunk greeting 0 0 12]) by reflexivity.
  assert (H5 : model_dimension wide <> dimension (vector_store library))
    by (vm_compute; congruence).
  exact (conj H1 (conj H2 (conj H3 (conj H4 (conj H5
           (ingest_refuses_wrong_dimension wide 1 library (lit "hello.txt")
              greeting alice 500 50 _ H1 H2 H3 H4 H5)))))).
Defined.

End StoreProperties.

(** ** The agent and the endpoints *)

Section EndpointProperties.
Import VectorStore Providers Mongo Retrieval LLM Agent.
Import RetrievalFacts AgentFacts EndpointFacts.

(** X16. [run_agent] returns for every question, for every content of
    the stores, every answer of the index and every generation server,
    a failing one included: with the embedding, index and database calls
    returning, it never raises. Its sources are the hits nearer than
    the threshold 1.2, and the last entry of its trace is the answer, as
    an [ai] message. *)
Theorem agent_run_always_returns (P : Providers) (w : World)
    (question : list N) (k : Z) (user_email : option (list N)) :
  exists resp,
    run_agent P w question k user_email = Return resp /\
    resp_question resp = question /\
    resp_sources resp =
      relevant (search_similar_chunks P w question k user_email) /\
    Forall (fun h => PrimFloat.ltb (distance h) RELEVANCE_THRESHOLD = true)
      (resp_sources resp) /\
    last (resp_messages resp) = Some (mkMessage (lit "ai") (resp_answer resp)).
Proof.
  destruct (run_agent_returns P w question k user_email)
    as (resp & Hrun & Hq & Hsrc & Hlast).
  exists resp. repeat split; try done.
  rewrite Hsrc. apply Forall_forall. intros h Hh.
  by apply relevant_elem in Hh as [_ Hh].
Qed.

(** X17. The prompt of the reasoning step is made of the question, the
    file names of the first three chunks and the first 150 characters of
    their texts: chunk lists that agree on these give the same prompt. *)
Theorem agent_reasoning_prompt_preview (question : list N)
    (chunks1 chunks2 : list Hit) :
  map (fun c => (filename c, take 150 (text c))) (take 3 chunks1) =
  map (fun c => (filename c, take 150 (text c))) (take 3 chunks2) ->
  reasoning_prompt question chunks1 = reasoning_prompt question chunks2.
Proof. exact (reasoning_prompt_preview question chunks1 chunks2). Qed.

Lemma agent_reasoning_prompt_preview_witness :
  map (fun c => (filename c, take 150 (text c)))
    (take 3 [alice_hit; bob_hit; alice_hit; bob_hit]) =
  map (fun c => (filename c, take 150 (text c)))
    (take 3 [alice_hit; bob_hit; alice_hit]) /\
  reasoning_prompt (lit "what?") [alice_hit; bob_hit; alice_hit; bob_hit] =
  reasoning_prompt (lit "what?") [alice_hit; bob_hit; alice_hit].
Proof.
  assert (H : map (fun c => (filename c, take 150 (text c)))
                (take 3 [alice_hit; bob_hit; alice_hit; bob_hit]) =
              map (fun c => (filename c, take 150 (text c)))
                (take 3 [alice_hit; bob_hit; alice_hit]))
    by reflexivity.
  exact (conj H (agent_reasoning_prompt_preview (lit "what?") _ _ H)).
Defined.

(** X18. A citation that [build_citation] returns carries the chunk's
    fields and distance, a text of at most 203 characters, the citation
    string of its rank, and as score the rounding of a number between 0
    and 1, whatever [math.exp] answered, [nan] and infinities
    included. *)
Theorem citation_score_is_clamped (M : Query.Numerics) (chunk : Hit)
    (rank : Z) (s : Query.SourceChunk) :
  Query.build_citation M chunk rank = Return s ->
  (exists y, Query.relevance_score s = Query.round4 M y /\
             PrimFloat.leb 0 y = true /\ PrimFloat.leb y 1 = true) /\
  Query.citation s = Query.citation_of rank chunk /\
  Query.distance s = distance chunk /\
  Query.document_id s = document_id chunk /\
  Query.text s = Query.display_text (text chunk) /\
  len (Query.text s) <= 203.
Proof.
  intros H. apply build_citation_inv in H
    as (Ht & _ & Hid & _ & _ & _ & Hd & Hc & Hy).
  repeat split; try done. rewrite Ht. apply display_text_len.
Qed.

Lemma citation_score_is_clamped_witness :
  Query.build_citation at_half alice_hit 1 = Return alice_source /\
  (exists y, Query.relevance_score alice_source = Query.round4 at_half y /\
             PrimFloat.leb 0 y = true /\ PrimFloat.leb y 1 = true) /\
  Query.citation alice_source = Query.citation_of 1 alice_hit /\
  Query.distance alice_source = distance alice_hit /\
  Query.document_id alice_source = document_id alice_hit /\
  Query.text alice_source = Query.display_text (text alice_hit) /\
  len (Query.text alice_source) <= 203.
Proof.
  assert (H : Query.build_citation at_half alice_hit 1 = Return alice_source)
    by (vm_compute; reflexivity).
  exact (conj H (citation_score_is_clamped at_half alice_hit 1 _ H)).
Defined.

(** X19. When no hit of the caller is nearer than the threshold,
    [query_documents] returns one of its two fixed answers with no
    source, and this whatever the generation server and the arithmetic
    would do: neither is consulted. *)
Theorem query_without_relevant_chunk_skips_generation (P : Providers)
    (w : World) (question : list N) (k : Z) (email : list N) :
  relevant (search_similar_chunks P w question k (Some email)) = [] ->
  exists answer,
    (answer = NO_INFORMATION \/ answer = Query.NOT_ABOUT question) /\
    forall M' ollama',
      Query.query_documents M'
        (mkProviders (encode P) (model_dimension P) (faiss_search P) ollama')
        w question k email
      = Return (Query.mkQuery question answer []).
Proof. exact (query_documents_without_context P w question k email). Qed.

Lemma query_without_relevant_chunk_skips_generation_witness :
  relevant (search_similar_chunks all_far library (lit "what?") 5
              (Some alice)) = [] /\
  exists answer,
    (answer = NO_INFORMATION \/ answer = Query.NOT_ABOUT (lit "what?")) /\
    forall M' ollama',
      Query.query_documents M'
        (mkProviders (encode all_far) (model_dimension all_far)
           (faiss_search all_far) ollama')
        library (lit "what?") 5 alice
      = Return (Query.mkQuery (lit "what?") answer []).
Proof.
  assert (H : relevant (search_similar_chunks all_far library (lit "what?") 5
                          (Some alice)) = [])
    by (vm_compute; reflexivity).
  exact (conj H (query_without_relevant_chunk_skips_generation
                   all_far library (lit "what?") 5 alice H)).
Defined.

(** X20. When a hit of the caller is nearer than the threshold and the
    generation call raises, [query_documents] raises
    [HTTPException(503)] with the exception's text in its detail. *)
Theorem query_generation_failure_is_503 (M : Query.Numerics) (P : Providers)
    (w : World) (question : list N) (k : Z) (email : list N) (e : exn) :
  relevant (search_similar_chunks P w question k (Some email)) <> [] ->
  generate P question
    (Some (map text
             (relevant (search_similar_chunks P w question k (Some email)))))
    0.7%float 512 = Raise e ->
  Query.query_documents M P w question k email =
  Raise (HTTPException 503
           (lit "LLM service unavailable. Make sure Ollama is running. Error: "
            ++ str_of_exn e)).
Proof. exact (query_documents_unavailable M P w question k email e). Qed.

Lemma query_generation_failure_is_503_witness :
  relevant (search_similar_chunks bob_nearest library (lit "what?") 5
              (Some alice)) <> [] /\
  generate bob_nearest (lit "what?")
    (Some (map text
             (relevant (search_similar_chunks bob_nearest library
                          (lit "what?") 5 (Some alice)))))
    0.7%float 512 = Raise (Exception (lit "connection refused")) /\
  Query.query_documents at_half bob_nearest library (lit "what?") 5 alice =
  Raise (HTTPException 503
           (lit "LLM service unavailable. Make sure Ollama is running. Error: connection refused")).
Proof.
  assert (H1 : relevant (search_similar_chunks bob_nearest library
                           (lit "what?") 5 (Some alice)) <> [])
    by (vm_compute; congruence).
  assert (H2 : generate bob_nearest (lit "what?")
                 (Some (map text
                          (relevant (search_similar_chunks bob_nearest library
                                       (lit "what?") 5 (Some alice)))))
                 0.7%float 512 = Raise (Exception (lit "connection refused")))
    by reflexivity.
  exact (conj H1 (conj H2
           (query_generation_failure_is_503 at_half bob_nearest library
              (lit "what?") 5 alice _ H1 H2))).
Defined.

(** X21. Every source of an answer of [query_documents], for a caller
    with a non-empty email, is a stored chunk of that caller, nearer
    than the threshold, shown with at most 203 characters. *)
Theorem query_sources_belong_to_caller (M : Query.Numerics) (P : Providers)
    (w : World) (question : list N) (k : Z) (email : list N)
    (r : Query.QueryResponse) (s : Query.SourceChunk) :
  email <> [] ->
  Query.query_documents M P w question k email = Return r ->
  s ∈ Query.sources r ->
  exists c,
    c ∈ chunks (mongo w) /\ ChunkRecord.user_email c = email /\
    Query.document_id s = ChunkRecord.document_id c /\
    Query.filename s = ChunkRecord.filename c /\
    Query.text s = Query.display_text (ChunkRecord.text c) /\
    len (Query.text s) <= 203 /\
    PrimFloat.ltb (Query.distance s) RELEVANCE_THRESHOLD = true.
Proof. exact (query_documents_source_owned M P w question k email r s). Qed.

Lemma query_sources_belong_to_caller_witness :
  alice <> [] /\
  Query.query_documents at_half answering library (lit "what?") 5 alice
  = Return alice_answer /\
  alice_source ∈ Query.sources alice_answer /\
  exists c,
    c ∈ chunks (mongo library) /\ ChunkRecord.user_email c = alice /\
    Query.document_id alice_source = ChunkRecord.document_id c /\
    Query.filename alice_source = ChunkRecord.filename c /\
    Query.text alice_source = Query.display_text (ChunkRecord.text c) /\
    len (Query.text alice_source) <= 203 /\
    PrimFloat.ltb (Query.distance alice_source) RELEVANCE_THRESHOLD = true.
Proof.
  assert (H1 : alice <> []) by (vm_compute; congruence).
  assert (H2 : Query.query_documents at_half answering library (lit "what?")
                 5 alice = Return alice_answer)
    by (vm_compute; reflexivity).
  assert (H3 : alice_source ∈ Query.sources alice_answer)
    by apply list_elem_of_here.
  exact (conj H1 (conj H2 (conj H3
           (query_sources_belong_to_caller _ _ _ _ _ _ _ _ H1 H2 H3)))).
Defined.

(** X22. The sources of an answer of [query_documents] follow the
    relevant hits one by one: there are as many, and the [i]-th source
    is the citation of the [i]-th relevant hit with rank [i + 1]. *)
Theorem query_sources_follow_relevant_hits (M : Query.Numerics)
    (P : Providers) (w : World) (question : list N) (k : Z)
    (email : list N) (r : Query.QueryResponse) :
  Query.query_documents M P w question k email = Return r ->
  Query.question r = question /\
  length (Query.sources r) =
    length (relevant (search_similar_chunks P w question k (Some email))) /\
  forall i s, Query.sources r !! i = Some s ->
    exists h,
      relevant (search_similar_chunks P w question k (Some email)) !! i
        = Some h /\
      Query.build_citation M h (Z.of_nat i + 1) = Return s.
Proof. exact (query_documents_sources M P w question k email r). Qed.

Lemma query_sources_follow_relevant_hits_witness :
  Query.query_documents at_half answering library (lit "what?") 5 alice
  = Return alice_answer /\
  Query.question alice_answer = lit "what?" /\
  length (Query.sources alice_answer) =
    length (relevant (search_similar_chunks answering library (lit "what?") 5
                        (Some alice))) /\
  forall i s, Query.sources alice_answer !! i = Some s ->
    exists h,
      relevant (search_similar_chunks answering library (lit "what?") 5
                  (Some alice)) !! i = Some h /\
      Query.build_citation at_half h (Z.of_nat i + 1) = Return s.
Proof.
  assert (H : Query.query_documents at_half answering library (lit "what?")
                5 alice = Return alice_answer)
    by (vm_compute; reflexivity).
  exact (conj H (query_sources_follow_relevant_hits _ _ _ _ _ _ _ H)).
Defined.



(** X24. The agent endpoint returns unless [math.exp] raises on the
    distance of a relevant hit, in which case it raises
    [HTTPException(500)]; the generation server cannot make it fail.
    When it returns there is one source per relevant hit. *)
Theorem agent_endpoint_fails_only_on_score (M : Query.Numerics)
    (P : Providers) (w : World) (question : list N) (k : Z)
    (email : list N) :
  (exists r,
     Query.query_documents_with_agent M P w question k email = Return r /\
     Query.aq_question r = question /\
     length (Query.aq_sources r) =
       length (relevant (search_similar_chunks P w question k (Some email))))
  \/
  (exists e h,
     Query.query_documents_with_agent M P w question k email
       = Raise (HTTPException 500
                  (lit "Agent execution failed: " ++ str_of_exn e)) /\
     h ∈ relevant (search_similar_chunks P w question k (Some email)) /\
     Query.math_exp M (PrimFloat.div (PrimFloat.opp (distance h)) 10%float)
       = Raise e).
Proof. exact (query_documents_with_agent_outcome M P w question k email). Qed.

(** X26. With a context, the prompt [_build_prompt] builds holds every
    context text under the label of its number, before the question and
    the five rules. *)
Theorem prompt_holds_every_context_text (question : list N)
    (context : list (list N)) (i : nat) (t : list N) :
  context !! i = Some t ->
  exists pre post,
    _build_prompt question (Some context) =
    pre ++ (lit "[Document " ++ str_of_Z (Z.of_nat i + 1) ++ lit "]:" ++ NL
            ++ t) ++ post ++ lit "Question: " ++ question ++ NL ++ NL ++
    lit "IMPORTANT RULES:" ++ NL ++
    lit "1. ONLY use information from the context above" ++ NL ++
    lit "2. If the context doesn't contain relevant information to answer the question, say: "
    ++ QUOTE ++
    lit "I don't have information about this in your uploaded documents."
    ++ QUOTE ++ NL ++
    lit "3. Do NOT use your general knowledge if it's not in the context"
    ++ NL ++
    lit "4. Always cite which document section you're using when answering"
    ++ NL ++
    lit "5. If the context seems unrelated to the question, explicitly say so"
    ++ NL ++ NL ++
    lit "Answer:".
Proof. exact (build_prompt_context question context i t). Qed.

Lemma prompt_holds_every_context_text_witness :
  [lit "alice's note"; lit "bob's note"] !! 1%nat = Some (lit "bob's note") /\
  exists pre post,
    _build_prompt (lit "what?") (Some [lit "alice's note"; lit "bob's note"]) =
    pre ++ (lit "[Document " ++ str_of_Z (Z.of_nat 1 + 1) ++ lit "]:" ++ NL
            ++ lit "bob's note") ++ post ++ lit "Question: " ++ lit "what?"
    ++ NL ++ NL ++
    lit "IMPORTANT RULES:" ++ NL ++
    lit "1. ONLY use information from the context above" ++ NL ++
    lit "2. If the context doesn't contain relevant information to answer the question, say: "
    ++ QUOTE ++
    lit "I don't have information about this in your uploaded documents."
    ++ QUOTE ++ NL ++
    lit "3. Do NOT use your general knowledge if it's not in the context"
    ++ NL ++
    lit "4. Always cite which document section you're using when answering"
    ++ NL ++
    lit "5. If the context seems unrelated to the question, explicitly say so"
    ++ NL ++ NL ++
    lit "Answer:".
Proof.
  assert (H : [lit "alice's note"; lit "bob's note"] !! 1%nat =
              Some (lit "bob's note")) by reflexivity.
  exact (conj H (prompt_holds_every_context_text (lit "what?") _ 1 _ H)).
Defined.

End EndpointProperties.
